(** * Surveillance memory pipeline: identity arbiter, event fusion,
      identity refiner, persister, daily summarizer and retrieval.

    A shallow embedding of the Python sources under [workflow/] together
    with the properties of the pipeline that the design document states.

    Conventions of the embedding.
    - A Python [float] is the rational ([Q]) it denotes, and every float
      operation of the scoring and sampling code is the exact operation
      followed by the rounding of IEEE 754 binary64 ([Float64.round_double]:
      to nearest, a half to the even significand, 53 bits, subnormals
      included).  Infinities and NaN are not floats of the model: a result
      beyond the largest double (about 1.8e308) is outside it.  A Python
      [int] is an integer ([Z]) and its arithmetic is exact.  pgvector's
      distance is a double that the embedding takes as given, and the
      similarity [1 - distance] of the arbiter's queries is PostgreSQL's
      double subtraction.
    - A [datetime] is a number of seconds ([Z]); clip times are parsed from
      ["YYYY-MM-DD HH:MM:SS"], so differences are whole seconds.
    - A dict with fixed keys is a record.  A key read with [.get(key)] is an
      [option] field, [None] when the key is absent or holds [None], which
      the code does not tell apart.  A key read with a default,
      [.get(key, default)] (role, method, confidence), is an [option] field
      that is [None] when the key is absent; the dicts of the pipeline hold
      a string, a string and a float under these keys, never [None].
    - Python sets of person ids are [gset Z]; lists updated in place are
      lists read with [!!] and rewritten at an index with [alter]. *)

From stdpp Require Import base option list sorting gmap strings.
From Stdlib Require Import ZArith QArith Qround Qpower Qabs Lia Btauto.

Set Warnings "-clear-no-such-hyp".

Local Open Scope string_scope.
Local Open Scope list_scope.
Local Open Scope Z_scope.

(** ** Shared data *)

Definition Vec := list Q.

(** [(x1, y1, x2, y2)]: the four [int]s that the detector makes of a box
    ([map(int, box.xyxy[0])] in [yolo_detector.py]). *)
Definition BBox : Type := Z * Z * Z * Z.

(** One entry of [people_detected[frame]] (built in [cv_pipeline.py] from
    the arbiter's identity dict plus [bbox], [confidence], [frame_idx]). *)
Record Detection := mkDetection {
  person_id : option Z;
  role : option string;
  method : option string;
  confidence : option Q;
  bbox : option BBox;
  body_embedding : option Vec;
}.

(** A validated [Clip_Obj]. *)
Record Clip := mkClip {
  time : Z;
  cam : string;
  people_detected : list (list Detection);
  video_duration : option Q;
}.

(** Python truthiness of an optional integer: [if person_id:]. *)
Definition truthy_id (p : option Z) : bool :=
  match p with
  | Some z => negb (z =? 0)
  | None => false
  end.

(** [person.get('role', 'stranger')] and [person.get('method', 'unknown')]:
    the default stands in for an absent key, [None] in the record. *)
Definition role_or_stranger (d : Detection) : string := default "stranger" (role d).
Definition method_or_unknown (d : Detection) : string := default "unknown" (method d).

(** [person.get('role')], under a name that local variables do not hide. *)
Definition Detection_role (d : Detection) : option string := role d.

(** All detections of a clip, frame after frame. *)
Definition clip_detections (c : Clip) : list Detection := concat (people_detected c).

(** What a call, or the body of a [try], does: it returns a value or
    raises. *)
Inductive Outcome (A : Type) : Type :=
| Returned (a : A)
| Raised (exception : string).
Arguments Returned {A} a.
Arguments Raised {A} exception.

#[global] Instance Outcome_ret : MRet Outcome := λ A a, Returned a.
#[global] Instance Outcome_bind : MBind Outcome := λ A B k m,
  match m with
  | Returned a => k a
  | Raised e => Raised e
  end.

(** ** fusion_policy.py *)

Module FusionPolicy.

Record PeopleSet := mkPeopleSet {
  person_ids : gset Z;
  all_strangers : bool;
  has_family : bool;
  has_stranger : bool;
}.

(** Loop state of [_extract_people_set]: (person_ids, has_family, has_stranger). *)
Definition scan_person (acc : gset Z * bool * bool) (person : Detection)
  : gset Z * bool * bool :=
  let '(ids, fam, str) := acc in
  let role := role_or_stranger person in
  let ids' := match person_id person with
              | Some z => if truthy_id (Some z) then {[z]} ∪ ids else ids
              | None => ids
              end in
  if String.eqb role "family" then (ids', true, str)
  else if String.eqb role "stranger" then (ids', fam, true)
  else (ids', fam, str).

Definition _extract_people_set (clip : Clip) : PeopleSet :=
  let '(ids, fam, str) :=
    fold_left (fun acc frame_people => fold_left scan_person frame_people acc)
              (people_detected clip) (∅, false, false) in
  {| person_ids := ids;
     all_strangers := str && negb fam;
     has_family := fam;
     has_stranger := str |}.

Definition _check_time_rule (time_threshold : Z) (last_clip current_clip : Clip) : bool :=
  let time_diff := time current_clip - time last_clip in
  if time_diff <? 0 then false
  else time_diff <? time_threshold.

Definition _check_identity_rule (last_clip current_clip : Clip) : bool :=
  let last_people := _extract_people_set last_clip in
  let current_people := _extract_people_set current_clip in
  if bool_decide (person_ids last_people ∩ person_ids current_people ≠ ∅) then true
  else
    let time_diff := time current_clip - time last_clip in
    if all_strangers last_people && all_strangers current_people && (time_diff <? 10)
    then true
    else if (time_diff <? 5) &&
            ((has_family last_people && has_stranger current_people) ||
             (has_stranger last_people && has_family current_people))
    then true
    else false.

Definition is_connected (time_threshold : Z) (last_clip current_clip : Clip) : bool :=
  let time_connected := _check_time_rule time_threshold last_clip current_clip in
  let identity_connected := _check_identity_rule last_clip current_clip in
  time_connected && identity_connected.

(** The policy as the design document words it (used for comparison only). *)
Definition only_role (r : string) (c : Clip) : bool :=
  negb (bool_decide (clip_detections c = [])) &&
  forallb (fun d => String.eqb (role_or_stranger d) r) (clip_detections c).

Definition resolved_ids (c : Clip) : gset Z :=
  list_to_set (omap person_id (clip_detections c)).

Definition documented_connected (T : Z) (last_clip current_clip : Clip) : bool :=
  let gap := time current_clip - time last_clip in
  ((0 <=? gap) && (gap <? T)) &&
  (bool_decide (resolved_ids last_clip ∩ resolved_ids current_clip ≠ ∅)
   || (only_role "stranger" last_clip && only_role "stranger" current_clip && (gap <? 10))
   || (((only_role "family" last_clip && only_role "stranger" current_clip)
        || (only_role "stranger" last_clip && only_role "family" current_clip))
       && (gap <? 5))).

End FusionPolicy.

(** ** Rational comparisons used by the scoring code *)

Definition Qltb (x y : Q) : bool := negb (Qle_bool y x).

(** ** Python floats: IEEE 754 binary64 *)

Module Float64.

(** Rounding to the nearest integer, a half to the even neighbour. *)
Definition round_half_even (x : Q) : Z :=
  let f := Qfloor x in
  let r := (x - inject_Z f)%Q in
  if Qltb r (1 # 2) then f
  else if Qltb (1 # 2) r then f + 1
  else if Z.even f then f else f + 1.

(** [⌊log2 x⌋] for [0 < x]: the difference of the bit lengths of numerator
    and denominator, or one less. *)
Definition floor_log2 (x : Q) : Z :=
  let e := Z.log2 (Qnum x) - Z.log2 (Zpos (Qden x)) in
  if Qle_bool (2 ^ e) x then e else e - 1.

(** The exponent of the unit in the last place at [x]: 52 binary places
    below the leading bit, and never below the subnormal spacing [2^-1074]. *)
Definition ulp_exponent (x : Q) : Z := Z.max (floor_log2 (Qabs x) - 52) (-1074).

(** The double nearest to [x], in lowest terms. *)
Definition round_double (x : Q) : Q :=
  if Qeq_bool x 0 then 0%Q
  else let s := ulp_exponent x in
       Qred (inject_Z (round_half_even (x / 2 ^ s)) * 2 ^ s).

(** [x] is a double: rounding leaves it as it is. *)
Definition is_double (x : Q) : bool := Qeq_bool (round_double x) x.

(** [x + y], [x - y], [x * y] and [x / y] on floats. *)
Definition fadd (x y : Q) : Q := round_double (x + y).
Definition fsub (x y : Q) : Q := round_double (x - y).
Definition fmul (x y : Q) : Q := round_double (x * y).
Definition fdiv (x y : Q) : Q := round_double (x / y).

(** The conversion of an [int] operand of a float operation, and [a / b] on
    two [int]s, which CPython rounds once from the exact quotient. *)
Definition float_of_int (z : Z) : Q := round_double (inject_Z z).
Definition int_true_div (a b : Z) : Q := round_double (inject_Z a / inject_Z b).

(** A decimal literal of the source, such as [0.01]. *)
Definition literal (x : Q) : Q := round_double x.

End Float64.

(** ** stream_sorter.py *)

Module StreamSorter.

(** An unchecked [Clip_Obj].  [raw_time] is [None] when the key ['time'] is
    missing or does not hold a [datetime], and [raw_people_detected] when
    the key ['people_detected'] is missing or does not hold a list: the two
    cases that [_is_valid_clip] rejects alike.  [raw_cam] is [None] when the
    key ['cam'] is missing, the one thing the code checks of it; its value
    is the camera name, a string.  [raw_video_duration] is [None] when the
    key is missing. *)
Record RawClip := mkRawClip {
  raw_time : option Z;
  raw_cam : option string;
  raw_people_detected : option (list (list Detection));
  raw_video_duration : option Q;
}.

(** The three keys are present, ['time'] holds a [datetime] and
    ['people_detected'] a list. *)
Definition _is_valid_clip (clip : RawClip) : bool :=
  match raw_time clip, raw_cam clip, raw_people_detected clip with
  | Some _, Some _, Some _ => true
  | _, _, _ => false
  end.

Definition checked (clip : RawClip) : option Clip :=
  match raw_time clip, raw_cam clip, raw_people_detected clip with
  | Some t, Some c, Some p => Some (mkClip t c p (raw_video_duration clip))
  | _, _, _ => None
  end.

(** [sorted(valid_clips, key=lambda x: x['time'])]: a stable sort, so an
    element goes in front of the elements of equal key that followed it. *)
Fixpoint insert_by_time (c : Clip) (l : list Clip) : list Clip :=
  match l with
  | [] => [c]
  | x :: xs => if time c <=? time x then c :: x :: xs
               else x :: insert_by_time c xs
  end.

Definition sorted_by_time (l : list Clip) : list Clip :=
  foldr insert_by_time [] l.

Definition sort_and_validate (clip_objs : list RawClip) : list Clip :=
  match clip_objs with
  | [] => []
  | _ =>
    let valid_clips := omap checked (filter (λ c, _is_valid_clip c = true) clip_objs) in
    sorted_by_time valid_clips
  end.

End StreamSorter.

(** ** session_manager.py *)

Module SessionManager.

(** [process_clip]: returns the completed events and the new buffer. *)
Definition process_clip (time_threshold : Z) (current_buffer : list Clip) (clip : Clip)
  : list (list Clip) * list Clip :=
  match last current_buffer with
  | None => ([], current_buffer ++ [clip])
  | Some last_clip =>
    if FusionPolicy.is_connected time_threshold last_clip clip
    then ([], current_buffer ++ [clip])
    else ([current_buffer], [clip])
  end.

Definition finalize (current_buffer : list Clip) : list (list Clip) :=
  match current_buffer with
  | [] => []
  | _ => [current_buffer]
  end.

End SessionManager.

(** ** event_aggregator.py *)

Module EventAggregator.

Record Keyframe := mkKeyframe {
  kf_bbox : option BBox;
  kf_confidence : Q;
  kf_method : string;
  kf_frame_idx : nat;
  kf_clip_time : Z;
  kf_cam : string;
}.

(** [area = (x2 - x1) * (y2 - y1)], on [int]s. *)
Definition bbox_area (b : BBox) : Z :=
  let '(x1, y1, x2, y2) := b in (x2 - x1) * (y2 - y1).

Definition _calculate_detection_score (person : Detection) : Q :=
  let score := 0%Q in
  let method := method_or_unknown person in
  let score := if String.eqb method "face" then Float64.fadd score 100
               else if String.eqb method "body" then Float64.fadd score 50
               else score in
  let confidence := default 0%Q (confidence person) in
  let score := Float64.fadd score (Float64.fmul confidence 10) in
  match bbox person with
  | Some b =>
    let area := bbox_area b in
    Float64.fadd score (Float64.fmul (Float64.float_of_int area)
                                     (Float64.literal (1 # 100)))
  | None => score
  end.

(** Loop state of [_select_keyframes] for one person:
    (best_detection, best_score). *)
Definition BestState : Type := option Keyframe * Q.

Definition consider (pid : Z) (clip : Clip) (frame_idx : nat)
    (st : BestState) (person : Detection) : BestState :=
  if bool_decide (person_id person = Some pid) then
    let score := _calculate_detection_score person in
    if Qltb (snd st) score then
      (Some {| kf_bbox := bbox person;
               kf_confidence := default 0%Q (confidence person);
               kf_method := method_or_unknown person;
               kf_frame_idx := frame_idx;
               kf_clip_time := time clip;
               kf_cam := cam clip |}, score)
    else st
  else st.

Definition scan_clip (pid : Z) (st : BestState) (clip : Clip) : BestState :=
  fold_left (λ st '(frame_idx, frame_people),
               fold_left (consider pid clip frame_idx) frame_people st)
            (imap pair (people_detected clip)) st.

Definition select_keyframe (clips : list Clip) (pid : Z) : option Keyframe :=
  fst (fold_left (scan_clip pid) clips (None, (-1)%Q)).

Definition _select_keyframes (clips : list Clip) (people_ids : gset Z)
  : gmap Z Keyframe :=
  map_imap (λ pid _, select_keyframe clips pid) (gset_to_gmap () people_ids).

(** The person ids collected by [_extract_people_info]. *)
Definition people_ids_of (clips : list Clip) : gset Z :=
  fold_left (λ ids clip,
    fold_left (λ ids frame_people,
      fold_left (λ ids person,
        match person_id person with
        | Some z => if truthy_id (Some z) then {[z]} ∪ ids else ids
        | None => ids
        end) frame_people ids)
      (people_detected clip) ids)
    clips ∅.

End EventAggregator.

(** ** identity_refiner.py *)

Module IdentityRefiner.

(** One entry of [person_stats].  The key is the person id, or [None] for
    the shared ['stranger_unknown'] entry of detections without an id. *)
Record Stats := mkStats {
  appearances : Z;
  roles : gset string;
}.

Definition count_person (person_stats : gmap (option Z) Stats) (person : Detection)
  : gmap (option Z) Stats :=
  let key := person_id person in
  let stats := default {| appearances := 0; roles := ∅ |} (person_stats !! key) in
  <[key := {| appearances := appearances stats + 1;
              roles := {[role_or_stranger person]} ∪ roles stats |}]> person_stats.

Definition _analyze_person_appearances (clips : list Clip) : gmap (option Z) Stats :=
  fold_left (λ acc clip,
    fold_left (λ acc frame_people, fold_left count_person frame_people acc)
              (people_detected clip) acc)
    clips ∅.

(** In-place assignments [person['role'] = r; person['method'] = m]. *)
Definition set_identity (r m : string) (person : Detection) : Detection :=
  {| person_id := person_id person;
     role := Some r;
     method := Some m;
     confidence := confidence person;
     bbox := bbox person;
     body_embedding := body_embedding person |}.

(** Rule 2's [has_family]: some identified person of the event was seen as
    family or suspected family. *)
Definition event_has_family (person_stats : gmap (option Z) Stats) : bool :=
  bool_decide (∃ key stats, person_stats !! key = Some stats ∧ key ≠ None ∧
                 ("family" ∈ roles stats ∨ "suspected_family" ∈ roles stats)).

Definition stranger_total_count (person_stats : gmap (option Z) Stats) : Z :=
  match person_stats !! None with
  | Some stats => appearances stats
  | None => 0
  end.

(** The body of the inner loop of [_refine_clip_identities] for the person
    at position [i] of [frame_people].  The person dict is mutated in place,
    so each assignment is written back into the frame list before the next
    rule reads it. *)
Definition refine_at (person_stats : gmap (option Z) Stats)
    (frame_people : list Detection) (i : nat) : list Detection :=
  match frame_people !! i with
  | None => frame_people
  | Some person =>
    let pid := person_id person in
    let role := role_or_stranger person in
    (* rule 1 *)
    let '(frame_people, role) :=
      if String.eqb role "suspected_family" && truthy_id pid then
        match person_stats !! pid with
        | Some stats =>
          if 3 <=? appearances stats
          then (alter (set_identity "family" "refined_from_suspected") i frame_people,
                "family")
          else (frame_people, role)
        | None => (frame_people, role)
        end
      else (frame_people, role) in
    (* rule 2 *)
    let '(frame_people, role) :=
      if String.eqb role "stranger" && bool_decide (pid = None) then
        if event_has_family person_stats && (3 <=? stranger_total_count person_stats)
        then (alter (set_identity "suspected_family" "refined_from_stranger") i frame_people,
              "suspected_family")
        else (frame_people, role)
      else (frame_people, role) in
    (* rule 3 *)
    if String.eqb role "suspected_family" || String.eqb role "stranger" then
      let has_family_in_clip :=
        existsb (λ p, bool_decide (Detection_role p = Some "family")) frame_people in
      if has_family_in_clip && truthy_id pid
      then alter (set_identity "family" "refined_from_context") i frame_people
      else frame_people
    else frame_people
  end.

Definition refine_frame (person_stats : gmap (option Z) Stats)
    (frame_people : list Detection) : list Detection :=
  fold_left (refine_at person_stats) (seq 0 (length frame_people)) frame_people.

Definition _refine_clip_identities (clip : Clip) (person_stats : gmap (option Z) Stats)
  : Clip :=
  {| time := time clip;
     cam := cam clip;
     people_detected := map (refine_frame person_stats) (people_detected clip);
     video_duration := video_duration clip |}.

End IdentityRefiner.

(** ** The [Global_Event] object, [EventAggregator.pack] and
       [IdentityRefiner.refine_event_identities] *)

Record GlobalEvent := mkGlobalEvent {
  start_time : Z;
  end_time : Z;
  duration : Q;
  cameras : gset string;
  people : gset Z;
  clips : list Clip;
  keyframes : gmap Z EventAggregator.Keyframe;
  clip_count : nat;
}.

Module Packing.

(** [max(video_durations)]: the first of the largest elements. *)
Definition max_duration (first : Q) (others : list Q) : Q :=
  fold_left (λ m d, if Qltb m d then d else m) others first.

(** The durations kept by [if 'video_duration' in clip and clip['video_duration']]. *)
Definition video_durations (clips : list Clip) : list Q :=
  omap (λ clip, match video_duration clip with
                | Some d => if Qeq_bool d 0 then None else Some d
                | None => None
                end) clips.

Definition pack (clips : list Clip) : option GlobalEvent :=
  match clips, last clips with
  | first_clip :: _, Some last_clip =>
    let start_time := time first_clip in
    let end_time := time last_clip in
    let duration := match video_durations clips with
                    | d :: ds => max_duration d ds
                    | [] => inject_Z (end_time - start_time)
                    end in
    let people_ids := EventAggregator.people_ids_of clips in
    Some {| start_time := start_time;
            end_time := end_time;
            duration := duration;
            cameras := list_to_set (map cam clips);
            people := people_ids;
            clips := clips;
            keyframes := EventAggregator._select_keyframes clips people_ids;
            clip_count := length clips |}
  | _, _ => None
  end.

Definition refine_event_identities (global_event : GlobalEvent) : GlobalEvent :=
  match clips global_event with
  | [] => global_event
  | _ =>
    let person_stats := IdentityRefiner._analyze_person_appearances (clips global_event) in
    let refined_clips :=
      map (λ clip, IdentityRefiner._refine_clip_identities clip person_stats)
          (clips global_event) in
    {| start_time := start_time global_event;
       end_time := end_time global_event;
       duration := duration global_event;
       cameras := cameras global_event;
       people := EventAggregator.people_ids_of refined_clips;
       clips := refined_clips;
       keyframes := keyframes global_event;
       clip_count := clip_count global_event |}
  end.

End Packing.

(** ** event_fusion_pipeline.py *)

Module Event_Fusion_Pipeline.

(** The grouping loop of [run]: state is (event_clips_list, current_buffer). *)
Definition group_step (time_threshold : Z)
    (st : list (list Clip) * list Clip) (clip : Clip) : list (list Clip) * list Clip :=
  let '(event_clips_list, current_buffer) := st in
  let '(completed_events, current_buffer) :=
    SessionManager.process_clip time_threshold current_buffer clip in
  (event_clips_list ++ completed_events, current_buffer).

Definition group_clips (time_threshold : Z) (sorted_clips : list Clip) : list (list Clip) :=
  let '(event_clips_list, current_buffer) :=
    fold_left (group_step time_threshold) sorted_clips ([], []) in
  event_clips_list ++ SessionManager.finalize current_buffer.

Definition run (time_threshold : Z) (raw_clips : list StreamSorter.RawClip)
  : list GlobalEvent :=
  let sorted_clips := StreamSorter.sort_and_validate raw_clips in
  let event_clips_list := group_clips time_threshold sorted_clips in
  omap (λ event_clips, Packing.refine_event_identities <$> Packing.pack event_clips)
       event_clips_list.

End Event_Fusion_Pipeline.

(** ** quality_selector.py *)

Module QualitySelector.

Section Scoring.

(** [x ** y] on floats: the [pow] of the C library, whose last bit the
    platform decides.  Its arguments are doubles in lowest terms. *)
Variable float_pow : Q → Q → Q.

(** The bbox centre's distance from the assumed frame centre (320, 240). *)
Definition distance_from_center (b : BBox) : Q :=
  let '(x1, y1, x2, y2) := b in
  let center_x := Float64.int_true_div (x1 + x2) 2 in
  let center_y := Float64.int_true_div (y1 + y2) 2 in
  float_pow (Float64.fadd (float_pow (Float64.fsub center_x 320) 2)
                          (float_pow (Float64.fsub center_y 240) 2))
            (1 # 2).

Definition _calculate_score (detection : Detection) : Q :=
  let score := 0%Q in
  let method := method_or_unknown detection in
  let score := if String.eqb method "face" then Float64.fadd score 10000
               else if String.eqb method "body" then Float64.fadd score 5000
               else if String.eqb method "new" then Float64.fadd score 0
               else score in
  let confidence := default 0%Q (confidence detection) in
  let score := Float64.fadd score (Float64.fmul confidence 100) in
  let score := match bbox detection with
               | Some b =>
                 let area := EventAggregator.bbox_area b in
                 Float64.fadd score (Float64.fmul (Float64.float_of_int area) 1)
               | None => score
               end in
  match bbox detection with
  | Some b => Float64.fsub score (Float64.fmul (distance_from_center b) (1 # 2))
  | None => score
  end.

(** [scored_detections.sort(key=lambda x: x[0], reverse=True)]: stable, so
    among equal scores the original order is kept. *)
Fixpoint insert_desc (x : Q * nat * Detection) (l : list (Q * nat * Detection))
  : list (Q * nat * Detection) :=
  match l with
  | [] => [x]
  | y :: ys => if Qltb (fst (fst x)) (fst (fst y)) then y :: insert_desc x ys
               else x :: y :: ys
  end.

Definition sort_desc (l : list (Q * nat * Detection)) : list (Q * nat * Detection) :=
  foldr insert_desc [] l.

Definition select_best (detection_list : list Detection) : option Detection :=
  match detection_list with
  | [] => None
  | [d] => Some d
  | _ =>
    let scored_detections :=
      imap (λ idx det, (_calculate_score det, idx, det)) detection_list in
    match sort_desc scored_detections with
    | (best_score, best_idx, best_det) :: _ => Some best_det
    | [] => None
    end
  end.

End Scoring.

End QualitySelector.

(** ** Vocabulary of the statements *)

Module Vocabulary.

(** A clip shows a role, or an id, when one of its detections carries it. *)
Definition shows_role (r : string) (c : Clip) : Prop :=
  ∃ d, d ∈ clip_detections c ∧ role_or_stranger d = r.

Definition shows_id (z : Z) (c : Clip) : Prop :=
  ∃ d, d ∈ clip_detections c ∧ person_id d = Some z.

Definition is_role (r : string) (d : Detection) : bool := String.eqb (role_or_stranger d) r.

Definition nonzero_ids (l : list Detection) : gset Z :=
  list_to_set (filter (λ z, z ≠ 0) (omap person_id l)).

Definition time_le (a b : Clip) : Prop := time a ≤ time b.

(** The detections of an event in the order the loops visit them: clip
    after clip, frame after frame, position after position; each with its
    clip and the index of its frame in the clip. *)
Definition clip_entries (clip : Clip) : list (Clip * nat * Detection) :=
  concat (imap (λ frame_idx frame_people,
                  map (λ person, (clip, frame_idx, person)) frame_people)
               (people_detected clip)).

Definition event_entries (clips : list Clip) : list (Clip * nat * Detection) :=
  concat (map clip_entries clips).

Definition keyframe_of (e : Clip * nat * Detection) : EventAggregator.Keyframe :=
  let '(clip, frame_idx, person) := e in
  {| EventAggregator.kf_bbox := bbox person;
     EventAggregator.kf_confidence := default 0%Q (confidence person);
     EventAggregator.kf_method := method_or_unknown person;
     EventAggregator.kf_frame_idx := frame_idx;
     EventAggregator.kf_clip_time := time clip;
     EventAggregator.kf_cam := cam clip |}.

(** One turn of a loop that keeps the best candidate seen so far:
    [if score > best_score: best_score = score; best = ...], restricted to
    the candidates that [sel] lets through. *)
Definition scan_step {E R : Type} (sel : E → bool) (sc : E → Q) (mk : E → R)
    (st : option R * Q) (e : E) : option R * Q :=
  if sel e then if Qltb (snd st) (sc e) then (Some (mk e), sc e) else st else st.

End Vocabulary.

(** ** Vocabulary of the selection statements *)

Module Selection.

(** [e], at position [j] of [es], is the first of the selected candidates
    of largest score. *)
Definition first_best {E : Type} (sc : E → Q) (sel : E → bool)
    (es : list E) (j : nat) (e : E) : Prop :=
  es !! j = Some e ∧ sel e = true ∧
  (∀ j' e', es !! j' = Some e' → sel e' = true → (sc e' <= sc e)%Q) ∧
  (∀ j' e', (j' < j)%nat → es !! j' = Some e' → sel e' = true → (sc e' < sc e)%Q).

(** The entries of person [pid]: [person.get('person_id') == person_id]. *)
Definition of_person (pid : Z) (e : Clip * nat * Detection) : bool :=
  bool_decide (person_id (snd e) = Some pid).

Definition entry_score (e : Clip * nat * Detection) : Q :=
  EventAggregator._calculate_detection_score (snd e).

Definition any_detection (d : Detection) : bool := true.

(** The sort key of a scored detection [(score, idx, det)]. *)
Definition key (x : Q * nat * Detection) : Q := fst (fst x).

End Selection.

(** ** Vocabulary of the refiner statements *)

Module Refinement.

(** Rule 1 fires for [d]: a suspected family member whose person id is
    counted at least 3 times in the event. *)
Definition rule1_fires (person_stats : gmap (option Z) IdentityRefiner.Stats)
    (d : Detection) : bool :=
  String.eqb (role_or_stranger d) "suspected_family" && truthy_id (person_id d) &&
  match person_stats !! person_id d with
  | Some stats => 3 <=? IdentityRefiner.appearances stats
  | None => false
  end.

Definition borderline (d : Detection) : Prop :=
  role_or_stranger d = "suspected_family" ∨ role_or_stranger d = "stranger".

Definition is_family (d : Detection) : Prop := Detection_role d = Some "family".

Definition has_family_in (frame_people : list Detection) : bool :=
  existsb (λ p, bool_decide (Detection_role p = Some "family")) frame_people.

(** What the three rules assign to the detection [d] of [frame_people]:
    the new role and method, or [None] when [d] is left as it is. *)
Definition outcome (person_stats : gmap (option Z) IdentityRefiner.Stats)
    (frame_people : list Detection) (d : Detection) : option (string * string) :=
  if rule1_fires person_stats d then Some ("family", "refined_from_suspected")
  else if String.eqb (role_or_stranger d) "stranger" && bool_decide (person_id d = None)
          && IdentityRefiner.event_has_family person_stats
          && (3 <=? IdentityRefiner.stranger_total_count person_stats)
  then Some ("suspected_family", "refined_from_stranger")
  else if (String.eqb (role_or_stranger d) "suspected_family"
           || String.eqb (role_or_stranger d) "stranger")
          && has_family_in frame_people && truthy_id (person_id d)
  then Some ("family", "refined_from_context")
  else None.

Definition apply_outcome (person_stats : gmap (option Z) IdentityRefiner.Stats)
    (frame_people : list Detection) (d : Detection) : Detection :=
  match outcome person_stats frame_people d with
  | Some (r, m) => IdentityRefiner.set_identity r m d
  | None => d
  end.

(** The frame list when the loop reaches position [i]: the positions
    before [i] have been rewritten. *)
Definition frame_before (person_stats : gmap (option Z) IdentityRefiner.Stats)
    (frame_people : list Detection) (i : nat) : list Detection :=
  fold_left (IdentityRefiner.refine_at person_stats) (seq 0 i) frame_people.

End Refinement.

(** ** vector_adapter.py *)

Module VectorAdapter.

Definition BODY_DIM : nat := 2048.

(** [to_pgvector(vector, expected_dim)]: [None] stands for the [ValueError]
    raised on a dimension mismatch. *)
Definition to_pgvector (vector : Vec) (expected_dim : option nat) : option Vec :=
  match expected_dim with
  | Some dim => if bool_decide (length vector = dim) then Some vector else None
  | None => Some vector
  end.

Definition to_pgvector_body (vector : Vec) : option Vec :=
  to_pgvector vector (Some BODY_DIM).

End VectorAdapter.

(** ** persistence_pipeline.py *)

Module Persistence_Pipeline.

(** One row handed to [batch_insert_appearances]. *)
Record Appearance := mkAppearance {
  app_event_id : string;
  app_person_id : Z;
  match_method : string;
  body_embedding_pgvector : Vec;
}.

(** The [if match_method == ... elif ...] chain of [save_event]. *)
Definition standard_match_method (match_method : string) : string :=
  if String.eqb match_method "face" then "face"
  else if String.eqb match_method "body" then "body_reid"
  else if String.eqb match_method "new" then "new"
  else if bool_decide (match_method ∈ ["refined_from_suspected";
                                       "refined_from_stranger";
                                       "refined_from_context"])
  then "body_reid_refined"
  else "unknown".

Section StepD.
Variable float_pow : Q → Q → Q.

(** One turn of the loop of step D of [save_event]; [None] is a [continue].
    The [UPDATE persons] of the behaviour-inferred role, issued in the same
    turn, writes no appearance field and is left out. *)
Definition appearance_of (event_id : string) (person_id : Z)
    (detection_list : list Detection) : option Appearance :=
  match QualitySelector.select_best float_pow detection_list with
  | None => None
  | Some best_detection =>
    match body_embedding best_detection with
    | None => None
    | Some body_embedding =>
      match VectorAdapter.to_pgvector_body body_embedding with
      | None => None
      | Some body_embedding_pgvector =>
        let match_method := method_or_unknown best_detection in
        let match_method := standard_match_method match_method in
        Some {| app_event_id := event_id;
                app_person_id := person_id;
                match_method := match_method;
                body_embedding_pgvector := body_embedding_pgvector |}
      end
    end
  end.

(** The rows inserted for an event, from the detections grouped by person
    (strangers already replaced by their new person ids). *)
Definition appearances (event_id : string)
    (grouped_detections : list (Z * list Detection)) : list Appearance :=
  omap (λ '(person_id, detection_list), appearance_of event_id person_id detection_list)
       grouped_detections.

End StepD.

End Persistence_Pipeline.

(** ** frame_sampler.py *)

Module FrameSampler.

(** What [cv2.VideoCapture] gives for a video file. *)
Record Video (Frame : Type) := mkVideo {
  isOpened : bool;
  CAP_PROP_FPS : Q;
  CAP_PROP_FRAME_COUNT : Q;
  reads : list Frame;  (* the frames that [cap.read()] yields, in order *)
}.
Arguments isOpened {Frame}.
Arguments CAP_PROP_FPS {Frame}.
Arguments CAP_PROP_FRAME_COUNT {Frame}.
Arguments reads {Frame}.

(** [int(x)] on a float: truncation towards zero. *)
Definition int_of_float (x : Q) : Z := Z.quot (Qnum x) (Zpos (Qden x)).

Definition skip_step (video_fps fps : Q) : Z :=
  if Qltb 0 video_fps && Qltb 0 fps then int_of_float (Float64.fdiv video_fps fps)
  else 30.

(** The [while True] loop: [frame_count] counts the frames read so far. *)
Fixpoint sample_loop {Frame : Type} (skip_step frame_count : Z) (reads : list Frame)
  : Outcome (list Frame) :=
  match reads with
  | [] => Returned []
  | frame :: rest =>
    if skip_step =? 0 then Raised "ZeroDivisionError"
    else
      match sample_loop skip_step (frame_count + 1) rest with
      | Returned frames =>
        Returned (if frame_count mod skip_step =? 0 then frame :: frames else frames)
      | Raised e => Raised e
      end
  end.

Definition get_frames {Frame : Type} (video : Video Frame) (fps : Q)
  : Outcome (list Frame * Q) :=
  if negb (isOpened video) then Returned ([], 0%Q)
  else
    let video_fps := CAP_PROP_FPS video in
    let total_frames := int_of_float (CAP_PROP_FRAME_COUNT video) in
    let video_duration :=
      if Qltb 0 video_fps
      then Float64.fdiv (Float64.float_of_int total_frames) video_fps
      else 0%Q in
    let skip_step := skip_step video_fps fps in
    match sample_loop skip_step 0 (reads video) with
    | Returned frames => Returned (frames, video_duration)
    | Raised e => Raised e
    end.



End FrameSampler.

(** ** Phase 6: query_parser.py, retrieval_engine.py, evidence_materializer.py,
       rag_synthesis_engine.py, user_retrieval_pipeline.py *)

Module Retrieval.

(** The query object built by [QueryParser.parse]. *)
Record QueryObj := mkQueryObj {
  q_person_id : option Z;
  q_person_name : option string;
  q_date : option string;
  q_date_range : option (string * string);
  q_keyword : option string;
  q_intent : string;
  q_query_type : string;
}.

Record AppearanceRecord := mkAppearanceRecord {
  appearance_id : Z;
  ar_person_id : option Z;
  ar_match_method : option string;
  person_name : option string;
  snapshot_url : option string;
}.

(** A retrieved record: a daily summary or an event with its appearances. *)
Record Evidence := mkEvidence {
  ev_type : string;            (* 'summary' or 'detail' *)
  ev_text : string;            (* summary_text or llm_description *)
  ev_when : string;            (* summary_date or start_time *)
  appearances : list AppearanceRecord;
}.

(** The dict returned by the synthesis engine. *)
Record AnswerResult := mkAnswerResult {
  answer_text : string;
  evidence_count : nat;
  has_images : bool;
  images : list string;
}.

(** The dict returned by [User_Retrieval_Pipeline.answer]. *)
Record Answer := mkAnswer {
  result : AnswerResult;
  query_obj : QueryObj;
  retrieved_records : list Evidence;
}.

(** A computation that may call the LLM gateway: its value and the list of
    (system prompt, user prompt) pairs it submitted, in order. *)
Definition Traced (A : Type) : Type := A * list (string * string).

Definition ret {A : Type} (a : A) : Traced A := (a, []).

Definition bind {A B : Type} (m : Traced A) (k : A → Traced B) : Traced B :=
  let '(a, calls) := m in
  let '(b, calls') := k a in
  (b, calls ++ calls').

Definition llm_calls {A : Type} (m : Traced A) : list (string * string) := snd m.

Section Pipeline.

(** The collaborators: the regex parser with its person lookups, the two
    SQL queries (each returns [] when the store raises), the snapshot
    extractor, the prompt builders, and the LLM gateway ([None]: it raised
    after its retries). *)
Variable parse : string → QueryObj.
Variable _retrieve_summary : QueryObj → list Evidence.
Variable _retrieve_detail : QueryObj → list Evidence.
Variable materialize : list Evidence → list Evidence.
Variable _build_system_prompt : QueryObj → string.
Variable _build_user_prompt : string → list Evidence → QueryObj → string.
Variable generate : string → string → option string.
Variable strip : string → string.
Variable fallback_text : list Evidence → string.

Definition llm_generate (system_prompt user_prompt : string) : Traced (option string) :=
  (generate system_prompt user_prompt, [(system_prompt, user_prompt)]).

Definition retrieve (query_obj : QueryObj) : list Evidence :=
  if String.eqb (q_query_type query_obj) "summary"
  then _retrieve_summary query_obj
  else _retrieve_detail query_obj.

Definition no_result_message : string :=
  "抱歉，我没有找到与您的问题相关的记录。请尝试调整查询条件，比如：
- 检查日期是否正确
- 确认人物名称
- 使用不同的关键词".

Definition _generate_no_result_answer (user_query : string) : AnswerResult :=
  {| answer_text := no_result_message;
     evidence_count := 0;
     has_images := false;
     images := [] |}.

Definition _generate_fallback_answer (user_query : string)
    (retrieved_evidence : list Evidence) : AnswerResult :=
  match retrieved_evidence with
  | [] => _generate_no_result_answer user_query
  | _ => {| answer_text := fallback_text retrieved_evidence;
            evidence_count := length retrieved_evidence;
            has_images := false;
            images := [] |}
  end.

(** [if appearance.get('snapshot_url'):] lets a url through when the key
    holds a string that is not empty. *)
Definition truthy_snapshot_url (appearance : AppearanceRecord) : option string :=
  match snapshot_url appearance with
  | Some url => if String.eqb url "" then None else Some url
  | None => None
  end.

Definition collect_images (retrieved_evidence : list Evidence) : list string :=
  concat (map (λ evidence,
                 if String.eqb (ev_type evidence) "detail"
                 then omap truthy_snapshot_url (appearances evidence)
                 else [])
              retrieved_evidence).

Definition synthesize (user_query : string) (retrieved_evidence : list Evidence)
    (query_obj : QueryObj) : Traced AnswerResult :=
  match retrieved_evidence with
  | [] => ret (_generate_no_result_answer user_query)
  | _ =>
    let system_prompt := _build_system_prompt query_obj in
    let user_prompt := _build_user_prompt user_query retrieved_evidence query_obj in
    bind (llm_generate system_prompt user_prompt) (λ reply,
      match reply with
      | Some answer_text =>
        let images := collect_images retrieved_evidence in
        ret {| answer_text := strip answer_text;
               evidence_count := length retrieved_evidence;
               has_images := negb (bool_decide (images = []));
               images := images |}
      | None => ret (_generate_fallback_answer user_query retrieved_evidence)
      end)
  end.

Definition answer (user_query : string) : Traced Answer :=
  let query_obj := parse user_query in
  let retrieved_records := retrieve query_obj in
  match retrieved_records with
  | [] =>
    let answer_result := _generate_no_result_answer user_query in
    ret {| result := answer_result; query_obj := query_obj; retrieved_records := [] |}
  | _ =>
    let materialized_records := materialize retrieved_records in
    bind (synthesize user_query materialized_records query_obj) (λ answer_result,
      ret {| result := answer_result; query_obj := query_obj;
             retrieved_records := materialized_records |})
  end.

End Pipeline.

End Retrieval.

(** ** Phase 5: query_engine.py, archive_persister.py, daily_summary_pipeline.py *)

Module DailySummaries.

(** A calendar date is a day number; a timestamp is in seconds, so
    [DATE(start_time)] is the quotient by the length of a day. *)
Definition DATE (timestamp : Z) : Z := timestamp `div` 86400.

(** A row of [event_logs]. *)
Record EventLog := mkEventLog {
  el_id : string;
  el_start_time : Z;
  camera_location : string;
  llm_description : string;
}.

(** A row of [daily_summaries]. *)
Record DailySummary := mkDailySummary {
  ds_id : Z;
  summary_date : Z;
  summary_text : string;
  total_events : Z;
  created_at : Z;
  updated_at : Z;
}.

(** The two tables and the serial sequence behind [daily_summaries.id]. *)
Record Store := mkStore {
  event_logs : list EventLog;
  daily_summaries : list DailySummary;
  next_summary_id : Z;
}.

Definition on_date (target_date : Z) (event : EventLog) : Prop :=
  DATE (el_start_time event) = target_date.

#[global] Instance on_date_dec (target_date : Z) (event : EventLog) :
  Decision (on_date target_date event) :=
  decide (DATE (el_start_time event) = target_date).

Definition earlier (a b : EventLog) : Prop := el_start_time a ≤ el_start_time b.

#[global] Instance earlier_dec (a b : EventLog) : Decision (earlier a b) :=
  decide (el_start_time a ≤ el_start_time b).

(** [SELECT ... FROM event_logs WHERE DATE(start_time) = %s ORDER BY start_time ASC]. *)
Definition fetch_events (target_date : Z) (store : Store) : list EventLog :=
  merge_sort earlier (filter (on_date target_date) (event_logs store)).

Definition for_date (target_date : Z) (row : DailySummary) : Prop :=
  summary_date row = target_date.

#[global] Instance for_date_dec (target_date : Z) (row : DailySummary) :
  Decision (for_date target_date row) :=
  decide (summary_date row = target_date).

(** [SELECT ... FROM daily_summaries WHERE summary_date = %s] and [fetchone()]. *)
Definition get_summary (target_date : Z) (store : Store) : option DailySummary :=
  head (filter (for_date target_date) (daily_summaries store)).

Definition overwrite (text : string) (total : Z) (now : Z) (row : DailySummary)
  : DailySummary :=
  {| ds_id := ds_id row;
     summary_date := summary_date row;
     summary_text := text;
     total_events := total;
     created_at := created_at row;
     updated_at := now |}.

(** [INSERT ... ON CONFLICT (summary_date) DO UPDATE SET ... RETURNING id],
    at the time [now] of [CURRENT_TIMESTAMP].  The sequence advances even
    when the insert turns into an update. *)
Definition save (target_date : Z) (text : string) (total : Z) (now : Z) (store : Store)
  : Z * Store :=
  match get_summary target_date store with
  | Some existing =>
    (ds_id existing,
     {| event_logs := event_logs store;
        daily_summaries :=
          map (λ row, if decide (for_date target_date row)
                      then overwrite text total now row else row)
              (daily_summaries store);
        next_summary_id := next_summary_id store + 1 |})
  | None =>
    (next_summary_id store,
     {| event_logs := event_logs store;
        daily_summaries :=
          daily_summaries store ++
          [{| ds_id := next_summary_id store;
              summary_date := target_date;
              summary_text := text;
              total_events := total;
              created_at := now;
              updated_at := now |}];
        next_summary_id := next_summary_id store + 1 |})
  end.



Section Pipeline.

(** [NarrativeAggregator.format_timeline] and [InsightEngine.analyze]; the
    latter calls the LLM and falls back to a fixed text when the call
    raises, so it always returns a text. *)
Variable format_timeline : list EventLog → string.
Variable analyze : string → Z → string.

Definition run_for_date (target_date : Z) (force_update : bool) (now : Z) (store : Store)
  : option Z * Store :=
  match (if force_update then None else get_summary target_date store) with
  | Some existing_summary => (Some (ds_id existing_summary), store)
  | None =>
    let events := fetch_events target_date store in
    match events with
    | [] => (None, store)
    | _ =>
      let timeline_text := format_timeline events in
      let summary_text := analyze timeline_text target_date in
      let '(record_id, store) :=
        save target_date summary_text (Z.of_nat (length events)) now store in
      (Some record_id, store)
    end
  end.


End Pipeline.

(** The number of events of a date currently in the store. *)
Definition event_count (target_date : Z) (store : Store) : Z :=
  Z.of_nat (length (filter (on_date target_date) (event_logs store))).


End DailySummaries.

(** ** identity_arbiter.py *)

Module IdentityArbiter.

(** A row of [persons]. *)
Record Person := mkPerson {
  p_id : Z;
  p_name : string;
  p_role : string;
  current_body_embedding : option Vec;
  body_update_time : option Z;
  first_seen : option Z;
  last_seen : option Z;
  notes : option string;
}.

(** A row of [person_faces]. *)
Record PersonFace := mkPersonFace {
  pf_id : Z;
  pf_person_id : Z;
  embedding : Vec;
  source_image : string;
}.

Record Database := mkDatabase {
  persons : list Person;
  person_faces : list PersonFace;
}.

(** The dict returned by [identify]. *)
Record Identity := mkIdentity {
  id_person_id : option Z;
  id_role : string;
  id_method : string;
  id_confidence : Q;
  id_body_embedding : option Vec;
}.

Record Arbiter := mkArbiter {
  face_threshold : Q;
  body_threshold : Q;
  soft_match_threshold : Q;
}.

Definition default_arbiter : Arbiter :=
  {| face_threshold := Float64.literal (65 # 100);
     body_threshold := Float64.literal (60 # 100);
     soft_match_threshold := Float64.literal (55 # 100) |}.

(** Where the database layer raises during one matching path, if at all. *)
Inductive Fault := NoFault | ConnectFails | QueryFails | UpdateFails | CommitFails.

#[global] Instance Fault_eq_dec : EqDecision Fault.
Proof. solve_decision. Defined.

(** What the store does during the three paths of one call. *)
Record Faults := mkFaults {
  face_fault : Fault;
  body_fault : Fault;
  soft_fault : Fault;
}.

Definition raises_at (point fault : Fault) : Outcome () :=
  if decide (fault = point) then Raised "psycopg2.Error" else Returned ().

(** A row of a result set: (id, name, role, similarity). *)
Definition Row : Type := Z * string * string * Q.
Definition similarity (row : Row) : Q := snd row.

(** [ORDER BY embedding <=> v LIMIT 1] then [fetchone()]: the row of
    largest similarity, the first one among equals. *)
Definition closest (rows : list Row) : option Row :=
  fold_left (λ best row,
               match best with
               | None => Some row
               | Some b => if Qltb (similarity b) (similarity row) then Some row else Some b
               end) rows None.

(** [UPDATE persons SET current_body_embedding, body_update_time, last_seen
    WHERE id = person_id]. *)
Definition refresh (person_id : Z) (body_vec : Vec) (timestamp : Z) (p : Person) : Person :=
  if decide (p_id p = person_id)
  then {| p_id := p_id p;
          p_name := p_name p;
          p_role := p_role p;
          current_body_embedding := Some body_vec;
          body_update_time := Some timestamp;
          first_seen := first_seen p;
          last_seen := Some timestamp;
          notes := notes p |}
  else p.

Definition _update_body_cache (fault : Fault) (person_id : Z) (body_vec : Vec)
    (timestamp : Z) (rows : list Person) : Outcome (list Person) :=
  _ ← raises_at UpdateFails fault;
  mret (map (refresh person_id body_vec timestamp) rows).

Section Matching.

(** pgvector's cosine distance [a <=> b], a double; [1 - (a <=> b)] is the
    double subtraction of PostgreSQL. *)
Variable cosine_distance : Vec → Vec → Q.

Variable self : Arbiter.

(** [person_faces pf JOIN persons p ON pf.person_id = p.id
     WHERE 1 - (pf.embedding <=> v) > threshold]. *)
Definition face_rows (face_vec : Vec) (db : Database) : list Row :=
  filter (λ row, Qltb (face_threshold self) (similarity row) = true)
    (concat (map (λ pf,
       omap (λ p, if decide (pf_person_id pf = p_id p)
                  then Some (p_id p, p_name p, p_role p,
                             Float64.fsub 1 (cosine_distance (embedding pf) face_vec))
                  else None)
            (persons db))
       (person_faces db))).

(** [persons WHERE role = 'owner' AND current_body_embedding IS NOT NULL
     AND body_update_time >= time_limit], each with its similarity. *)
Definition cached_owner_rows (body_vec : Vec) (time_limit : Z) (db : Database) : list Row :=
  omap (λ p,
          match current_body_embedding p, body_update_time p with
          | Some cached, Some updated =>
            if String.eqb (p_role p) "owner" && (time_limit <=? updated)
            then Some (p_id p, p_name p, p_role p,
                       Float64.fsub 1 (cosine_distance cached body_vec))
            else None
          | _, _ => None
          end)
       (persons db).

Definition body_rows (body_vec : Vec) (time_limit : Z) (db : Database) : list Row :=
  filter (λ row, Qltb (body_threshold self) (similarity row) = true)
         (cached_owner_rows body_vec time_limit db).

Definition soft_rows (body_vec : Vec) (time_limit : Z) (db : Database) : list Row :=
  filter (λ row, Qltb (soft_match_threshold self) (similarity row) = true
                 ∧ Qle_bool (similarity row) (body_threshold self) = true)
         (cached_owner_rows body_vec time_limit db).

(** The body of the [try] of [_match_by_face]: the identity found, if any,
    and the database as committed. *)
Definition try_match_by_face (fault : Fault) (face_vec : Vec) (body_vec : option Vec)
    (timestamp : Z) (db : Database) : Outcome (option Identity * Database) :=
  _ ← raises_at ConnectFails fault;
  _ ← raises_at QueryFails fault;
  match closest (face_rows face_vec db) with
  | Some (person_id, name, role, similarity) =>
    db' ← match body_vec with
          | Some body_vec =>
            rows ← _update_body_cache fault person_id body_vec timestamp (persons db);
            _ ← raises_at CommitFails fault;
            mret {| persons := rows; person_faces := person_faces db |}
          | None => mret db
          end;
    mret (Some {| id_person_id := Some person_id;
                  id_role := if String.eqb role "owner" then "family" else role;
                  id_method := "face";
                  id_confidence := similarity;
                  id_body_embedding := body_vec |}, db')
  | None => mret (None, db)
  end.

(** [except Exception: log] then [return None]: what was not committed is
    not in the database. *)
Definition caught (db : Database) (body : Outcome (option Identity * Database))
  : option Identity * Database :=
  match body with
  | Returned r => r
  | Raised _ => (None, db)
  end.

Definition _match_by_face (fault : Fault) (face_vec : Vec) (body_vec : option Vec)
    (timestamp : Z) (db : Database) : option Identity * Database :=
  caught db (try_match_by_face fault face_vec body_vec timestamp db).

Definition try_match_by_body (fault : Fault) (body_vec : Vec) (timestamp : Z)
    (db : Database) : Outcome (option Identity * Database) :=
  _ ← raises_at ConnectFails fault;
  let time_limit := timestamp - 48 * 3600 in
  _ ← raises_at QueryFails fault;
  match closest (body_rows body_vec time_limit db) with
  | Some (person_id, name, role, similarity) =>
    rows ← _update_body_cache fault person_id body_vec timestamp (persons db);
    _ ← raises_at CommitFails fault;
    mret (Some {| id_person_id := Some person_id;
                  id_role := "family";
                  id_method := "body";
                  id_confidence := similarity;
                  id_body_embedding := Some body_vec |},
          {| persons := rows; person_faces := person_faces db |})
  | None => mret (None, db)
  end.

Definition _match_by_body (fault : Fault) (body_vec : Vec) (timestamp : Z)
    (db : Database) : option Identity * Database :=
  caught db (try_match_by_body fault body_vec timestamp db).

Definition try_soft_match_by_body (fault : Fault) (body_vec : Vec) (timestamp : Z)
    (db : Database) : Outcome (option Identity * Database) :=
  _ ← raises_at ConnectFails fault;
  let time_limit := timestamp - 48 * 3600 in
  _ ← raises_at QueryFails fault;
  match closest (soft_rows body_vec time_limit db) with
  | Some (person_id, name, role, similarity) =>
    mret (Some {| id_person_id := Some person_id;
                  id_role := "suspected_family";
                  id_method := "soft_match";
                  id_confidence := similarity;
                  id_body_embedding := Some body_vec |}, db)
  | None => mret (None, db)
  end.

Definition _soft_match_by_body (fault : Fault) (body_vec : Vec) (timestamp : Z)
    (db : Database) : option Identity * Database :=
  caught db (try_soft_match_by_body fault body_vec timestamp db).

Definition stranger_result (body_vec : option Vec) : Identity :=
  {| id_person_id := None;
     id_role := "stranger";
     id_method := "new";
     id_confidence := 0;
     id_body_embedding := body_vec |}.

(** The body-only part of [identify]: [if body_vec is not None: ...]. *)
Definition identify_by_body (faults : Faults) (body_vec : option Vec) (timestamp : Z)
    (db : Database) : Identity * Database :=
  match body_vec with
  | Some body =>
    match _match_by_body (body_fault faults) body timestamp db with
    | (Some result, db) => (result, db)
    | (None, db) =>
      match _soft_match_by_body (soft_fault faults) body timestamp db with
      | (Some soft_result, db) => (soft_result, db)
      | (None, db) => (stranger_result body_vec, db)
      end
    end
  | None => (stranger_result body_vec, db)
  end.

Definition identify (faults : Faults) (face_vec body_vec : option Vec) (timestamp : Z)
    (db : Database) : Identity * Database :=
  match face_vec with
  | Some face =>
    match _match_by_face (face_fault faults) face body_vec timestamp db with
    | (Some result, db) => (result, db)
    | (None, db) => identify_by_body faults body_vec timestamp db
    end
  | None => identify_by_body faults body_vec timestamp db
  end.

End Matching.

End IdentityArbiter.

(** ** Vocabulary of the arbiter statements *)

Module Arbitration.
Import IdentityArbiter.

(** The database after the cache of person [pid] was written. *)
Definition cache_written (pid : Z) (body_vec : Vec) (timestamp : Z) (db : Database)
  : Database :=
  {| persons := map (refresh pid body_vec timestamp) (persons db);
     person_faces := person_faces db |}.

Definition face_identity (row : Row) (body_vec : option Vec) : Identity :=
  let '(pid, name, role, sim) := row in
  {| id_person_id := Some pid;
     id_role := if String.eqb role "owner" then "family" else role;
     id_method := "face";
     id_confidence := sim;
     id_body_embedding := body_vec |}.

Definition body_identity (row : Row) (body_vec : Vec) : Identity :=
  let '(pid, name, role, sim) := row in
  {| id_person_id := Some pid;
     id_role := "family";
     id_method := "body";
     id_confidence := sim;
     id_body_embedding := Some body_vec |}.

Definition soft_identity (row : Row) (body_vec : Vec) : Identity :=
  let '(pid, name, role, sim) := row in
  {| id_person_id := Some pid;
     id_role := "suspected_family";
     id_method := "soft_match";
     id_confidence := sim;
     id_body_embedding := Some body_vec |}.

Definition row_id (row : Row) : Z := fst (fst (fst row)).
Definition row_role (row : Row) : string := snd (fst row).

(** The rows of [persons] under the effect the cache write may have: the
    result names a person, a body vector came with the call, and the method
    is face or body. *)
Definition expected_persons (res : Identity) (body_vec : option Vec) (timestamp : Z)
    (db : Database) : list Person :=
  match id_person_id res, body_vec with
  | Some pid, Some b =>
    if String.eqb (id_method res) "face" || String.eqb (id_method res) "body"
    then map (refresh pid b timestamp) (persons db)
    else persons db
  | _, _ => persons db
  end.

End Arbitration.

(** ** Vocabulary of the grouping statements *)

Module Grouping.

(** [a] is directly followed by [b] in [l]. *)
Definition consecutive {A : Type} (l : list A) (a b : A) : Prop :=
  ∃ i, l !! i = Some a ∧ l !! S i = Some b.

(** Every clip of the group is connected to the one before it. *)
Definition chained (T : Z) (g : list Clip) : Prop :=
  ∀ a b, consecutive g a b → FusionPolicy.is_connected T a b = true.

(** The first clip of [g2] is not connected to the last clip of [g1]. *)
Definition split_between (T : Z) (g1 g2 : list Clip) : Prop :=
  ∀ a b, last g1 = Some a → head g2 = Some b → FusionPolicy.is_connected T a b = false.

(** The invariant of the grouping loop of [run], on its state
    (event_clips_list, current_buffer). *)
Definition grouped (T : Z) (st : list (list Clip) * list Clip) : Prop :=
  (st.2 = [] → st.1 = []) ∧
  Forall (chained T) st.1 ∧ chained T st.2 ∧
  (∀ g1 g2, consecutive st.1 g1 g2 → split_between T g1 g2) ∧
  (∀ g1, last st.1 = Some g1 → split_between T g1 st.2).

(** The clips that pass [_is_valid_clip], in the order of the input. *)
Definition valid_clips (clip_objs : list StreamSorter.RawClip) : list Clip :=
  omap StreamSorter.checked clip_objs.

End Grouping.

(** ** Vocabulary of the event statements *)

Module Events.

(** All detections of an event's clips, in the order the loops visit them. *)
Definition event_detections (clips : list Clip) : list Detection :=
  concat (map clip_detections clips).

(** The detection at position [i] of frame [f] of a clip. *)
Definition detection_at (clip : Clip) (f i : nat) : option Detection :=
  people_detected clip !! f ≫= (λ frame_people, frame_people !! i).

(** A detection as the detector produces them: a confidence that is not
    negative and a box whose corners are in order. *)
Definition plausible (d : Detection) : Prop :=
  (0 <= default 0 (confidence d))%Q ∧
  match bbox d with
  | Some (x1, y1, x2, y2) => x1 ≤ x2 ∧ y1 ≤ y2
  | None => True
  end.

(** The detections counted under one key of [person_stats]. *)
Definition counted_under (key : option Z) (clips : list Clip) : list Detection :=
  filter (λ d, person_id d = key) (event_detections clips).

(** The (role, method) pairs that the refiner assigns. *)
Definition refined_identities : list (string * string) :=
  [("family", "refined_from_suspected");
   ("suspected_family", "refined_from_stranger");
   ("family", "refined_from_context")].

End Events.

(** ** quality_selector.py: [group_by_person] *)

Module GroupByPerson.

(** A key of the [grouped] dict: a person id, or one of the two marker
    strings ['stranger_hash_<digest>'] and ['stranger_unknown_<index>']. *)
Inductive PersonKey :=
| Known (person_id : Z)
| StrangerHash (hash_value : string)
| StrangerUnknown (index : nat).

#[global] Instance PersonKey_eq_dec : EqDecision PersonKey.
Proof. solve_decision. Defined.

(** The dict in insertion order.
    [if key not in grouped: grouped[key] = []] then
    [grouped[key].append(person)]: the entry of the key is extended where it
    stands, and a new key goes to the end. *)
Fixpoint append_to (key : PersonKey) (person : Detection)
    (grouped : list (PersonKey * list Detection)) : list (PersonKey * list Detection) :=
  match grouped with
  | [] => [(key, [person])]
  | (k, l) :: rest =>
    if decide (k = key) then (k, l ++ [person]) :: rest
    else (k, l) :: append_to key person rest
  end.

Section Hashing.

(** [hashlib.md5(str(v.tolist()).encode()).hexdigest()[:8]]. *)
Variable md5_prefix : Vec → string.

(** The body vector is a numpy array, so the [try] does not raise. *)
Definition _generate_stranger_key (person : Detection) (index : nat) : PersonKey :=
  match body_embedding person with
  | Some body_embedding => StrangerHash (md5_prefix (take 20 body_embedding))
  | None => StrangerUnknown index
  end.

(** The body of the innermost loop; the state is (grouped, stranger_index). *)
Definition visit (st : list (PersonKey * list Detection) * nat) (person : Detection)
  : list (PersonKey * list Detection) * nat :=
  let '(grouped, stranger_index) := st in
  let role := role_or_stranger person in
  match person_id person with
  | Some person_id => (append_to (Known person_id) person grouped, stranger_index)
  | None =>
    if String.eqb role "stranger" then
      let stranger_key := _generate_stranger_key person stranger_index in
      (append_to stranger_key person grouped, S stranger_index)
    else (grouped, stranger_index)
  end.

Definition group_by_person (global_event : GlobalEvent)
  : list (PersonKey * list Detection) :=
  fst (fold_left (λ st clip,
         fold_left (λ st frame_people, fold_left visit frame_people st)
                   (people_detected clip) st)
       (clips global_event) ([], 0%nat)).

End Hashing.

(** A detection belongs under a key: it carries the person id, or it is a
    stranger without an id. *)
Definition belongs (key : PersonKey) (d : Detection) : Prop :=
  match key with
  | Known z => person_id d = Some z
  | _ => person_id d = None ∧ role_or_stranger d = "stranger"
  end.

(** The detections that [group_by_person] keeps. *)
Definition groupable (d : Detection) : Prop :=
  is_Some (person_id d) ∨ role_or_stranger d = "stranger".

(** [grouped] groups the detections [seen] so far. *)
Definition grouping_of (seen : list Detection)
    (grouped : list (PersonKey * list Detection)) : Prop :=
  NoDup grouped.*1 ∧
  (∀ k l, (k, l) ∈ grouped →
     l ≠ [] ∧ Forall (belongs k) l ∧ l ⊆ seen ∧
     ∀ z, k = Known z → l = filter (λ d, person_id d = Some z) seen) ∧
  (∀ d, d ∈ seen → groupable d → ∃ k l, (k, l) ∈ grouped ∧ d ∈ l) ∧
  (∀ d z, d ∈ seen → person_id d = Some z → Known z ∈ grouped.*1).

End GroupByPerson.

(** ** persistence_pipeline.py: [_map_role_to_db] *)

Module RoleMapping.

Definition role_mapping : gmap string string :=
  list_to_map [("owner", "owner"); ("family", "owner"); ("visitor", "visitor");
               ("delivery", "visitor"); ("service", "visitor");
               ("stranger", "unknown"); ("unknown", "unknown")].

(** [role_mapping.get(inferred_role, 'unknown')]. *)
Definition _map_role_to_db (inferred_role : string) : string :=
  default "unknown" (role_mapping !! inferred_role).

End RoleMapping.

(** ** Phase 5: [QueryEngine.get_distinct_dates] and
       [Daily_Summary_Pipeline.run_batch] *)

Module DailyBatch.
Import DailySummaries.

(** [SELECT DISTINCT DATE(start_time) AS event_date FROM event_logs
     ORDER BY event_date ASC]. *)
Definition get_distinct_dates (store : Store) : list Z :=
  merge_sort Z.le
    (remove_dups (map (λ event, DATE (el_start_time event)) (event_logs store))).

Section Pipeline.

Variable format_timeline : list EventLog → string.
Variable analyze : string → Z → string.

(** One turn of the loop of [run_batch], for the date at position [idx] of
    the list; [now idx] is the database clock at that turn.  The state is
    (results, store).  [if record_id:] is false for the id 0.  The [try]
    around [run_for_date] catches the errors of the database layer, which
    the store of this model does not raise. *)
Definition batch_step (force_update : bool) (now : nat → Z)
    (st : gmap Z Z * Store) (entry : nat * Z) : gmap Z Z * Store :=
  let '(results, store) := st in
  let '(idx, target_date) := entry in
  let '(record_id, store) :=
    run_for_date format_timeline analyze target_date force_update (now idx) store in
  match record_id with
  | Some record_id =>
    if record_id =? 0 then (results, store)
    else (<[target_date := record_id]> results, store)
  | None => (results, store)
  end.

Definition run_batch (date_list : option (list Z)) (force_update : bool)
    (now : nat → Z) (store : Store) : gmap Z Z * Store :=
  let date_list := match date_list with
                   | Some date_list => date_list
                   | None => get_distinct_dates store
                   end in
  fold_left (batch_step force_update now) (imap pair date_list) (∅, store).

End Pipeline.

(** What a run of the batch keeps, from the state [st0] to the state [st]:
    the events, the dates that have a summary, and for every date of
    [results] the id of its summary. *)
Definition batch_kept (st0 st : gmap Z Z * Store) : Prop :=
  event_logs st.2 = event_logs st0.2 ∧
  (∀ d, is_Some (get_summary d st0.2) → is_Some (get_summary d st.2)) ∧
  ((∀ d id, st0.1 !! d = Some id → ds_id <$> get_summary d st0.2 = Some id) →
   ∀ d id, st.1 !! d = Some id → ds_id <$> get_summary d st.2 = Some id).

End DailyBatch.

(** ** Sample inputs used by the closed examples below *)

Module Samples.

Definition family1 : Detection :=
  mkDetection (Some 1) (Some "family") (Some "face") None None None.
Definition stranger0 : Detection :=
  mkDetection None (Some "stranger") (Some "new") None None None.
Definition suspected2 : Detection :=
  mkDetection (Some 2) (Some "suspected_family") (Some "soft_match") None None None.

(** A family member and a stranger together, then a stranger alone 3 s later. *)
Definition clip_mixed : Clip := mkClip 0 "doorbell" [[family1; stranger0]] None.
Definition clip_stranger_3s : Clip := mkClip 3 "doorbell" [[stranger0]] None.

(** A stranger next to a suspected family member, then a stranger 8 s later. *)
Definition clip_stranger_suspected : Clip :=
  mkClip 0 "doorbell" [[stranger0; suspected2]] None.
Definition clip_stranger_8s : Clip := mkClip 8 "doorbell" [[stranger0]] None.

(** Three doorbell clips of person 1 at 09:00:00, 09:00:30 and 09:02:00
    (seconds from 09:00:00), given out of order. *)
Definition raw_at (t : Z) : StreamSorter.RawClip :=
  StreamSorter.mkRawClip (Some t) (Some "doorbell") (Some [[family1]]) None.
Definition three_clips : list StreamSorter.RawClip := [raw_at 120; raw_at 0; raw_at 30].

(** Two body-matched detections of person 1 in one frame, both centred on
    (320, 240): a confident small box and a less confident large box. *)
Definition small_confident : Detection :=
  mkDetection (Some 1) (Some "family") (Some "body") (Some (Float64.literal (9 # 10)))
              (Some (315, 235, 325, 245)) None.
Definition large_unsure : Detection :=
  mkDetection (Some 1) (Some "family") (Some "body") (Some (Float64.literal (5 # 10)))
              (Some (310, 230, 330, 250)) None.
Definition clip_two_boxes : Clip :=
  mkClip 0 "doorbell" [[small_confident; large_unsure]] None.

(** Two detections of person 1 whose exact scores are equal: a narrow box
    seen with confidence 0.125, then a wide box seen with confidence 0. *)
Definition narrow_confident : Detection :=
  mkDetection (Some 1) (Some "stranger") (Some "new") (Some (1 # 8))
              (Some (0, 0, 13, 1)) None.
Definition wide_unsure : Detection :=
  mkDetection (Some 1) (Some "stranger") (Some "new") (Some 0%Q)
              (Some (0, 0, 138, 1)) None.
Definition clip_narrow_wide : Clip :=
  mkClip 0 "doorbell" [[narrow_confident; wide_unsure]] None.

(** A [pow] that squares for the exponent 2 and otherwise takes the integer
    square root: exact on the samples, whose centres are on the grid. *)
Definition pow_stub (x y : Q) : Q :=
  if Qeq_bool y 2 then Float64.fmul x x else inject_Z (Z.sqrt (Qfloor x)).

(** A stranger that already has a person id, next to a family member. *)
Definition known_stranger3 : Detection :=
  mkDetection (Some 3) (Some "stranger") (Some "new") None None None.
Definition clip_known_stranger : Clip :=
  mkClip 0 "doorbell" [[family1; known_stranger3]] None.

(** Person 2 is suspected in three frames, the first shared with person 1. *)
Definition clip_suspected_thrice : Clip :=
  mkClip 0 "doorbell" [[family1; suspected2]; [suspected2]; [suspected2]] None.

(** A soft-matched detection of person 1 with a 2048-dimensional body vector. *)
Definition body_vector : Vec := replicate 2048 0%Q.
Definition soft_matched1 : Detection :=
  mkDetection (Some 1) (Some "suspected_family") (Some "soft_match") (Some (Float64.literal (57 # 100)))
              (Some (100, 100, 200, 300)) (Some body_vector).


(** An empty store: both queries find nothing.  The parser stand-in returns
    the default query object, and the LLM stand-in always replies. *)
Definition default_query : Retrieval.QueryObj :=
  Retrieval.mkQueryObj None None None None None "general" "detail".
Definition parse_default (user_query : string) : Retrieval.QueryObj := default_query.
Definition empty_store (query_obj : Retrieval.QueryObj) : list Retrieval.Evidence := [].
Definition keep_records (records : list Retrieval.Evidence) : list Retrieval.Evidence := records.
Definition system_prompt_stub (query_obj : Retrieval.QueryObj) : string := "system".
Definition user_prompt_stub (user_query : string) (records : list Retrieval.Evidence)
    (query_obj : Retrieval.QueryObj) : string := user_query.
Definition llm_echo (system_prompt user_prompt : string) : option string := Some user_prompt.
Definition strip_id (s : string) : string := s.
Definition fallback_stub (records : list Retrieval.Evidence) : string := "fallback".

(** Day 20332: two events are recorded and the day is summarised at time
    100, which writes the row [first_row]; then a third event is recorded. *)
Definition morning_event : DailySummaries.EventLog :=
  DailySummaries.mkEventLog "e1" (20332 * 86400 + 32400) "doorbell" "arrives".
Definition evening_event : DailySummaries.EventLog :=
  DailySummaries.mkEventLog "e2" (20332 * 86400 + 64800) "doorbell" "leaves".
Definition timeline_stub (events : list DailySummaries.EventLog) : string := "timeline".
Definition analyze_stub (timeline_text : string) (target_date : Z) : string := "new summary".

(** The arbiter's samples use two-dimensional unit vectors, for which the
    cosine distance is one minus the dot product. *)
Definition dot (v w : Vec) : Q := fold_right Qplus 0%Q (zip_with Qmult v w).
Definition dot_distance (v w : Vec) : Q := (1 - dot v w)%Q.
Definition east : Vec := [1; 0]%Q.
Definition north : Vec := [0; 1]%Q.
Definition no_faults : IdentityArbiter.Faults :=
  IdentityArbiter.mkFaults IdentityArbiter.NoFault IdentityArbiter.NoFault
                           IdentityArbiter.NoFault.
Definition store_down : IdentityArbiter.Faults :=
  IdentityArbiter.mkFaults IdentityArbiter.ConnectFails IdentityArbiter.ConnectFails
                           IdentityArbiter.ConnectFails.
Definition face_query_down : IdentityArbiter.Faults :=
  IdentityArbiter.mkFaults IdentityArbiter.ConnectFails IdentityArbiter.NoFault
                           IdentityArbiter.NoFault.

(** Person 1 is enrolled with the face [east] and was last seen at time 0. *)
Definition enrolled (stored_role : string) (cache : option Vec) (updated : option Z)
  : IdentityArbiter.Database :=
  IdentityArbiter.mkDatabase
    [IdentityArbiter.mkPerson 1 "Family_1" stored_role cache updated (Some 0) (Some 0) None]
    [IdentityArbiter.mkPersonFace 1 1 east "lib/1.jpeg"].
Definition db_owner : IdentityArbiter.Database := enrolled "owner" None None.
Definition db_owner_cached : IdentityArbiter.Database :=
  enrolled "owner" (Some north) (Some 50).
Definition db_visitor : IdentityArbiter.Database := enrolled "visitor" None None.

(** Two clips of person 1 with their video durations, 30 s apart. *)
Definition clip_12s : Clip := mkClip 0 "doorbell" [[family1]] (Some 12%Q).
Definition clip_8s : Clip := mkClip 30 "doorbell" [[family1]] (Some 8%Q).

(** Three frames with a stranger that has no person id, the first shared
    with a family member. *)
Definition clip_stranger_thrice : Clip :=
  mkClip 0 "doorbell" [[family1; stranger0]; [stranger0]; [stranger0]] None.

(** Person 1 seen twice with a body vector: a face match and a body match. *)
Definition face_matched1 : Detection :=
  mkDetection (Some 1) (Some "family") (Some "face") (Some (Float64.literal (8 # 10)))
              (Some (100, 100, 200, 300)) (Some body_vector).
Definition body_matched1 : Detection :=
  mkDetection (Some 1) (Some "family") (Some "body") (Some (Float64.literal (7 # 10)))
              (Some (100, 100, 200, 300)) (Some body_vector).
Definition clip_face_then_body : Clip :=
  mkClip 0 "doorbell" [[body_matched1]; [face_matched1]] None.
Definition md5_stub (v : Vec) : string := "0a1b2c3d".

(** A 29.97 fps video of 53 frames. *)
Definition ntsc_video_53 : FrameSampler.Video nat :=
  FrameSampler.mkVideo nat true (Float64.literal (2997 # 100)) 53 (seq 0 53).

(** A 1 fps video of three frames; a video that cannot be opened; and a
    video that reports no frame rate. *)
Definition slow_video : FrameSampler.Video nat :=
  FrameSampler.mkVideo nat true 1 3 (seq 0 3).
Definition rateless_video : FrameSampler.Video nat :=
  FrameSampler.mkVideo nat true 0 61 (seq 0 61).

(** The store with the two events of day 20332 before any summary. *)
Definition store_unsummarised : DailySummaries.Store :=
  DailySummaries.mkStore [evening_event; morning_event] [] 1.

(** A store that finds one event with a snapshot, and an LLM gateway whose
    call raises after its retries. *)
Definition porch_appearance : Retrieval.AppearanceRecord :=
  Retrieval.mkAppearanceRecord 7 (Some 1) (Some "face") (Some "Family_1")
    (Some "/static/snapshots/event_e1_appearance_7_person_1.jpg").
Definition porch_event : Retrieval.Evidence :=
  Retrieval.mkEvidence "detail" "arrives" "2025-09-01 09:00:00" [porch_appearance].
Definition one_event_store (query_obj : Retrieval.QueryObj) : list Retrieval.Evidence :=
  [porch_event].
Definition llm_down (system_prompt user_prompt : string) : option string := None.

End Samples.

(** * Properties *)

(** ** Shared list facts *)

Lemma fold_left_frames {A B : Type} (f : A → B → A) (frames : list (list B)) (a : A) :
  fold_left (fun acc frame => fold_left f frame acc) frames a
  = fold_left f (concat frames) a.
Proof.
  revert a. induction frames as [|fr frames IH]; intros a; simpl; [done|].
  by rewrite IH, fold_left_app.
Qed.

Lemma triple_eq {A B C : Type} (a a' : A) (b b' : B) (c c' : C) :
  a = a' → b = b' → c = c' → (a, b, c) = (a', b', c').
Proof. by intros -> -> ->. Qed.

(** ** fusion_policy.py *)

Module FusionPolicyFacts.
Import FusionPolicy Vocabulary.

Lemma scan_person_fold (l : list Detection) (ids : gset Z) (fam str : bool) :
  fold_left scan_person l (ids, fam, str)
  = (nonzero_ids l ∪ ids, fam || existsb (is_role "family") l,
     str || existsb (is_role "stranger") l).
Proof.
  revert ids fam str. induction l as [|d l IH]; intros ids fam str.
  - simpl. apply triple_eq; [set_solver | by rewrite orb_false_r..].
  - cbn [fold_left]. unfold scan_person at 2. unfold is_role, nonzero_ids in *.
    cbn [omap list_omap existsb].
    assert (Hids : ∀ z, person_id d = Some z →
      (list_to_set (filter (λ z, z ≠ 0) (omap person_id l))
        ∪ (if truthy_id (Some z) then {[z]} ∪ ids else ids) : gset Z)
      = list_to_set (filter (λ z, z ≠ 0) (z :: omap person_id l)) ∪ ids).
    { intros z _. cbn [truthy_id]. destruct (Z.eqb_spec z 0) as [->|Hz]; cbn [negb].
      - by rewrite filter_cons_False by lia.
      - rewrite filter_cons_True by done. set_solver. }
    destruct (person_id d) as [z|] eqn:Hid;
      destruct (String.eqb_spec (role_or_stranger d) "family") as [Hf|Hf];
      destruct (String.eqb_spec (role_or_stranger d) "stranger") as [Hs|Hs];
      try congruence;
      rewrite IH; apply triple_eq;
      first [ by apply Hids | done | btauto ].
Qed.

Lemma extract_people_set_eq (c : Clip) :
  _extract_people_set c =
  {| person_ids := nonzero_ids (clip_detections c);
     all_strangers := existsb (is_role "stranger") (clip_detections c)
                      && negb (existsb (is_role "family") (clip_detections c));
     has_family := existsb (is_role "family") (clip_detections c);
     has_stranger := existsb (is_role "stranger") (clip_detections c) |}.
Proof.
  unfold _extract_people_set. rewrite fold_left_frames.
  fold (clip_detections c). rewrite scan_person_fold. cbn.
  f_equal. set_solver.
Qed.

Lemma existsb_is_role (r : string) (c : Clip) :
  existsb (is_role r) (clip_detections c) = true ↔ shows_role r c.
Proof.
  rewrite existsb_exists. unfold shows_role, is_role.
  split; intros (d & Hd & Hr); exists d.
  - apply list_elem_of_In in Hd. by apply String.eqb_eq in Hr.
  - apply list_elem_of_In in Hd. by apply String.eqb_eq in Hr.
Qed.

Lemma elem_of_nonzero_ids (z : Z) (c : Clip) :
  z ∈ nonzero_ids (clip_detections c) ↔ z ≠ 0 ∧ shows_id z c.
Proof.
  unfold nonzero_ids, shows_id. rewrite elem_of_list_to_set, list_elem_of_filter.
  rewrite list_elem_of_omap. naive_solver.
Qed.

End FusionPolicyFacts.

Module FusionPolicyProperties.
Import FusionPolicy Vocabulary FusionPolicyFacts.

(** C2, what the code computes.  Two clips are CONNECTED exactly when the
    gap [current.time - last.time] lies in [0, T) and one of these holds:
    (a) a non-zero person id is resolved in both clips;
    (b) each clip shows a stranger and no family member, and the gap is
        below 10 s;
    (c) one clip shows a family member and the other shows a stranger, and
        the gap is below 5 s.
    "Shows" means at least one detection of that role: other detections may
    be present next to it.  In (b) this is the flag [all_strangers], which
    [_extract_people_set] documents as "all are strangers" and computes as
    [has_stranger and not has_family]: a detection of another role, such as
    suspected_family, does not clear it. *)
Theorem is_connected_iff (T : Z) (last_clip current_clip : Clip) :
  is_connected T last_clip current_clip = true ↔
  let gap := time current_clip - time last_clip in
  (0 ≤ gap ∧ gap < T) ∧
  ((∃ z, z ≠ 0 ∧ shows_id z last_clip ∧ shows_id z current_clip)
   ∨ (shows_role "stranger" last_clip ∧ ¬ shows_role "family" last_clip ∧
      shows_role "stranger" current_clip ∧ ¬ shows_role "family" current_clip ∧
      gap < 10)
   ∨ (((shows_role "family" last_clip ∧ shows_role "stranger" current_clip) ∨
       (shows_role "stranger" last_clip ∧ shows_role "family" current_clip)) ∧
      gap < 5)).
Proof.
  unfold is_connected, _check_time_rule, _check_identity_rule.
  rewrite !extract_people_set_eq. cbn [person_ids all_strangers has_family has_stranger].
  cbv zeta.
  set (gap := time current_clip - time last_clip).
  pose proof (existsb_is_role "family" last_clip) as HfL.
  pose proof (existsb_is_role "stranger" last_clip) as HsL.
  pose proof (existsb_is_role "family" current_clip) as HfC.
  pose proof (existsb_is_role "stranger" current_clip) as HsC.
  assert (Hint : nonzero_ids (clip_detections last_clip)
                   ∩ nonzero_ids (clip_detections current_clip) ≠ ∅
                 ↔ ∃ z, z ≠ 0 ∧ shows_id z last_clip ∧ shows_id z current_clip).
  { split.
    - intros Hne. apply set_choose_L in Hne as [z Hz].
      apply elem_of_intersection in Hz as [H1 H2].
      apply elem_of_nonzero_ids in H1, H2. exists z. tauto.
    - intros (z & Hz & H1 & H2) Hempty.
      assert (z ∈ nonzero_ids (clip_detections last_clip)
                ∩ nonzero_ids (clip_detections current_clip)) as Hin.
      { apply elem_of_intersection; split; apply elem_of_nonzero_ids; tauto. }
      rewrite Hempty in Hin. set_solver. }
  rewrite <- (bool_decide_eq_true (_ ≠ ∅)) in Hint.
  destruct (existsb (is_role "family") (clip_detections last_clip));
  destruct (existsb (is_role "stranger") (clip_detections last_clip));
  destruct (existsb (is_role "family") (clip_detections current_clip));
  destruct (existsb (is_role "stranger") (clip_detections current_clip));
  destruct (bool_decide _);
  destruct (Z.ltb_spec gap 0); destruct (Z.ltb_spec gap T);
  destruct (Z.ltb_spec gap 10); destruct (Z.ltb_spec gap 5);
  cbn; try lia; intuition (try discriminate; try lia; try done).
Qed.

(** C2, the inputs on which the code departs from the documented rule.  A
    clip with a family member and a stranger is connected to a stranger-only
    clip 3 s later: rule (c) asks for a family member in one clip and a
    stranger in the other, not for clips of one role only.  A clip with a
    stranger and a suspected family member is connected to a stranger-only
    clip 8 s later: [all_strangers] holds of the first clip although not all
    of its detections are strangers, against the flag's own description and
    rule 2 of the docstring of [_check_identity_rule].  Neither pair
    satisfies the documented identity rule. *)
Lemma is_connected_not_documented :
  (is_connected 60 Samples.clip_mixed Samples.clip_stranger_3s = true ∧
   documented_connected 60 Samples.clip_mixed Samples.clip_stranger_3s = false) ∧
  (is_connected 60 Samples.clip_stranger_suspected Samples.clip_stranger_8s = true ∧
   documented_connected 60 Samples.clip_stranger_suspected Samples.clip_stranger_8s = false).
Proof. repeat split; vm_compute; reflexivity. Qed.

End FusionPolicyProperties.

(** ** stream_sorter.py, session_manager.py, event_fusion_pipeline.py *)

Module FusionFacts.
Import StreamSorter SessionManager Event_Fusion_Pipeline Packing Vocabulary.

Lemma insert_by_time_elem (c x : Clip) (l : list Clip) :
  x ∈ insert_by_time c l ↔ x = c ∨ x ∈ l.
Proof.
  induction l as [|y l IH]; simpl.
  - set_solver.
  - destruct (time c <=? time y); set_solver.
Qed.

Lemma insert_by_time_sorted (c : Clip) (l : list Clip) :
  StronglySorted time_le l → StronglySorted time_le (insert_by_time c l).
Proof.
  induction 1 as [|y l Hl IH Hy]; simpl.
  - repeat constructor.
  - destruct (Z.leb_spec (time c) (time y)) as [Hle|Hgt].
    + constructor; [by constructor|].
      constructor; [exact Hle|].
      eapply Forall_impl; [exact Hy|]. unfold time_le. intros; lia.
    + constructor; [exact IH|].
      apply Forall_forall. intros x Hx. apply insert_by_time_elem in Hx as [->|Hx].
      * unfold time_le; lia.
      * by eapply Forall_forall in Hy.
Qed.

Lemma sorted_by_time_sorted (l : list Clip) :
  StronglySorted time_le (sorted_by_time l).
Proof.
  induction l as [|c l IH]; simpl; [constructor|].
  by apply insert_by_time_sorted.
Qed.


(** The grouping loop cuts its input into non-empty consecutive groups. *)
Lemma group_step_inv (T : Z) (l : list Clip) (evs : list (list Clip)) (buf : list Clip) :
  Forall (λ g, g ≠ []) evs →
  ∃ evs' buf',
    fold_left (group_step T) l (evs, buf) = (evs', buf') ∧
    Forall (λ g, g ≠ []) evs' ∧
    concat evs' ++ buf' = concat evs ++ buf ++ l.
Proof.
  revert evs buf. induction l as [|c l IH]; intros evs buf Hne.
  - exists evs, buf. by rewrite app_nil_r.
  - cbn [fold_left]. unfold group_step at 2, process_clip.
    destruct (last buf) as [last_clip|] eqn:Hlast.
    + destruct (FusionPolicy.is_connected T last_clip c).
      * rewrite app_nil_r.
        destruct (IH evs (buf ++ [c]) Hne) as (evs' & buf' & Hf & Hne' & Hcat).
        exists evs', buf'. split_and!; [done..|].
        rewrite Hcat. by rewrite <- !app_assoc.
      * assert (buf ≠ []) as Hbuf by (intros ->; discriminate).
        destruct (IH (evs ++ [buf]) [c]) as (evs' & buf' & Hf & Hne' & Hcat).
        { apply Forall_app. split; [done|]. by constructor. }
        exists evs', buf'. split_and!; [done..|].
        rewrite Hcat, concat_app. simpl.
        by rewrite app_nil_r, <- !app_assoc.
    + apply last_None in Hlast as ->. rewrite app_nil_r.
      destruct (IH evs ([] ++ [c]) Hne) as (evs' & buf' & Hf & Hne' & Hcat).
      exists evs', buf'. done.
Qed.

Lemma group_clips_spec (T : Z) (sorted_clips : list Clip) :
  Forall (λ g, g ≠ []) (group_clips T sorted_clips) ∧
  concat (group_clips T sorted_clips) = sorted_clips.
Proof.
  unfold group_clips.
  destruct (group_step_inv T sorted_clips [] []) as (evs & buf & -> & Hne & Hcat);
    [constructor|].
  simpl in Hcat. unfold finalize. destruct buf as [|b buf].
  - rewrite !app_nil_r in *. done.
  - split.
    + apply Forall_app. split; [done|]. by constructor.
    + rewrite concat_app. simpl. by rewrite app_nil_r.
Qed.





End FusionFacts.


Module FusionProperties.
Import StreamSorter SessionManager Event_Fusion_Pipeline Packing Vocabulary FusionFacts.



End FusionProperties.

(** ** Rational comparison *)

Lemma Qltb_lt (x y : Q) : Qltb x y = true ↔ (x < y)%Q.
Proof.
  unfold Qltb. rewrite negb_true_iff, <- not_true_iff_false, Qle_bool_iff.
  split; [apply Qnot_le_lt | apply Qlt_not_le].
Qed.

Lemma Qltb_ge (x y : Q) : Qltb x y = false ↔ (y <= x)%Q.
Proof.
  unfold Qltb. rewrite negb_false_iff, Qle_bool_iff. done.
Qed.

(** ** Python floats: rounding to a double *)

Module Float64Facts.
Import Float64.
Local Open Scope Q_scope.

(** *** Powers of two *)

Lemma pow2_pos (z : Z) : 0 < 2 ^ z.
Proof. by apply Qpower_0_lt. Qed.

Lemma pow2_plus (a b : Z) : 2 ^ (a + b) == 2 ^ a * 2 ^ b.
Proof. by apply Qpower_plus. Qed.

Lemma pow2_inject (k : Z) : (0 <= k)%Z → 2 ^ k == inject_Z (2 ^ k).
Proof. intros Hk. by rewrite Zpower_Qpower. Qed.

Lemma pow2_le (a b : Z) : (a <= b)%Z → 2 ^ a <= 2 ^ b.
Proof. intros Hab. by apply Qpower_le_compat_l. Qed.

Lemma pow2_lt_inv (a b : Z) : 2 ^ a < 2 ^ b → (a < b)%Z.
Proof. intros Hab. by apply (Qpower_lt_compat_l_inv 2). Qed.

(** [x / 2^s] against an integer. *)
Lemma div_pow2_le (x : Q) (s : Z) (k : Z) :
  x <= inject_Z k * 2 ^ s ↔ x / 2 ^ s <= inject_Z k.
Proof.
  pose proof (pow2_pos s) as Hs. split; intros H.
  - apply Qle_shift_div_r; done.
  - apply Qle_trans with (x / 2 ^ s * 2 ^ s).
    + apply Qle_lteq. right. field. by apply Qnot_eq_sym, Qlt_not_eq.
    + apply Qmult_le_compat_r; [done|]. by apply Qlt_le_weak.
Qed.

Lemma div_pow2_ge (x : Q) (s : Z) (k : Z) :
  inject_Z k * 2 ^ s <= x ↔ inject_Z k <= x / 2 ^ s.
Proof.
  pose proof (pow2_pos s) as Hs. split; intros H.
  - apply Qle_shift_div_l; done.
  - apply Qle_trans with (x / 2 ^ s * 2 ^ s).
    + apply Qmult_le_compat_r; [done|]. by apply Qlt_le_weak.
    + apply Qle_lteq. right. field. by apply Qnot_eq_sym, Qlt_not_eq.
Qed.

(** *** Rounding to the nearest integer *)

Lemma round_half_even_floor (x : Q) :
  round_half_even x = Qfloor x ∨
  (round_half_even x = (Qfloor x + 1)%Z ∧ inject_Z (Qfloor x) + (1 # 2) <= x).
Proof.
  unfold round_half_even.
  destruct (Qltb _ (1 # 2)) eqn:H1; [by left|]. apply Qltb_ge in H1.
  assert (inject_Z (Qfloor x) + (1 # 2) <= x) as Hx.
  { apply Qle_minus_iff. apply Qle_minus_iff in H1.
    eapply Qle_trans; [exact H1|]. apply Qle_lteq. right. ring. }
  destruct (Qltb (1 # 2) _); [by right|].
  destruct (Z.even _); [by left|by right].
Qed.

Lemma round_half_even_ge (x : Q) (k : Z) : inject_Z k <= x → (k <= round_half_even x)%Z.
Proof.
  intros Hk. assert (k <= Qfloor x)%Z as Hf.
  { rewrite <- (Qfloor_Z k). by apply Qfloor_resp_le. }
  destruct (round_half_even_floor x) as [->|[-> _]]; lia.
Qed.

Lemma round_half_even_le (x : Q) (k : Z) : x <= inject_Z k → (round_half_even x <= k)%Z.
Proof.
  intros Hk. assert (Qfloor x <= k)%Z as Hf.
  { rewrite <- (Qfloor_Z k). by apply Qfloor_resp_le. }
  destruct (round_half_even_floor x) as [->|[-> Hhalf]]; [done|].
  assert (inject_Z (Qfloor x) < inject_Z k) as Hlt.
  { eapply Qlt_le_trans; [|exact Hk]. eapply Qlt_le_trans; [|exact Hhalf].
    rewrite <- (Qplus_0_r (inject_Z (Qfloor x))) at 1.
    apply Qplus_lt_r. done. }
  rewrite <- Zlt_Qlt in Hlt. lia.
Qed.


Lemma round_half_even_monotone (p q : Q) :
  p <= q → (round_half_even p <= round_half_even q)%Z.
Proof.
  intros Hpq. pose proof (Qfloor_resp_le p q Hpq) as Hf.
  destruct (decide (Qfloor p = Qfloor q)) as [Heq|Hne].
  - unfold round_half_even. rewrite <- Heq.
    assert (p - inject_Z (Qfloor p) <= q - inject_Z (Qfloor p)) as Hr.
    { by apply Qplus_le_l. }
    destruct (Qltb (p - _) (1 # 2)) eqn:Hp1.
    { destruct (Qltb (q - _) (1 # 2)); [lia|].
      destruct (Qltb (1 # 2) (q - _)); [lia|]. destruct (Z.even _); lia. }
    apply Qltb_ge in Hp1.
    assert (Qltb (q - inject_Z (Qfloor p)) (1 # 2) = false) as ->.
    { apply Qltb_ge. by eapply Qle_trans. }
    destruct (Qltb (1 # 2) (p - _)) eqn:Hp2.
    { apply Qltb_lt in Hp2.
      assert (Qltb (1 # 2) (q - inject_Z (Qfloor p)) = true) as ->; [|lia].
      apply Qltb_lt. by eapply Qlt_le_trans. }
    destruct (Qltb (1 # 2) (q - _)); destruct (Z.even _); lia.
  - destruct (round_half_even_floor p) as [->|[-> _]];
      pose proof (round_half_even_ge q (Qfloor q) (Qfloor_le q)); lia.
Qed.

(** *** The binary exponent *)

Lemma Qmake_le_iff (a b : Z) (c d : positive) :
  (a # c) <= (b # d) ↔ (a * Zpos d <= b * Zpos c)%Z.
Proof. done. Qed.

Lemma pow2_quotient (a b : Z) :
  (0 <= a)%Z → (0 <= b)%Z → 2 ^ (a - b) == inject_Z (2 ^ a) / inject_Z (2 ^ b).
Proof.
  intros Ha Hb. rewrite Qpower_minus by done. by rewrite !pow2_inject.
Qed.

Lemma Qmake_quotient (x : Q) : x == inject_Z (Qnum x) / inject_Z (Zpos (Qden x)).
Proof. destruct x as [n d]. cbn [Qnum Qden]. apply Qmake_Qdiv. Qed.

Lemma quotient_le (a b c d : Z) :
  (0 < b)%Z → (0 < d)%Z → (a * d <= c * b)%Z →
  inject_Z a / inject_Z b <= inject_Z c / inject_Z d.
Proof.
  intros Hb Hd H.
  assert (0 < inject_Z b) as Hb' by (by rewrite <- (Zlt_Qlt 0)).
  assert (0 < inject_Z d) as Hd' by (by rewrite <- (Zlt_Qlt 0)).
  apply Qle_shift_div_r; [done|].
  apply Qle_trans with (inject_Z c * inject_Z b / inject_Z d).
  - apply Qle_shift_div_l; [done|]. rewrite <- !inject_Z_mult. by rewrite <- Zle_Qle.
  - apply Qle_lteq. right. field. by apply Qnot_eq_sym, Qlt_not_eq.
Qed.

Lemma quotient_lt (a b c d : Z) :
  (0 < b)%Z → (0 < d)%Z → (a * d < c * b)%Z →
  inject_Z a / inject_Z b < inject_Z c / inject_Z d.
Proof.
  intros Hb Hd H.
  assert (0 < inject_Z b) as Hb' by (by rewrite <- (Zlt_Qlt 0)).
  assert (0 < inject_Z d) as Hd' by (by rewrite <- (Zlt_Qlt 0)).
  apply Qlt_shift_div_r; [done|].
  apply Qlt_le_trans with (inject_Z c * inject_Z b / inject_Z d).
  - apply Qlt_shift_div_l; [done|]. rewrite <- !inject_Z_mult. by rewrite <- Zlt_Qlt.
  - apply Qle_lteq. right. field. by apply Qnot_eq_sym, Qlt_not_eq.
Qed.

Lemma Qnum_pos (x : Q) : 0 < x → (0 < Qnum x)%Z.
Proof. destruct x as [n d]. unfold Qlt. cbn. lia. Qed.

Lemma floor_log2_le (x : Q) : 0 < x → 2 ^ floor_log2 x <= x.
Proof.
  intros Hx. unfold floor_log2.
  destruct (Qle_bool _ x) eqn:Ht; [by apply Qle_bool_iff|].
  pose proof (Qnum_pos x Hx) as Hn.
  pose proof (Z.log2_spec (Qnum x) Hn) as [Hn1 _].
  pose proof (Z.log2_spec (Zpos (Qden x)) eq_refl) as [_ Hd2].
  pose proof (Z.log2_nonneg (Qnum x)) as Ha.
  pose proof (Z.log2_nonneg (Zpos (Qden x))) as Hb.
  replace (Z.log2 (Qnum x) - Z.log2 (Z.pos (Qden x)) - 1)%Z
    with (Z.log2 (Qnum x) - Z.succ (Z.log2 (Z.pos (Qden x))))%Z by lia.
  rewrite pow2_quotient by lia. rewrite (Qmake_quotient x) at 3.
  apply quotient_le; [lia..|]. nia.
Qed.

Lemma floor_log2_lt (x : Q) : 0 < x → x < 2 ^ (floor_log2 x + 1).
Proof.
  intros Hx. unfold floor_log2.
  destruct (Qle_bool _ x) eqn:Ht.
  - pose proof (Qnum_pos x Hx) as Hn.
    pose proof (Z.log2_spec (Qnum x) Hn) as [_ Hn2].
    pose proof (Z.log2_spec (Zpos (Qden x)) eq_refl) as [Hd1 _].
    pose proof (Z.log2_nonneg (Qnum x)) as Ha.
    pose proof (Z.log2_nonneg (Zpos (Qden x))) as Hb.
    replace (Z.log2 (Qnum x) - Z.log2 (Z.pos (Qden x)) + 1)%Z
      with (Z.succ (Z.log2 (Qnum x)) - Z.log2 (Z.pos (Qden x)))%Z by lia.
    rewrite pow2_quotient by lia. rewrite (Qmake_quotient x) at 1.
    apply quotient_lt; [lia..|]. nia.
  - replace (Z.log2 (Qnum x) - Z.log2 (Z.pos (Qden x)) - 1 + 1)%Z
      with (Z.log2 (Qnum x) - Z.log2 (Z.pos (Qden x)))%Z by lia.
    apply Qnot_le_lt. intros Hle. apply Qle_bool_iff in Hle. congruence.
Qed.

Lemma floor_log2_monotone (x y : Q) :
  0 < x → x <= y → (floor_log2 x <= floor_log2 y)%Z.
Proof.
  intros Hx Hxy.
  assert (0 < y) as Hy by (by eapply Qlt_le_trans).
  assert (2 ^ floor_log2 x < 2 ^ (floor_log2 y + 1)) as H.
  { eapply Qle_lt_trans; [by apply floor_log2_le|].
    eapply Qle_lt_trans; [exact Hxy|]. by apply floor_log2_lt. }
  apply pow2_lt_inv in H. lia.
Qed.


(** *** Rounding to a double *)

Lemma Qabs_nonneg_eq (x : Q) : 0 <= x → Qabs x = x.
Proof.
  destruct x as [n d]. unfold Qle. cbn. intros Hn. f_equal. lia.
Qed.

Lemma round_double_zero (x : Q) : x == 0 → round_double x = 0.
Proof. intros Hx. unfold round_double. apply Qeq_bool_iff in Hx. by rewrite Hx. Qed.

Lemma round_double_nonzero (x : Q) :
  ¬ x == 0 →
  round_double x
  == inject_Z (round_half_even (x / 2 ^ ulp_exponent x)) * 2 ^ ulp_exponent x.
Proof.
  intros Hx. unfold round_double.
  destruct (Qeq_bool x 0) eqn:H0; [by apply Qeq_bool_iff in H0|].
  cbv zeta. apply Qred_correct.
Qed.

Lemma round_double_nonneg (x : Q) : 0 <= x → 0 <= round_double x.
Proof.
  intros Hx. destruct (Qeq_dec x 0) as [H0|H0].
  - by rewrite round_double_zero.
  - rewrite round_double_nonzero by done.
    apply Qmult_le_0_compat; [|apply Qlt_le_weak, pow2_pos].
    rewrite <- (Zle_Qle 0). apply round_half_even_ge.
    apply Qle_shift_div_l; [apply pow2_pos|]. by rewrite Qmult_0_l.
Qed.

(** Rounding does not cross a multiple of the unit in the last place. *)
Lemma round_double_le_grid (x : Q) (k : Z) :
  ¬ x == 0 → x <= inject_Z k * 2 ^ ulp_exponent x →
  round_double x <= inject_Z k * 2 ^ ulp_exponent x.
Proof.
  intros H0 Hx. rewrite round_double_nonzero by done.
  apply Qmult_le_compat_r; [|apply Qlt_le_weak, pow2_pos].
  rewrite <- Zle_Qle. apply round_half_even_le. by apply div_pow2_le.
Qed.

Lemma round_double_ge_grid (x : Q) (k : Z) :
  ¬ x == 0 → inject_Z k * 2 ^ ulp_exponent x <= x →
  inject_Z k * 2 ^ ulp_exponent x <= round_double x.
Proof.
  intros H0 Hx. rewrite round_double_nonzero by done.
  apply Qmult_le_compat_r; [|apply Qlt_le_weak, pow2_pos].
  rewrite <- Zle_Qle. apply round_half_even_ge. by apply div_pow2_ge.
Qed.

(** A power of two above the unit in the last place is a multiple of it. *)
Lemma pow2_grid (e s : Z) : (s <= e)%Z → 2 ^ e == inject_Z (2 ^ (e - s)) * 2 ^ s.
Proof.
  intros Hse. rewrite <- pow2_inject by lia. rewrite <- pow2_plus.
  by replace (e - s + s)%Z with e by lia.
Qed.

Lemma ulp_exponent_pos (x : Q) :
  0 < x → ulp_exponent x = Z.max (floor_log2 x - 52) (-1074).
Proof. intros Hx. unfold ulp_exponent. rewrite Qabs_nonneg_eq; [done|by apply Qlt_le_weak]. Qed.

Theorem round_double_monotone (x y : Q) :
  0 <= x → x <= y → round_double x <= round_double y.
Proof.
  intros Hx Hxy.
  assert (0 <= y) as Hy by (by eapply Qle_trans).
  destruct (Qeq_dec x 0) as [Hx0|Hx0].
  { rewrite (round_double_zero x) by done. by apply round_double_nonneg. }
  assert (0 < x) as Hxpos.
  { apply Qle_lteq in Hx as [?|Heq]; [done|]. destruct Hx0. by symmetry. }
  assert (0 < y) as Hypos by (by eapply Qlt_le_trans).
  assert (¬ y == 0) as Hy0 by (by apply Qnot_eq_sym, Qlt_not_eq).
  pose proof (floor_log2_monotone x y Hxpos Hxy) as He.
  pose proof (ulp_exponent_pos x Hxpos) as Hsx.
  pose proof (ulp_exponent_pos y Hypos) as Hsy.
  destruct (decide (ulp_exponent x = ulp_exponent y)) as [Hs|Hs].
  - rewrite !round_double_nonzero by done. rewrite Hs.
    apply Qmult_le_compat_r; [|apply Qlt_le_weak, pow2_pos].
    rewrite <- Zle_Qle. apply round_half_even_monotone.
    apply Qmult_le_compat_r; [done|]. apply Qinv_le_0_compat, Qlt_le_weak, pow2_pos.
  - assert (ulp_exponent x < ulp_exponent y)%Z as Hlt by lia.
    assert (ulp_exponent y = floor_log2 y - 52)%Z as Hyn by lia.
    assert (floor_log2 x + 1 <= floor_log2 y)%Z as He' by lia.
    apply Qle_trans with (2 ^ floor_log2 y).
    + rewrite (pow2_grid (floor_log2 y) (ulp_exponent x)) by lia.
      apply round_double_le_grid; [done|].
      rewrite <- pow2_grid by lia.
      apply Qle_trans with (2 ^ (floor_log2 x + 1)).
      * by apply Qlt_le_weak, floor_log2_lt.
      * by apply pow2_le.
    + rewrite (pow2_grid (floor_log2 y) (ulp_exponent y)) by lia.
      apply round_double_ge_grid; [done|].
      rewrite <- pow2_grid by lia. by apply floor_log2_le.
Qed.


Lemma fadd_nonneg (x y : Q) : 0 <= x → 0 <= y → 0 <= fadd x y.
Proof.
  intros Hx Hy. apply round_double_nonneg. exact (Qplus_le_compat 0 x 0 y Hx Hy).
Qed.

Lemma fmul_nonneg (x y : Q) : 0 <= x → 0 <= y → 0 <= fmul x y.
Proof. intros Hx Hy. apply round_double_nonneg. by apply Qmult_le_0_compat. Qed.

Lemma float_of_int_nonneg (z : Z) : (0 <= z)%Z → 0 <= float_of_int z.
Proof. intros Hz. apply round_double_nonneg. by rewrite <- (Zle_Qle 0). Qed.


(** *** Doubles *)

Lemma Qmult_lt_cancel_pow2 (m n : Z) (s : Z) :
  inject_Z m * 2 ^ s < inject_Z n * 2 ^ s → (m < n)%Z.
Proof.
  intros H. rewrite Zlt_Qlt. by apply Qmult_lt_r in H; [|apply pow2_pos].
Qed.

Lemma Qmult_le_cancel_pow2 (m n : Z) (s : Z) :
  inject_Z m * 2 ^ s <= inject_Z n * 2 ^ s → (m <= n)%Z.
Proof.
  intros H. rewrite Zle_Qle. by apply Qmult_le_r in H; [|apply pow2_pos].
Qed.

(** A positive double is an integer below [2^53] times its unit in the last
    place, and at least [2^52] times it unless the double is subnormal. *)
Lemma double_mantissa (x : Q) :
  0 < x → is_double x = true →
  ∃ M : Z, x == inject_Z M * 2 ^ ulp_exponent x ∧ (0 < M < 2 ^ 53)%Z ∧
           (-1074 < ulp_exponent x → 2 ^ 52 <= M)%Z.
Proof.
  intros Hx Hd. apply Qeq_bool_iff in Hd.
  assert (¬ x == 0) as H0 by (by apply Qnot_eq_sym, Qlt_not_eq).
  rewrite round_double_nonzero in Hd by done.
  pose proof (ulp_exponent_pos x Hx) as Hs.
  set (s := ulp_exponent x) in *.
  set (M := round_half_even (x / 2 ^ s)) in *.
  exists M. split; [by symmetry|]. split; [split|].
  - apply (Qmult_lt_cancel_pow2 0 M s). rewrite Qmult_0_l. by rewrite Hd.
  - apply (Qmult_lt_cancel_pow2 M (2 ^ 53) s). rewrite Hd.
    eapply Qlt_le_trans; [by apply floor_log2_lt|].
    rewrite <- pow2_inject by lia. rewrite <- pow2_plus. apply pow2_le. lia.
  - intros Hn. apply (Qmult_le_cancel_pow2 (2 ^ 52) M s). rewrite Hd.
    rewrite <- pow2_inject by lia. rewrite <- pow2_plus.
    eapply Qle_trans; [|by apply floor_log2_le]. apply pow2_le. lia.
Qed.

(** Two distinct doubles differ by at least one part in [2^53]. *)
Lemma doubles_quotient (a b : Q) :
  is_double a = true → is_double b = true → 0 < a → a < b →
  a / b <= 1 - (1 # 2 ^ 53).
Proof.
  intros Hda Hdb Ha Hab.
  assert (0 < b) as Hb by (by eapply Qlt_trans).
  destruct (double_mantissa a Ha Hda) as (Ma & Hma & [Ha0 Ha53] & _).
  destruct (double_mantissa b Hb Hdb) as (Mb & Hmb & [Hb0 Hb53] & Hbn).
  pose proof (floor_log2_monotone a b Ha (Qlt_le_weak _ _ Hab)) as He.
  pose proof (ulp_exponent_pos a Ha) as Hsa.
  pose proof (ulp_exponent_pos b Hb) as Hsb.
  set (sa := ulp_exponent a) in *. set (sb := ulp_exponent b) in *.
  set (k := (sb - sa)%Z).
  assert (0 <= k)%Z as Hk by lia.
  assert (2 ^ sb == inject_Z (2 ^ k) * 2 ^ sa) as Hpow.
  { rewrite <- pow2_inject by done. rewrite <- pow2_plus.
    by replace (k + sa)%Z with sb by lia. }
  assert (b == inject_Z (Mb * 2 ^ k) * 2 ^ sa) as Hmb'.
  { rewrite Hmb, Hpow, inject_Z_mult. ring. }
  assert (Ma < Mb * 2 ^ k)%Z as Hlt.
  { apply (Qmult_lt_cancel_pow2 _ _ sa). by rewrite <- Hma, <- Hmb'. }
  assert (0 < 2 ^ k)%Z as Hk2 by (by apply Z.pow_pos_nonneg).
  assert (a / b == inject_Z Ma / inject_Z (Mb * 2 ^ k)) as ->.
  { rewrite Hma at 1. rewrite Hmb' at 1. field.
    split; apply Qnot_eq_sym, Qlt_not_eq;
      first [apply pow2_pos | rewrite <- (Zlt_Qlt 0); nia]. }
  assert (1 - (1 # 2 ^ 53) == inject_Z (2 ^ 53 - 1) / inject_Z (2 ^ 53)) as -> by done.
  apply quotient_le; [nia|done|].
  destruct (decide (k = 0)%Z) as [Hk0|Hk0].
  - assert (2 ^ k = 1)%Z as Hone by (by rewrite Hk0).
    rewrite Hone in *. lia.
  - assert (2 ^ 52 <= Mb)%Z as Hbig by (apply Hbn; lia).
    assert (2 ^ 1 <= 2 ^ k)%Z as Hk1 by (apply Z.pow_le_mono_r; lia).
    assert (2 ^ 53 <= Mb * 2 ^ k)%Z as HB.
    { change (2 ^ 53)%Z with (2 ^ 52 * 2 ^ 1)%Z. apply Z.mul_le_mono_nonneg; lia. }
    lia.
Qed.

(** The double quotient of two doubles [0 < a < b] stays below 1. *)
Theorem fdiv_lt_1 (a b : Q) :
  is_double a = true → is_double b = true → 0 < a → a < b →
  0 <= fdiv a b ∧ fdiv a b < 1.
Proof.
  intros Hda Hdb Ha Hab. unfold fdiv.
  assert (0 < b) as Hb by (by eapply Qlt_trans).
  assert (0 <= a / b) as Hq.
  { apply Qle_shift_div_l; [done|]. rewrite Qmult_0_l. by apply Qlt_le_weak. }
  split; [by apply round_double_nonneg|].
  eapply Qle_lt_trans.
  - apply round_double_monotone; [done|]. by apply doubles_quotient.
  - by vm_compute.
Qed.

(** *** The error of a rounding *)

Lemma round_half_even_error (q : Q) :
  q - (1 # 2) <= inject_Z (round_half_even q) ∧
  inject_Z (round_half_even q) <= q + (1 # 2).
Proof.
  pose proof (Qfloor_le q) as Hlo. pose proof (Qlt_floor q) as Hhi.
  rewrite inject_Z_plus in Hhi.
  unfold round_half_even.
  set (f := Qfloor q) in *.
  destruct (Qltb (q - inject_Z f) (1 # 2)) eqn:H1.
  { apply Qltb_lt in H1. split.
    - apply Qle_minus_iff. apply Qlt_le_weak in H1. apply Qle_minus_iff in H1.
      eapply Qle_trans; [exact H1|]. apply Qle_lteq. right. ring.
    - eapply Qle_trans; [exact Hlo|].
      rewrite <- (Qplus_0_r q) at 1. by apply Qplus_le_r. }
  apply Qltb_ge in H1.
  assert (q - (1 # 2) <= inject_Z f + 1 ∧ inject_Z f + 1 <= q + (1 # 2)) as Hup.
  { split.
    - apply Qlt_le_weak. eapply Qlt_trans; [|exact Hhi].
      rewrite <- (Qplus_0_r q) at 2. by apply Qplus_lt_r.
    - apply Qle_minus_iff. apply Qle_minus_iff in H1.
      eapply Qle_trans; [exact H1|]. apply Qle_lteq. right. ring. }
  assert (q - (1 # 2) <= inject_Z f → q - (1 # 2) <= inject_Z f ∧ inject_Z f <= q + (1 # 2))
    as Hdown.
  { intros H. split; [done|]. eapply Qle_trans; [exact Hlo|].
    rewrite <- (Qplus_0_r q) at 1. by apply Qplus_le_r. }
  destruct (Qltb (1 # 2) (q - inject_Z f)) eqn:H2.
  { by rewrite inject_Z_plus. }
  apply Qltb_ge in H2.
  destruct (Z.even f); [|by rewrite inject_Z_plus].
  apply Hdown. apply Qle_minus_iff. apply Qle_minus_iff in H2.
  eapply Qle_trans; [exact H2|]. apply Qle_lteq. right. ring.
Qed.

(** A rounding moves a number by at most half a unit in the last place. *)
Theorem round_double_error (x : Q) :
  x - 2 ^ ulp_exponent x * (1 # 2) <= round_double x ∧
  round_double x <= x + 2 ^ ulp_exponent x * (1 # 2).
Proof.
  pose proof (pow2_pos (ulp_exponent x)) as Hs.
  destruct (Qeq_dec x 0) as [H0|H0].
  { rewrite (round_double_zero x) by done.
    assert (0 <= 2 ^ ulp_exponent x * (1 # 2)) as Hc.
    { apply Qmult_le_0_compat; [by apply Qlt_le_weak|done]. }
    revert Hc. generalize (2 ^ ulp_exponent x * (1 # 2)). intros c Hc.
    rewrite H0. split.
    - apply Qle_minus_iff.
      assert (0 + - (0 - c) == c) as -> by ring. done.
    - by rewrite Qplus_0_l. }
  rewrite round_double_nonzero by done.
  destruct (round_half_even_error (x / 2 ^ ulp_exponent x)) as [Hlo Hhi].
  assert (¬ 2 ^ ulp_exponent x == 0) as Hne.
  { by apply Qnot_eq_sym, Qlt_not_eq. }
  split.
  - apply Qle_trans with ((x / 2 ^ ulp_exponent x - (1 # 2)) * 2 ^ ulp_exponent x).
    + apply Qle_lteq. right. field. exact Hne.
    + apply Qmult_le_compat_r; [done|by apply Qlt_le_weak].
  - apply Qle_trans with ((x / 2 ^ ulp_exponent x + (1 # 2)) * 2 ^ ulp_exponent x).
    + apply Qmult_le_compat_r; [done|by apply Qlt_le_weak].
    + apply Qle_lteq. right. field. exact Hne.
Qed.


(** *** Rounding is a function of the number, not of the fraction *)

Lemma round_half_even_comp (p q : Q) : p == q → round_half_even p = round_half_even q.
Proof.
  intros Hpq. apply Z.le_antisymm; apply round_half_even_monotone;
    apply Qle_lteq; right; [done|by symmetry].
Qed.

Lemma floor_log2_unique (x : Q) (e : Z) :
  0 < x → 2 ^ e <= x → x < 2 ^ (e + 1) → floor_log2 x = e.
Proof.
  intros Hx Hlo Hhi.
  pose proof (floor_log2_le x Hx) as Hlo'. pose proof (floor_log2_lt x Hx) as Hhi'.
  assert (2 ^ e < 2 ^ (floor_log2 x + 1)) as H1 by (by eapply Qle_lt_trans).
  assert (2 ^ floor_log2 x < 2 ^ (e + 1)) as H2 by (by eapply Qle_lt_trans).
  apply pow2_lt_inv in H1, H2. lia.
Qed.

Lemma floor_log2_comp (x y : Q) : 0 < x → x == y → floor_log2 x = floor_log2 y.
Proof.
  intros Hx Hxy. assert (0 < y) as Hy by (by rewrite <- Hxy).
  symmetry. apply floor_log2_unique; [done|..]; rewrite <- Hxy.
  - by apply floor_log2_le.
  - by apply floor_log2_lt.
Qed.

Lemma Qabs_pos_nonzero (x : Q) : ¬ x == 0 → 0 < Qabs x.
Proof.
  intros H0. pose proof (Qabs_nonneg x) as Hn.
  apply Qle_lteq in Hn as [?|Heq]; [done|].
  destruct H0. revert Heq. apply Qabs_case; intros _ Heq.
  - by symmetry.
  - assert (x == - - x) as -> by ring. by rewrite <- Heq.
Qed.

Lemma ulp_exponent_comp (x y : Q) : ¬ x == 0 → x == y → ulp_exponent x = ulp_exponent y.
Proof.
  intros H0 Hxy. unfold ulp_exponent. f_equal. f_equal.
  apply floor_log2_comp; [by apply Qabs_pos_nonzero|]. by rewrite Hxy.
Qed.

#[global] Instance round_double_comp : Proper (Qeq ==> eq) round_double.
Proof.
  intros x y Hxy. unfold round_double.
  destruct (Qeq_bool x 0) eqn:Hx.
  - apply Qeq_bool_iff in Hx. rewrite Hxy in Hx. apply Qeq_bool_iff in Hx. by rewrite Hx.
  - assert (¬ x == 0) as H0.
    { intros H. apply Qeq_bool_iff in H. congruence. }
    assert (Qeq_bool y 0 = false) as ->.
    { apply not_true_iff_false. intros H. apply Qeq_bool_iff in H. apply H0.
      by rewrite Hxy. }
    cbv zeta. rewrite <- (ulp_exponent_comp x y H0 Hxy).
    apply Qred_complete.
    rewrite (round_half_even_comp (x / 2 ^ ulp_exponent x) (y / 2 ^ ulp_exponent x));
      [done|]. unfold Qdiv. by apply Qmult_comp.
Qed.

#[global] Instance round_half_even_proper : Proper (Qeq ==> eq) round_half_even.
Proof. intros p q Hpq. by apply round_half_even_comp. Qed.

(** *** Integers *)

Lemma round_half_even_inject_Z (n : Z) : round_half_even (inject_Z n) = n.
Proof.
  unfold round_half_even. rewrite Qfloor_Z.
  assert (Qltb (inject_Z n - inject_Z n) (1 # 2) = true) as ->; [|done].
  apply Qltb_lt. assert (inject_Z n - inject_Z n == 0) as -> by ring. done.
Qed.

Lemma Qabs_inject_Z (z : Z) : Qabs (inject_Z z) = inject_Z (Z.abs z).
Proof. done. Qed.

(** An [int] below [2^53] in absolute value converts to a float without
    rounding. *)
Theorem float_of_int_exact (z : Z) : (Z.abs z < 2 ^ 53)%Z → float_of_int z == inject_Z z.
Proof.
  intros Hz. unfold float_of_int.
  destruct (decide (z = 0%Z)) as [->|Hnz]; [done|].
  assert (¬ inject_Z z == 0) as H0.
  { intros Heq. apply Hnz. by apply (inject_Z_injective z 0). }
  rewrite round_double_nonzero by done.
  assert (0 < inject_Z (Z.abs z)) as Hpos.
  { rewrite <- (Zlt_Qlt 0). lia. }
  assert (ulp_exponent (inject_Z z) <= 0)%Z as Hs.
  { unfold ulp_exponent. rewrite Qabs_inject_Z.
    pose proof (floor_log2_le _ Hpos) as Hle.
    assert (2 ^ floor_log2 (inject_Z (Z.abs z)) < 2 ^ 53) as Hlt.
    { eapply Qle_lt_trans; [exact Hle|].
      rewrite (pow2_inject 53) by lia. by rewrite <- Zlt_Qlt. }
    apply pow2_lt_inv in Hlt. lia. }
  set (s := ulp_exponent (inject_Z z)) in *.
  assert (inject_Z z / 2 ^ s == inject_Z (z * 2 ^ (- s))) as ->.
  { rewrite inject_Z_mult, <- pow2_inject by lia. rewrite Qpower_opp.
    reflexivity. }
  rewrite round_half_even_inject_Z.
  rewrite inject_Z_mult, <- pow2_inject by lia. rewrite <- Qmult_assoc, <- pow2_plus.
  replace (- s + s)%Z with 0%Z by lia. apply Qmult_1_r.
Qed.

(** *** The result of a rounding is a double *)

(** A multiple of a power of two that is not below its own unit in the last
    place is left as it is. *)
Lemma round_double_fixed (y : Q) (M t : Z) :
  ¬ y == 0 → y == inject_Z M * 2 ^ t → (ulp_exponent y <= t)%Z → round_double y == y.
Proof.
  intros H0 Hy Hu. rewrite round_double_nonzero by done.
  set (u := ulp_exponent y) in *.
  assert (y / 2 ^ u == inject_Z (M * 2 ^ (t - u))) as Hq.
  { rewrite inject_Z_mult, <- pow2_inject by lia. rewrite Qpower_minus by done.
    rewrite Hy. field. apply Qnot_eq_sym, Qlt_not_eq, pow2_pos. }
  rewrite Hq, round_half_even_inject_Z.
  rewrite inject_Z_mult, <- pow2_inject by lia.
  rewrite <- Qmult_assoc, <- pow2_plus.
  replace (t - u + u)%Z with t by lia. by symmetry.
Qed.

Lemma floor_log2_below (y : Q) (k : Z) : 0 < y → y < 2 ^ k → (floor_log2 y < k)%Z.
Proof.
  intros Hy Hlt. apply pow2_lt_inv. eapply Qle_lt_trans; [|exact Hlt].
  by apply floor_log2_le.
Qed.

Lemma round_double_idempotent_pos (x : Q) :
  0 < x → round_double (round_double x) == round_double x.
Proof.
  intros Hx.
  assert (¬ x == 0) as H0 by (by apply Qnot_eq_sym, Qlt_not_eq).
  pose proof (ulp_exponent_pos x Hx) as Hs.
  pose proof (floor_log2_lt x Hx) as Hhi.
  pose proof (round_double_nonzero x H0) as Hy.
  pose proof (round_double_nonneg x (Qlt_le_weak _ _ Hx)) as Hy0.
  set (s := ulp_exponent x) in *. set (M := round_half_even (x / 2 ^ s)) in *.
  set (y := round_double x) in *.
  destruct (Qeq_dec y 0) as [Hz|Hz].
  { rewrite (round_double_zero y Hz). by symmetry. }
  assert (0 < y) as Hypos.
  { apply Qle_lteq in Hy0 as [?|Heq]; [done|]. destruct Hz. by symmetry. }
  assert (M <= 2 ^ 53)%Z as HM.
  { apply round_half_even_le. apply div_pow2_le.
    rewrite <- pow2_inject, <- pow2_plus by lia.
    apply Qlt_le_weak. eapply Qlt_le_trans; [exact Hhi|]. apply pow2_le. lia. }
  destruct (decide (M = 2 ^ 53)%Z) as [HM53|HM53].
  - assert (y == 2 ^ (s + 53)) as Hpow.
    { rewrite Hy, HM53, <- pow2_inject, <- pow2_plus by lia. by rewrite Z.add_comm. }
    apply (round_double_fixed y (2 ^ 52) (s + 1)); [done| |].
    + rewrite Hpow, <- pow2_inject, <- pow2_plus by lia.
      by replace (52 + (s + 1))%Z with (s + 53)%Z by lia.
    + rewrite (ulp_exponent_pos y Hypos).
      assert (floor_log2 y = s + 53)%Z as ->; [|lia].
      apply floor_log2_unique; [done|rewrite Hpow; apply Qle_refl|].
      rewrite Hpow. apply Qpower_lt_compat_l; [lia|done].
  - apply (round_double_fixed y M s); [done..|].
    rewrite (ulp_exponent_pos y Hypos).
    assert (floor_log2 y < s + 53)%Z; [|lia].
    apply floor_log2_below; [done|].
    rewrite Hy, pow2_plus, (pow2_inject 53) by lia. rewrite (Qmult_comm (2 ^ s)).
    apply Qmult_lt_r; [apply pow2_pos|]. rewrite <- Zlt_Qlt. lia.
Qed.

Lemma Qfloor_opp_frac (q : Q) :
  ¬ q == inject_Z (Qfloor q) → Qfloor (- q) = (- Qfloor q - 1)%Z.
Proof.
  intros Hq. pose proof (Qfloor_le q) as Hlo. pose proof (Qlt_floor q) as Hhi.
  assert (inject_Z (Qfloor q) < q) as Hlt.
  { apply Qle_lteq in Hlo as [?|Heq]; [done|]. destruct Hq. by symmetry. }
  pose proof (Qfloor_le (- q)) as Hlo'. pose proof (Qlt_floor (- q)) as Hhi'.
  assert (inject_Z (Qfloor (- q)) < inject_Z (- Qfloor q)) as H1.
  { eapply Qle_lt_trans; [exact Hlo'|]. rewrite inject_Z_opp. by apply Qopp_lt_compat. }
  assert (inject_Z (- (Qfloor q + 1)) < inject_Z (Qfloor (- q) + 1)) as H2.
  { eapply Qlt_trans; [|exact Hhi']. rewrite inject_Z_opp. by apply Qopp_lt_compat. }
  rewrite <- Zlt_Qlt in H1, H2. lia.
Qed.

Lemma round_half_even_opp (q : Q) : round_half_even (- q) = (- round_half_even q)%Z.
Proof.
  destruct (Qeq_dec q (inject_Z (Qfloor q))) as [Hint|Hfrac].
  { rewrite Hint at 1 2. rewrite <- inject_Z_opp, !round_half_even_inject_Z. done. }
  pose proof (Qfloor_opp_frac q Hfrac) as Hf.
  unfold round_half_even. rewrite Hf.
  set (f := Qfloor q) in *.
  assert (- q - inject_Z (- f - 1) == 1 - (q - inject_Z f)) as Hr.
  { replace (- f - 1)%Z with (- f + - 1)%Z by lia.
    rewrite inject_Z_plus, !inject_Z_opp. ring. }
  set (r := q - inject_Z f) in *.
  assert (Qltb (- q - inject_Z (- f - 1)) (1 # 2) = Qltb (1 # 2) r) as ->.
  { apply eq_true_iff_eq. rewrite !Qltb_lt, Hr. split; intros H.
    - apply Qlt_minus_iff in H. apply Qlt_minus_iff.
      eapply Qlt_le_trans; [exact H|]. apply Qle_lteq. right. ring.
    - apply Qlt_minus_iff in H. apply Qlt_minus_iff.
      eapply Qlt_le_trans; [exact H|]. apply Qle_lteq. right. ring. }
  assert (Qltb (1 # 2) (- q - inject_Z (- f - 1)) = Qltb r (1 # 2)) as ->.
  { apply eq_true_iff_eq. rewrite !Qltb_lt, Hr. split; intros H.
    - apply Qlt_minus_iff in H. apply Qlt_minus_iff.
      eapply Qlt_le_trans; [exact H|]. apply Qle_lteq. right. ring.
    - apply Qlt_minus_iff in H. apply Qlt_minus_iff.
      eapply Qlt_le_trans; [exact H|]. apply Qle_lteq. right. ring. }
  assert (Z.even (- f - 1) = negb (Z.even f)) as ->.
  { replace (- f - 1)%Z with (- (f + 1))%Z by lia.
    rewrite Z.even_opp, Z.even_add. by destruct (Z.even f). }
  destruct (Qltb r (1 # 2)) eqn:H1, (Qltb (1 # 2) r) eqn:H2.
  - apply Qltb_lt in H1, H2. destruct (Qlt_irrefl r). by eapply Qlt_trans.
  - lia.
  - lia.
  - destruct (Z.even f); simpl; lia.
Qed.

Lemma ulp_exponent_opp (x : Q) : ulp_exponent (- x) = ulp_exponent x.
Proof.
  unfold ulp_exponent. f_equal. f_equal.
  destruct (Qeq_dec x 0) as [H0|H0].
  - destruct x as [n d]. unfold Qeq in H0. cbn in H0.
    assert (n = 0)%Z as -> by lia. done.
  - apply floor_log2_comp.
    + apply Qabs_pos_nonzero. intros H. apply H0.
      assert (x == - - x) as -> by ring. by rewrite H.
    + apply Qabs_opp.
Qed.

Lemma round_double_opp (x : Q) : round_double (- x) == - round_double x.
Proof.
  destruct (Qeq_dec x 0) as [H0|H0].
  { rewrite (round_double_zero x H0), (round_double_zero (- x)); [done|].
    by rewrite H0. }
  assert (¬ - x == 0) as H0'.
  { intros H. apply H0. assert (x == - - x) as -> by ring. by rewrite H. }
  rewrite !round_double_nonzero by done. rewrite ulp_exponent_opp.
  assert (- x / 2 ^ ulp_exponent x == - (x / 2 ^ ulp_exponent x)) as Hq.
  { field. apply Qnot_eq_sym, Qlt_not_eq, pow2_pos. }
  rewrite Hq, round_half_even_opp, inject_Z_opp. ring.
Qed.

Theorem round_double_is_double (x : Q) : is_double (round_double x) = true.
Proof.
  unfold is_double. apply Qeq_bool_iff.
  destruct (Qlt_le_dec 0 x) as [Hpos|Hneg].
  { by apply round_double_idempotent_pos. }
  destruct (Qeq_dec x 0) as [H0|H0].
  { by rewrite (round_double_zero x H0). }
  assert (0 < - x) as Hpos.
  { apply Qle_lteq in Hneg as [Hlt|Heq]; [|by destruct H0].
    apply Qopp_lt_compat in Hlt. by assert (- 0 == 0) as <- by ring. }
  assert (round_double x == - round_double (- x)) as Hx.
  { rewrite round_double_opp. ring. }
  rewrite (round_double_comp _ _ Hx), round_double_opp.
  rewrite round_double_idempotent_pos by done. by symmetry.
Qed.

(** *** Some doubles *)

(** [0.1], [0.1 + 0.2], which is [0.30000000000000004] and not the double
    [0.3], and two ties: [2^53 + 1] goes to the even [2^53], and one and a
    half times the smallest subnormal goes to twice it. *)
Lemma round_double_examples :
  literal (1 # 10) = 3602879701896397 # 36028797018963968 ∧
  fadd (literal (1 # 10)) (literal (2 # 10)) = 1351079888211149 # 4503599627370496 ∧
  literal (3 # 10) = 5404319552844595 # 18014398509481984 ∧
  float_of_int (2 ^ 53 + 1) = inject_Z (2 ^ 53) ∧
  float_of_int (2 ^ 53 + 3) = inject_Z (2 ^ 53 + 4) ∧
  round_double ((3 # 2) * 2 ^ (-1074)) == 2 ^ (-1073).
Proof. repeat split; vm_compute; reflexivity. Qed.

End Float64Facts.

(** ** Scanning for the best candidate: [if score > best_score: ...] *)

Section ScanBest.
Context {E R : Type} (sel : E → bool) (sc : E → Q) (mk : E → R).

Local Abbreviation scan_step := (Vocabulary.scan_step sel sc mk).

(** Either nothing beat the initial score, or the result is the first of the
    selected candidates of largest score. *)
Lemma scan_best_spec (es : list E) (b0 : option R) (s0 : Q) :
  (fold_left scan_step es (b0, s0) = (b0, s0) ∧
   ∀ e, e ∈ es → sel e = true → (sc e <= s0)%Q)
  ∨ (∃ j e, es !! j = Some e ∧ sel e = true ∧
       fold_left scan_step es (b0, s0) = (Some (mk e), sc e) ∧
       (s0 < sc e)%Q ∧
       (∀ j' e', es !! j' = Some e' → sel e' = true → (sc e' <= sc e)%Q) ∧
       (∀ j' e', (j' < j)%nat → es !! j' = Some e' → sel e' = true → (sc e' < sc e)%Q)).
Proof.
  induction es as [|e es IH] using rev_ind.
  - left. split; [done|]. intros e He. by apply elem_of_nil in He.
  - rewrite fold_left_app. cbn [fold_left].
    assert (Hall : ∀ e', e' ∈ es → sel e' = true →
                    (sc e' <= snd (fold_left scan_step es (b0, s0)))%Q).
    { destruct IH as [[-> Hle]|(j & ej & Hj & Hsel & -> & Hlt & Hmax & _)]; [done|].
      intros e' [j' Hj']%list_elem_of_lookup Hs. cbn. by eapply Hmax. }
    assert (Hs0 : (s0 <= snd (fold_left scan_step es (b0, s0)))%Q).
    { destruct IH as [[-> _]|(j & ej & _ & _ & -> & Hlt & _)]; cbn.
      - apply Qle_refl.
      - by apply Qlt_le_weak. }
    assert (Hstep : scan_step (fold_left scan_step es (b0, s0)) e
                    = if sel e
                      then if Qltb (snd (fold_left scan_step es (b0, s0))) (sc e)
                           then (Some (mk e), sc e)
                           else fold_left scan_step es (b0, s0)
                      else fold_left scan_step es (b0, s0)) by done.
    rewrite Hstep. clear Hstep. destruct (sel e) eqn:Hsel.
    + destruct (Qltb _ (sc e)) eqn:Hcmp.
      * apply Qltb_lt in Hcmp. right. exists (length es), e.
        split; [rewrite lookup_app_r by lia; by rewrite Nat.sub_diag|].
        split; [done|]. split; [done|].
        split; [by eapply Qle_lt_trans|].
        split.
        -- intros j' e' Hj' Hs'.
           apply lookup_app_Some in Hj' as [Hj'|[_ Hj']].
           ++ apply Qlt_le_weak. eapply Qle_lt_trans; [|exact Hcmp].
              apply Hall; [|done]. by eapply list_elem_of_lookup_2.
           ++ destruct (j' - length es)%nat; [|done]. injection Hj' as <-.
              apply Qle_refl.
        -- intros j' e' Hlt Hj' Hs'. rewrite lookup_app_l in Hj' by done.
           eapply Qle_lt_trans; [|exact Hcmp].
           apply Hall; [|done]. by eapply list_elem_of_lookup_2.
      * apply Qltb_ge in Hcmp.
        destruct IH as [[Heq Hle]|(j & ej & Hj & Hsj & Heq & Hlt & Hmax & Hfirst)].
        -- left. split; [done|]. rewrite Heq in Hcmp. cbn in Hcmp.
           intros e' [He'|He']%elem_of_app Hs'; [by apply Hle|].
           apply list_elem_of_singleton in He' as ->. done.
        -- right. exists j, ej. rewrite Heq in Hcmp. cbn in Hcmp.
           split; [by apply lookup_app_l_Some|]. split; [done|]. split; [done|].
           split; [done|]. split.
           ++ intros j' e' Hj' Hs'.
              apply lookup_app_Some in Hj' as [Hj'|[_ Hj']]; [by eapply Hmax|].
              destruct (j' - length es)%nat; [|done]. by injection Hj' as <-.
           ++ intros j' e' Hlt' Hj' Hs'. apply lookup_lt_Some in Hj as Hjlt.
              rewrite lookup_app_l in Hj' by lia. by eapply Hfirst.
    + destruct IH as [[Heq Hle]|(j & ej & Hj & Hsj & Heq & Hlt & Hmax & Hfirst)].
      * left. split; [done|].
        intros e' [He'|He']%elem_of_app Hs'; [by apply Hle|].
        apply list_elem_of_singleton in He' as ->. congruence.
      * right. exists j, ej.
        split; [by apply lookup_app_l_Some|]. split; [done|]. split; [done|].
        split; [done|]. split.
        -- intros j' e' Hj' Hs'.
           apply lookup_app_Some in Hj' as [Hj'|[_ Hj']]; [by eapply Hmax|].
           destruct (j' - length es)%nat; [|done]. injection Hj' as <-. congruence.
        -- intros j' e' Hlt' Hj' Hs'. apply lookup_lt_Some in Hj as Hjlt.
           rewrite lookup_app_l in Hj' by lia. by eapply Hfirst.
Qed.

End ScanBest.

(** ** event_aggregator.py and quality_selector.py: selection of the best detection *)

Module SelectionFacts.
Import EventAggregator QualitySelector Vocabulary Selection.

Lemma consider_scan_step (pid : Z) (clip : Clip) (frame_idx : nat)
    (st : BestState) (person : Detection) :
  consider pid clip frame_idx st person
  = scan_step (of_person pid) entry_score keyframe_of st (clip, frame_idx, person).
Proof. done. Qed.

Lemma scan_frames_entries (pid : Z) (clip : Clip) (frames : list (list Detection))
    (g : nat → nat) (st : BestState) :
  fold_left (λ st '(frame_idx, frame_people),
               fold_left (consider pid clip frame_idx) frame_people st)
            (imap (λ i x, (g i, x)) frames) st
  = fold_left (scan_step (of_person pid) entry_score keyframe_of)
      (concat (imap (λ i frame_people,
                       map (λ person, (clip, g i, person)) frame_people) frames)) st.
Proof.
  revert g st. induction frames as [|fr frames IH]; intros g st; [done|].
  cbn [imap concat fold_left]. rewrite fold_left_app.
  rewrite <- (IH (g ∘ S)). f_equal.
  generalize st. clear. induction fr as [|p fr IH]; intros st; [done|].
  cbn [map fold_left]. by rewrite IH.
Qed.

Lemma scan_clip_entries (pid : Z) (st : BestState) (clip : Clip) :
  scan_clip pid st clip
  = fold_left (scan_step (of_person pid) entry_score keyframe_of) (clip_entries clip) st.
Proof. apply (scan_frames_entries pid clip (people_detected clip) id). Qed.

Lemma select_keyframe_entries (clips : list Clip) (pid : Z) :
  select_keyframe clips pid
  = fst (fold_left (scan_step (of_person pid) entry_score keyframe_of)
                   (event_entries clips) (None, (-1)%Q)).
Proof.
  unfold select_keyframe, event_entries. f_equal.
  generalize (@None Keyframe, (-1)%Q).
  induction clips as [|c clips IH]; intros st; [done|].
  cbn [map concat fold_left]. by rewrite fold_left_app, IH, scan_clip_entries.
Qed.

Lemma select_keyframe_spec (clips : list Clip) (pid : Z) :
  match select_keyframe clips pid with
  | Some kf =>
      ∃ j e, first_best entry_score (of_person pid) (event_entries clips) j e ∧
             kf = keyframe_of e ∧ (-1 < entry_score e)%Q
  | None =>
      ∀ e, e ∈ event_entries clips → of_person pid e = true → (entry_score e <= -1)%Q
  end.
Proof.
  rewrite select_keyframe_entries.
  destruct (scan_best_spec (of_person pid) entry_score keyframe_of
              (event_entries clips) None (-1)%Q)
    as [[-> Hle]|(j & e & Hj & Hsel & -> & Hlt & Hmax & Hfirst)]; cbn [fst].
  - exact Hle.
  - exists j, e. by repeat split.
Qed.

Lemma select_keyframes_lookup (clips : list Clip) (people_ids : gset Z) (pid : Z) :
  _select_keyframes clips people_ids !! pid
  = if decide (pid ∈ people_ids) then select_keyframe clips pid else None.
Proof.
  unfold _select_keyframes. rewrite map_lookup_imap, lookup_gset_to_gmap.
  destruct (decide (pid ∈ people_ids)) as [Hin|Hin].
  - by rewrite option_guard_True.
  - by rewrite option_guard_False.
Qed.

Section Sorting.
Variable float_pow : Q → Q → Q.

Lemma head_insert_desc (x : Q * nat * Detection) (l : list (Q * nat * Detection)) :
  head (insert_desc x l)
  = match head l with
    | Some y => if Qltb (key x) (key y) then Some y else Some x
    | None => Some x
    end.
Proof. destruct l as [|y l]; [done|]. simpl. unfold key. by destruct (Qltb _ _). Qed.

Lemma head_sort_desc (l : list (Q * nat * Detection)) :
  match head (sort_desc l) with
  | Some x => ∃ j, first_best key (λ _, true) l j x
  | None => l = []
  end.
Proof.
  induction l as [|x l IH]; [done|].
  cbn [sort_desc foldr]. fold (sort_desc l). rewrite head_insert_desc.
  destruct (head (sort_desc l)) as [y|].
  - destruct IH as (j & Hj & _ & Hmax & Hfirst).
    destruct (Qltb (key x) (key y)) eqn:Hcmp.
    + apply Qltb_lt in Hcmp. exists (S j). split; [done|]. split; [done|]. split.
      * intros [|j'] e' He' _; simpl in He'.
        -- injection He' as <-. by apply Qlt_le_weak.
        -- by eapply Hmax.
      * intros [|j'] e' Hlt He' _; simpl in He'.
        -- by injection He' as <-.
        -- eapply Hfirst; [|done..]. lia.
    + apply Qltb_ge in Hcmp. exists 0%nat. split; [done|]. split; [done|]. split.
      * intros [|j'] e' He' _; simpl in He'.
        -- injection He' as <-. apply Qle_refl.
        -- eapply Qle_trans; [|exact Hcmp]. by eapply Hmax.
      * intros j' e' Hlt. lia.
  - subst l. exists 0%nat. split; [done|]. split; [done|]. split.
    + intros [|j'] e' He' _; simpl in He'; [|done]. injection He' as <-. apply Qle_refl.
    + intros j' e' Hlt. lia.
Qed.

Lemma select_best_spec (detection_list : list Detection) :
  match select_best float_pow detection_list with
  | Some d => ∃ j, first_best (_calculate_score float_pow) any_detection detection_list j d
  | None => detection_list = []
  end.
Proof.
  unfold select_best.
  destruct detection_list as [|d0 [|d1 l]]; [done| |].
  - exists 0%nat. split; [done|]. split; [done|]. split.
    + intros [|j'] e' He' _; simpl in He'; [|done]. injection He' as <-. apply Qle_refl.
    + intros j' e' Hlt. lia.
  - set (dl := d0 :: d1 :: l).
    pose proof (head_sort_desc
      (imap (λ idx det, (_calculate_score float_pow det, idx, det)) dl)) as Hhead.
    destruct (sort_desc _) as [|[[best_score best_idx] best_det] rest]; [done|].
    cbn [head] in Hhead. destruct Hhead as (j & Hj & _ & Hmax & Hfirst).
    rewrite list_lookup_imap in Hj.
    destruct (dl !! j) as [dj|] eqn:Hdj; [|done]. injection Hj as <- <- <-.
    exists j. split; [done|]. split; [done|]. split.
    + intros j' d' Hd' _.
      apply (Hmax j' (_calculate_score float_pow d', j', d')); [|done].
      by rewrite list_lookup_imap, Hd'.
    + intros j' d' Hlt Hd' _.
      apply (Hfirst j' (_calculate_score float_pow d', j', d')); [done| |done].
      by rewrite list_lookup_imap, Hd'.
Qed.

End Sorting.

End SelectionFacts.

Module SelectionProperties.
Import EventAggregator QualitySelector Vocabulary Selection SelectionFacts.

(** The two score formulas, written out.  Each operation is the float
    operation: the exact one followed by the rounding to a double. *)
Lemma detection_score_formula (d : Detection) :
  _calculate_detection_score d
  = let base :=
      Float64.fadd (if String.eqb (method_or_unknown d) "face" then 100
                    else if String.eqb (method_or_unknown d) "body" then 50 else 0)
                   (Float64.fmul (default 0%Q (confidence d)) 10) in
    match bbox d with
    | Some b =>
      Float64.fadd base (Float64.fmul (Float64.float_of_int (bbox_area b))
                                      (Float64.literal (1 # 100)))
    | None => base
    end.
Proof.
  unfold _calculate_detection_score.
  destruct (String.eqb (method_or_unknown d) "face"),
    (String.eqb (method_or_unknown d) "body"), (bbox d); reflexivity.
Qed.

Lemma quality_score_formula (float_pow : Q → Q → Q) (d : Detection) :
  _calculate_score float_pow d
  = let base :=
      Float64.fadd (if String.eqb (method_or_unknown d) "face" then 10000
                    else if String.eqb (method_or_unknown d) "body" then 5000 else 0)
                   (Float64.fmul (default 0%Q (confidence d)) 100) in
    match bbox d with
    | Some b =>
      Float64.fsub
        (Float64.fadd base (Float64.fmul (Float64.float_of_int (bbox_area b)) 1))
        (Float64.fmul (distance_from_center float_pow b) (1 # 2))
    | None => base
    end.
Proof.
  unfold _calculate_score.
  destruct (String.eqb (method_or_unknown d) "face"),
    (String.eqb (method_or_unknown d) "body"),
    (String.eqb (method_or_unknown d) "new"), (bbox d); reflexivity.
Qed.

(** C3, as the code has it.  Phase D ([_select_keyframes]) gives a person
    of the event the first detection, in clip, frame and position order,
    among that person's detections of largest score, provided that score
    exceeds -1, and no keyframe otherwise.  Its score is
    [100·[method=face] + 50·[method=body] + 10·confidence + 0.01·bbox_area],
    evaluated from left to right in double arithmetic, every product and sum
    rounded.  Phase G ([select_best]) uses another score,
    [10000·[method=face] + 5000·[method=body] + 100·confidence + bbox_area
     - 0.5·distance_from_center], evaluated in double arithmetic likewise,
    and returns the first detection of largest score. *)
Theorem keyframe_selection (float_pow : Q → Q → Q) (clips : list Clip)
    (people_ids : gset Z) (pid : Z) (detection_list : list Detection) :
  (_select_keyframes clips people_ids !! pid
   = if decide (pid ∈ people_ids) then select_keyframe clips pid else None) ∧
  match select_keyframe clips pid with
  | Some kf =>
      ∃ j e, first_best entry_score (of_person pid) (event_entries clips) j e ∧
             kf = keyframe_of e ∧ (-1 < entry_score e)%Q
  | None =>
      ∀ e, e ∈ event_entries clips → of_person pid e = true → (entry_score e <= -1)%Q
  end ∧
  (∀ d, _calculate_detection_score d
        = let base :=
            Float64.fadd (if String.eqb (method_or_unknown d) "face" then 100
                          else if String.eqb (method_or_unknown d) "body" then 50
                          else 0)
                         (Float64.fmul (default 0%Q (confidence d)) 10) in
          match bbox d with
          | Some b =>
            Float64.fadd base (Float64.fmul (Float64.float_of_int (bbox_area b))
                                            (Float64.literal (1 # 100)))
          | None => base
          end) ∧
  match select_best float_pow detection_list with
  | Some d => ∃ j, first_best (_calculate_score float_pow) any_detection detection_list j d
  | None => detection_list = []
  end ∧
  (∀ d, _calculate_score float_pow d
        = let base :=
            Float64.fadd (if String.eqb (method_or_unknown d) "face" then 10000
                          else if String.eqb (method_or_unknown d) "body" then 5000
                          else 0)
                         (Float64.fmul (default 0%Q (confidence d)) 100) in
          match bbox d with
          | Some b =>
            Float64.fsub
              (Float64.fadd base (Float64.fmul (Float64.float_of_int (bbox_area b)) 1))
              (Float64.fmul (distance_from_center float_pow b) (1 # 2))
          | None => base
          end).
Proof.
  split; [apply select_keyframes_lookup|].
  split; [apply select_keyframe_spec|].
  split; [apply detection_score_formula|].
  split; [apply select_best_spec|].
  apply quality_score_formula.
Qed.

(** C3, counterexample.  For the two sample boxes of person 1, Phase D keeps
    the small confident box (scores 60 and 59), although the large box has
    the larger documented score (5190 against 5450, both boxes being centred
    on the frame centre), which is the one Phase G selects. *)
Lemma keyframe_not_documented_score :
  kf_bbox <$> select_keyframe [Samples.clip_two_boxes] 1
    = Some (bbox Samples.small_confident) ∧
  (_calculate_score Samples.pow_stub Samples.small_confident
   < _calculate_score Samples.pow_stub Samples.large_unsure)%Q ∧
  select_best Samples.pow_stub [Samples.small_confident; Samples.large_unsure]
    = Some Samples.large_unsure.
Proof. split; [|split]; vm_compute; reflexivity. Qed.

(** The scores are doubles.  A box of 13 by 1 seen with confidence 0.125
    and a box of 138 by 1 seen with confidence 0 both score 1.38 in exact
    arithmetic, where the first would be kept; in doubles [138 * 0.01] is
    above [1.25 + 13 * 0.01], and Phase D keeps the second.  Likewise
    [0.57 * 100] is below 57 in doubles. *)
Lemma keyframe_scores_are_rounded :
  (10 * (1 # 8) + inject_Z 13 * (1 # 100) == 10 * 0 + inject_Z 138 * (1 # 100))%Q ∧
  (_calculate_detection_score Samples.narrow_confident
   < _calculate_detection_score Samples.wide_unsure)%Q ∧
  kf_bbox <$> select_keyframe [Samples.clip_narrow_wide] 1
    = Some (bbox Samples.wide_unsure) ∧
  (Float64.fmul (Float64.literal (57 # 100)) 100 < 57)%Q.
Proof. repeat split; vm_compute; reflexivity. Qed.

End SelectionProperties.

(** ** identity_refiner.py *)

Module RefinerFacts.
Import IdentityRefiner Refinement.

Lemma refine_at_outcome (person_stats : gmap (option Z) Stats)
    (frame_people : list Detection) (i : nat) (d : Detection) :
  frame_people !! i = Some d →
  refine_at person_stats frame_people i
  = match outcome person_stats frame_people d with
    | Some (r, m) => alter (set_identity r m) i frame_people
    | None => frame_people
    end.
Proof.
  intros Hd. unfold refine_at, outcome, rule1_fires, has_family_in. rewrite Hd.
  destruct (person_id d) as [z|] eqn:Hpid; cbn [truthy_id];
    [destruct (negb (z =? 0)) eqn:Hz|];
    destruct (String.eqb (role_or_stranger d) "suspected_family") eqn:Es;
    destruct (String.eqb (role_or_stranger d) "stranger") eqn:Et;
    try (apply String.eqb_eq in Es; rewrite Es in *);
    try (apply String.eqb_eq in Et; rewrite Et in *);
    cbn -[event_has_family stranger_total_count Z.leb] in *;
    rewrite ?Hz, ?Es, ?Et, ?andb_true_r, ?andb_false_r;
    cbn -[event_has_family stranger_total_count Z.leb];
    repeat case_match; simplify_eq/=; try done;
    repeat match goal with
    | H : _ && _ = true |- _ => apply andb_true_iff in H as [? ?]
    | H : _ && _ = false |- _ => apply andb_false_iff in H as [?|?]
    end; try congruence;
    try (rewrite Es, Et in *; discriminate).
Qed.

Lemma refine_at_lookup (person_stats : gmap (option Z) Stats)
    (frame_people : list Detection) (k j : nat) :
  refine_at person_stats frame_people k !! j
  = if decide (k = j)
    then apply_outcome person_stats frame_people <$> frame_people !! j
    else frame_people !! j.
Proof.
  destruct (frame_people !! k) as [d|] eqn:Hk.
  - rewrite (refine_at_outcome _ _ _ d Hk). unfold apply_outcome.
    destruct (decide (k = j)) as [->|Hne].
    + rewrite Hk. cbn. destruct (outcome person_stats frame_people d) as [[r m]|].
      * by rewrite list_lookup_alter_eq, Hk.
      * done.
    + destruct (outcome person_stats frame_people d) as [[r m]|]; [|done].
      by rewrite list_lookup_alter_ne.
  - unfold refine_at. rewrite Hk. destruct (decide (k = j)) as [->|Hne]; [|done].
    by rewrite Hk.
Qed.

Lemma outcome_family (person_stats : gmap (option Z) Stats)
    (frame_people : list Detection) (d : Detection) :
  is_family d → apply_outcome person_stats frame_people d = d.
Proof.
  unfold is_family, Detection_role, apply_outcome, outcome, rule1_fires, role_or_stranger.
  intros ->. done.
Qed.

Lemma has_family_in_spec (frame_people : list Detection) :
  has_family_in frame_people = true ↔ ∃ j p, frame_people !! j = Some p ∧ is_family p.
Proof.
  unfold has_family_in. rewrite existsb_exists. split.
  - intros (p & Hp & Hfam). apply list_elem_of_In, list_elem_of_lookup in Hp as [j Hj].
    exists j, p. split; [done|]. by apply bool_decide_eq_true in Hfam.
  - intros (j & p & Hj & Hfam). exists p. split.
    + apply list_elem_of_In. by eapply list_elem_of_lookup_2.
    + by apply bool_decide_eq_true.
Qed.

Lemma refine_at_has_family (person_stats : gmap (option Z) Stats)
    (frame_people : list Detection) (k : nat) :
  has_family_in frame_people = true →
  has_family_in (refine_at person_stats frame_people k) = true.
Proof.
  rewrite !has_family_in_spec. intros (j & p & Hj & Hfam). exists j, p.
  split; [|done]. rewrite refine_at_lookup, Hj. case_decide; [|done].
  cbn. by rewrite outcome_family.
Qed.

Lemma fold_refine_has_family (person_stats : gmap (option Z) Stats)
    (ks : list nat) (frame_people : list Detection) :
  has_family_in frame_people = true →
  has_family_in (fold_left (refine_at person_stats) ks frame_people) = true.
Proof.
  revert frame_people. induction ks as [|k ks IH]; intros fr Hfam; [done|].
  cbn [fold_left]. by apply IH, refine_at_has_family.
Qed.

Lemma fold_refine_lookup_notin (person_stats : gmap (option Z) Stats)
    (ks : list nat) (frame_people : list Detection) (j : nat) :
  j ∉ ks →
  fold_left (refine_at person_stats) ks frame_people !! j = frame_people !! j.
Proof.
  revert frame_people. induction ks as [|k ks IH]; intros fr Hj; [done|].
  cbn [fold_left]. apply not_elem_of_cons in Hj as [Hne Hj].
  rewrite IH by done. rewrite refine_at_lookup. by case_decide.
Qed.

(** Position [i] is rewritten once, when the loop reaches it. *)
Lemma refine_frame_lookup (person_stats : gmap (option Z) Stats)
    (frame_people : list Detection) (i : nat) :
  refine_frame person_stats frame_people !! i
  = apply_outcome person_stats (frame_before person_stats frame_people i)
      <$> frame_people !! i.
Proof.
  unfold refine_frame, frame_before.
  destruct (frame_people !! i) as [d|] eqn:Hi.
  - apply lookup_lt_Some in Hi as Hlt.
    replace (length frame_people) with (i + S (length frame_people - S i))%nat by lia.
    rewrite seq_app, fold_left_app. cbn [seq fold_left Nat.add].
    rewrite fold_refine_lookup_notin.
    + rewrite refine_at_lookup. rewrite decide_True by lia.
      rewrite fold_refine_lookup_notin, Hi; [done|].
      rewrite list_elem_of_In, in_seq. lia.
    + rewrite list_elem_of_In, in_seq. lia.
  - rewrite fold_refine_lookup_notin, Hi; [done|].
    apply lookup_ge_None in Hi. rewrite list_elem_of_In, in_seq. lia.
Qed.

End RefinerFacts.

Module RefinerProperties.
Import IdentityRefiner Refinement RefinerFacts.

(** C4, as the code has it.  Take a detection [d] resolved as
    suspected_family or stranger whose frame's detection list holds a family
    detection.  When [d] carries a non-zero person id it ends as family: with
    method refined_from_context, or with method refined_from_suspected when
    rule 1 promoted it first (a suspected family member counted at least 3
    times in the event).  When [d] carries no person id it does not become
    family. *)
Theorem refine_clip_identities_rule3 (person_stats : gmap (option Z) Stats)
    (clip : Clip) (f i : nat) (frame_people : list Detection) (d : Detection) :
  people_detected clip !! f = Some frame_people →
  frame_people !! i = Some d →
  has_family_in frame_people = true →
  borderline d →
  ∃ d', (people_detected (_refine_clip_identities clip person_stats) !! f
           ≫= (λ frame, frame !! i)) = Some d' ∧
        if truthy_id (person_id d)
        then d' = set_identity "family"
                    (if rule1_fires person_stats d
                     then "refined_from_suspected" else "refined_from_context") d
        else ¬ is_family d'.
Proof.
  intros Hf Hi Hfam Hb.
  cbn [_refine_clip_identities people_detected].
  rewrite list_lookup_fmap, Hf. cbn. rewrite refine_frame_lookup, Hi. cbn.
  eexists. split; [done|].
  pose proof (fold_refine_has_family person_stats (seq 0 i) frame_people Hfam) as Hfam'.
  fold (frame_before person_stats frame_people i) in Hfam'.
  unfold apply_outcome, outcome. rewrite Hfam'.
  destruct (truthy_id (person_id d)) eqn:Hid.
  - destruct (rule1_fires person_stats d); [done|].
    destruct (person_id d) as [z|]; [|done].
    rewrite (bool_decide_eq_false_2 (Some z = None)) by done.
    rewrite andb_false_r. cbn [andb].
    destruct Hb as [-> | ->]; done.
  - assert (rule1_fires person_stats d = false) as ->.
    { unfold rule1_fires. rewrite Hid. by rewrite andb_false_r. }
    rewrite !andb_false_r.
    assert (Hnf : ¬ is_family d).
    { unfold is_family, Detection_role. intros Hr.
      unfold borderline, role_or_stranger in Hb. rewrite Hr in Hb.
      destruct Hb; discriminate. }
    destruct (_ && _); [|done].
    unfold is_family, Detection_role. cbn. discriminate.
Qed.

(** The stranger with person id 3 of the sample clip, seen next to person 1,
    becomes family with method refined_from_context. *)
Lemma refine_clip_identities_rule3_witness :
  ∃ d', (people_detected
           (_refine_clip_identities Samples.clip_known_stranger
              (_analyze_person_appearances [Samples.clip_known_stranger])) !! 0%nat
         ≫= (λ frame, frame !! 1%nat)) = Some d' ∧
        d' = set_identity "family" "refined_from_context" Samples.known_stranger3.
Proof.
  destruct (refine_clip_identities_rule3
              (_analyze_person_appearances [Samples.clip_known_stranger])
              Samples.clip_known_stranger 0 1
              [Samples.family1; Samples.known_stranger3] Samples.known_stranger3)
    as (d' & Hd' & Heq).
  - reflexivity.
  - reflexivity.
  - reflexivity.
  - right. reflexivity.
  - exists d'. split; [exact Hd'|]. exact Heq.
Defined.

(** C4, counterexample.  A stranger without person id in the frame of a
    family member is left a stranger with method new; and a suspected family
    member counted three times in the event is promoted with method
    refined_from_suspected, not refined_from_context. *)
Lemma rule3_not_every_detection :
  people_detected
    (_refine_clip_identities Samples.clip_mixed
       (_analyze_person_appearances [Samples.clip_mixed]))
  = [[Samples.family1; Samples.stranger0]] ∧
  people_detected
    (_refine_clip_identities Samples.clip_suspected_thrice
       (_analyze_person_appearances [Samples.clip_suspected_thrice])) !! 0%nat
  = Some [Samples.family1;
          set_identity "family" "refined_from_suspected" Samples.suspected2].
Proof. split; vm_compute; reflexivity. Qed.

End RefinerProperties.

(** ** persistence_pipeline.py *)

Module PersistenceProperties.
Import Persistence_Pipeline.

Lemma standard_match_method_unknown (m : string) :
  m ∉ ["face"; "body"; "new"; "refined_from_suspected"; "refined_from_stranger";
       "refined_from_context"] →
  standard_match_method m = "unknown".
Proof.
  intros Hm. unfold standard_match_method.
  destruct (String.eqb_spec m "face") as [->|_]; [set_solver|].
  destruct (String.eqb_spec m "body") as [->|_]; [set_solver|].
  destruct (String.eqb_spec m "new") as [->|_]; [set_solver|].
  case_bool_decide; [set_solver|done].
Qed.

(** C10.  When the representative detection of a person was resolved by the
    soft-body path (method soft_match, left as it is by the refiner) and
    carries a 2048-dimensional body vector, the stored row has match_method
    'unknown'; the mapping sends every method other than face, body, new and
    the three refined_* methods to 'unknown'. *)
Theorem soft_match_stored_as_unknown (float_pow : Q → Q → Q) (event_id : string)
    (person_id : Z) (detection_list : list Detection) (best : Detection) (v : Vec) :
  QualitySelector.select_best float_pow detection_list = Some best →
  method best = Some "soft_match" →
  body_embedding best = Some v →
  length v = VectorAdapter.BODY_DIM →
  appearance_of float_pow event_id person_id detection_list
    = Some {| app_event_id := event_id; app_person_id := person_id;
              match_method := "unknown"; body_embedding_pgvector := v |} ∧
  (∀ m, m ∉ ["face"; "body"; "new"; "refined_from_suspected"; "refined_from_stranger";
             "refined_from_context"] →
        standard_match_method m = "unknown").
Proof.
  intros Hbest Hm Hv Hlen. split; [|apply standard_match_method_unknown].
  unfold appearance_of, VectorAdapter.to_pgvector_body, VectorAdapter.to_pgvector.
  rewrite Hbest, Hv. rewrite bool_decide_eq_true_2 by done.
  unfold method_or_unknown. rewrite Hm. done.
Qed.

Lemma soft_match_stored_as_unknown_witness :
  appearance_of Samples.pow_stub "event-1" 1 [Samples.soft_matched1]
  = Some {| app_event_id := "event-1"; app_person_id := 1;
            match_method := "unknown";
            body_embedding_pgvector := Samples.body_vector |}.
Proof.
  apply (soft_match_stored_as_unknown Samples.pow_stub "event-1" 1
           [Samples.soft_matched1] Samples.soft_matched1 Samples.body_vector).
  - reflexivity.
  - reflexivity.
  - reflexivity.
  - vm_compute. reflexivity.
Defined.

End PersistenceProperties.

(** ** frame_sampler.py *)

Module FrameSamplerFacts.
Import FrameSampler.

Lemma first_kept_here (s c : Z) :
  0 < s → c mod s = 0 →
  (- c) mod s = 0 ∧ (- (c + 1)) mod s = s - 1.
Proof.
  intros Hs Hc. split.
  - by apply Z.mod_opp_l_z; [lia|].
  - replace (- (c + 1)) with (- c + (s - 1) + (-1) * s) by lia.
    rewrite Z.mod_add by lia. rewrite <- Zplus_mod_idemp_l.
    rewrite Z.mod_opp_l_z by (done || lia). apply Z.mod_small. lia.
Qed.

Lemma first_kept_later (s c : Z) :
  0 < s → c mod s ≠ 0 →
  1 ≤ (- c) mod s ∧ (- (c + 1)) mod s = (- c) mod s - 1.
Proof.
  intros Hs Hc.
  pose proof (Z.mod_pos_bound c s Hs) as Hb.
  rewrite (Z.mod_opp_l_nz c s) by (done || lia).
  split; [lia|].
  replace (- (c + 1)) with (- c - 1) by lia.
  rewrite <- Zminus_mod_idemp_l. rewrite (Z.mod_opp_l_nz c s) by (done || lia).
  apply Z.mod_small. lia.
Qed.

(** With a positive stride the loop keeps the frames whose count is a
    multiple of the stride. *)
Lemma sample_loop_lookup {Frame : Type} (s c : Z) (reads : list Frame) :
  0 < s →
  ∃ frames, sample_loop s c reads = Returned frames ∧
    ∀ k, frames !! k = reads !! (Z.to_nat ((- c) mod s) + k * Z.to_nat s)%nat.
Proof.
  intros Hs. revert c. induction reads as [|frame rest IH]; intros c.
  - exists []. split; [done|]. intros k. by rewrite !lookup_nil.
  - cbn [sample_loop]. destruct (Z.eqb_spec s 0) as [?|_]; [lia|].
    destruct (IH (c + 1)) as (frames & -> & Hlookup).
    eexists. split; [done|]. intros k.
    destruct (Z.eqb_spec (c mod s) 0) as [Hc|Hc].
    + destruct (first_kept_here s c Hs Hc) as [H0 H1]. rewrite H0.
      destruct k as [|k]; [done|]. cbn [lookup list_lookup].
      rewrite Hlookup, H1.
      replace (Z.to_nat 0 + S k * Z.to_nat s)%nat
        with (S (Z.to_nat (s - 1) + k * Z.to_nat s)) by lia.
      done.
    + destruct (first_kept_later s c Hs Hc) as [H0 H1].
      rewrite Hlookup, H1.
      replace (Z.to_nat ((- c) mod s) + k * Z.to_nat s)%nat
        with (S (Z.to_nat ((- c) mod s - 1) + k * Z.to_nat s)) by lia.
      done.
Qed.

Lemma int_of_float_floor (x : Q) : (0 <= x)%Q → int_of_float x = Qfloor x.
Proof.
  destruct x as [n d]. unfold int_of_float, Qfloor, Qle. cbn. intros Hn.
  apply Z.quot_div_nonneg; lia.
Qed.

Lemma skip_step_positive (video_fps fps : Q) :
  (0 < video_fps)%Q → (0 < fps)%Q →
  skip_step video_fps fps = Qfloor (Float64.fdiv video_fps fps).
Proof.
  intros Hv Hf. unfold skip_step.
  rewrite (proj2 (Qltb_lt 0 video_fps) Hv), (proj2 (Qltb_lt 0 fps) Hf). cbn [andb].
  apply int_of_float_floor. apply Float64Facts.round_double_nonneg.
  apply Qlt_le_weak, Qlt_shift_div_l; [done|]. by rewrite Qmult_0_l.
Qed.

Lemma skip_step_default (video_fps fps : Q) :
  (video_fps <= 0)%Q ∨ (fps <= 0)%Q → skip_step video_fps fps = 30.
Proof.
  intros H. unfold skip_step.
  destruct H as [H|H]; apply Qltb_ge in H; rewrite H; [done|by rewrite andb_false_r].
Qed.


End FrameSamplerFacts.

Module FrameSamplerProperties.
Import FrameSampler FrameSamplerFacts.




(** The stride is taken of doubles.  The rates 29.97 and 1.11 as written
    have the quotient 27, while the doubles nearest to them have a double
    quotient below 27: the stride is 26.  At 6 fps and a target of 0.1 fps
    the exact quotient of the doubles is below 60 and their double quotient
    is 60: the stride is 60. *)
Lemma stride_of_the_double_quotient :
  Qfloor ((2997 # 100) / (111 # 100)) = 27 ∧
  skip_step (Float64.literal (2997 # 100)) (Float64.literal (111 # 100)) = 26 ∧
  Qfloor (6 / Float64.literal (1 # 10)) = 59 ∧
  skip_step 6 (Float64.literal (1 # 10)) = 60.
Proof. repeat split; vm_compute; reflexivity. Qed.

End FrameSamplerProperties.

(** ** user_retrieval_pipeline.py *)

Module RetrievalProperties.
Import Retrieval.

Section Pipeline.
Variable parse : string → QueryObj.
Variable _retrieve_summary : QueryObj → list Evidence.
Variable _retrieve_detail : QueryObj → list Evidence.
Variable materialize : list Evidence → list Evidence.
Variable _build_system_prompt : QueryObj → string.
Variable _build_user_prompt : string → list Evidence → QueryObj → string.
Variable generate : string → string → option string.
Variable strip : string → string.
Variable fallback_text : list Evidence → string.

(** C8.  When the retrieval for a question yields no record, [answer]
    returns the fixed no-records message with evidence_count 0 and no
    images, and it submits nothing to the LLM gateway. *)
Theorem answer_no_records (user_query : string) :
  retrieve _retrieve_summary _retrieve_detail (parse user_query) = [] →
  answer parse _retrieve_summary _retrieve_detail materialize _build_system_prompt
         _build_user_prompt generate strip fallback_text user_query
  = ({| result := {| answer_text := no_result_message;
                     evidence_count := 0;
                     has_images := false;
                     images := [] |};
        query_obj := parse user_query;
        retrieved_records := [] |}, []).
Proof. intros Hnone. unfold answer. by rewrite Hnone. Qed.

End Pipeline.

(** On an empty store the question of scenario S8 gets the fixed message and
    the list of LLM calls is empty. *)
Lemma answer_no_records_witness :
  llm_calls (answer Samples.parse_default Samples.empty_store Samples.empty_store
               Samples.keep_records Samples.system_prompt_stub Samples.user_prompt_stub
               Samples.llm_echo Samples.strip_id Samples.fallback_stub
               "9月1日有什么活动？") = [] ∧
  answer_text (result (fst (answer Samples.parse_default Samples.empty_store
               Samples.empty_store Samples.keep_records Samples.system_prompt_stub
               Samples.user_prompt_stub Samples.llm_echo Samples.strip_id
               Samples.fallback_stub "9月1日有什么活动？"))) = no_result_message.
Proof.
  rewrite (answer_no_records Samples.parse_default Samples.empty_store
             Samples.empty_store Samples.keep_records Samples.system_prompt_stub
             Samples.user_prompt_stub Samples.llm_echo Samples.strip_id
             Samples.fallback_stub "9月1日有什么活动？").
  - split; reflexivity.
  - reflexivity.
Defined.

End RetrievalProperties.

(** ** daily_summary_pipeline.py *)

Module DailySummaryFacts.
Import DailySummaries.





Lemma filter_overwrite_for_date (target_date : Z) (text : string) (total now : Z)
    (rows : list DailySummary) :
  filter (for_date target_date)
    (map (λ row, if decide (for_date target_date row)
                 then overwrite text total now row else row) rows)
  = map (overwrite text total now) (filter (for_date target_date) rows).
Proof.
  induction rows as [|x l IH]; [done|].
  cbn [map]. destruct (decide (for_date target_date x)) as [Hx|Hx].
  - rewrite !filter_cons_True by done. cbn [map]. by rewrite IH.
  - rewrite !filter_cons_False by done. done.
Qed.

Lemma filter_overwrite_others (target_date : Z) (text : string) (total now : Z)
    (rows : list DailySummary) :
  filter (λ row, ¬ for_date target_date row)
    (map (λ row, if decide (for_date target_date row)
                 then overwrite text total now row else row) rows)
  = filter (λ row, ¬ for_date target_date row) rows.
Proof.
  induction rows as [|x l IH]; [done|].
  cbn [map]. destruct (decide (for_date target_date x)) as [Hx|Hx].
  - rewrite !filter_cons_False; [done|tauto|]. unfold for_date in *. cbn. tauto.
  - rewrite !filter_cons_True by done. by rewrite IH.
Qed.


Lemma fetch_events_count (target_date : Z) (store : Store) :
  Z.of_nat (length (fetch_events target_date store)) = event_count target_date store.
Proof.
  unfold fetch_events, event_count. f_equal.
  apply Permutation_length, merge_sort_Permutation.
Qed.

End DailySummaryFacts.

Module DailySummaryProperties.
Import DailySummaries DailySummaryFacts.

Section Pipeline.
Variable format_timeline : list EventLog → string.
Variable analyze : string → Z → string.




End Pipeline.


End DailySummaryProperties.

(** ** identity_arbiter.py *)

Module ArbiterFacts.
Import IdentityArbiter Arbitration.

Section Matching.
Variable cosine_distance : Vec → Vec → Q.
Variable self : Arbiter.

Lemma closest_elem_of (rows : list Row) (row : Row) :
  closest rows = Some row → row ∈ rows.
Proof.
  unfold closest.
  assert (H : ∀ best, fold_left
             (λ best row, match best with
                          | None => Some row
                          | Some b => if Qltb (similarity b) (similarity row)
                                      then Some row else Some b
                          end) rows best = Some row →
           best = Some row ∨ row ∈ rows).
  { induction rows as [|x rows IH]; intros best Hf; [by left|].
    cbn [fold_left] in Hf. apply IH in Hf as [Hf|Hf]; [|right; by right].
    destruct best as [b|].
    - destruct (Qltb _ _); injection Hf as <-; [right; left|by left].
    - injection Hf as <-. right. left. }
  intros Hf. by destruct (H None Hf).
Qed.

Lemma face_rows_person (face_vec : Vec) (db : Database) (row : Row) :
  row ∈ face_rows cosine_distance self face_vec db →
  ∃ p, p ∈ persons db ∧ row_id row = p_id p ∧ row_role row = p_role p.
Proof.
  unfold face_rows. intros [_ Hrow]%list_elem_of_filter.
  apply list_elem_of_In, in_concat in Hrow as (rows & Hrows & Hrow).
  apply in_map_iff in Hrows as (pf & <- & _).
  apply list_elem_of_In, list_elem_of_omap in Hrow as (p & Hp & Hrow).
  case_decide; [|done]. injection Hrow as <-. by exists p.
Qed.

Lemma match_by_face_cases (fault : Fault) (face_vec : Vec) (body_vec : option Vec)
    (timestamp : Z) (db : Database) :
  _match_by_face cosine_distance self fault face_vec body_vec timestamp db = (None, db)
  ∨ ∃ row, closest (face_rows cosine_distance self face_vec db) = Some row ∧
      _match_by_face cosine_distance self fault face_vec body_vec timestamp db
      = (Some (face_identity row body_vec),
         match body_vec with
         | Some b => cache_written (row_id row) b timestamp db
         | None => db
         end).
Proof.
  unfold _match_by_face, try_match_by_face, _update_body_cache.
  destruct (closest (face_rows cosine_distance self face_vec db))
    as [[[[pid name] role] sim]|] eqn:Hc.
  - destruct fault, body_vec as [b|]; cbn; first [by left | right; by eexists].
  - left. by destruct fault.
Qed.

Lemma match_by_body_cases (fault : Fault) (body_vec : Vec) (timestamp : Z)
    (db : Database) :
  _match_by_body cosine_distance self fault body_vec timestamp db = (None, db)
  ∨ ∃ row,
      _match_by_body cosine_distance self fault body_vec timestamp db
      = (Some (body_identity row body_vec),
         cache_written (row_id row) body_vec timestamp db).
Proof.
  unfold _match_by_body, try_match_by_body, _update_body_cache.
  destruct (closest (body_rows cosine_distance self body_vec _ db))
    as [[[[pid name] role] sim]|] eqn:Hc.
  - destruct fault; cbn; first [by left | right; by exists (pid, name, role, sim)].
  - left. by destruct fault.
Qed.

Lemma soft_match_by_body_cases (fault : Fault) (body_vec : Vec) (timestamp : Z)
    (db : Database) :
  _soft_match_by_body cosine_distance self fault body_vec timestamp db = (None, db)
  ∨ ∃ row,
      _soft_match_by_body cosine_distance self fault body_vec timestamp db
      = (Some (soft_identity row body_vec), db).
Proof.
  unfold _soft_match_by_body, try_soft_match_by_body.
  destruct (closest (soft_rows cosine_distance self body_vec _ db))
    as [[[[pid name] role] sim]|] eqn:Hc.
  - destruct fault; cbn; first [by left | right; by exists (pid, name, role, sim)].
  - left. by destruct fault.
Qed.

(** A path whose [try] body raises yields [None] and writes nothing. *)
Lemma caught_raised (db : Database) (body : Outcome (option Identity * Database))
    (e : string) :
  body = Raised e → caught db body = (None, db).
Proof. by intros ->. Qed.

End Matching.

End ArbiterFacts.

Module ArbiterProperties.
Import IdentityArbiter Arbitration ArbiterFacts.

Section Matching.
Variable cosine_distance : Vec → Vec → Q.
Variable self : Arbiter.

Lemma refresh_fields (pid : Z) (b : Vec) (timestamp : Z) (p : Person) :
  p_id (refresh pid b timestamp p) = p_id p ∧
  p_name (refresh pid b timestamp p) = p_name p ∧
  p_role (refresh pid b timestamp p) = p_role p ∧
  first_seen (refresh pid b timestamp p) = first_seen p ∧
  notes (refresh pid b timestamp p) = notes p ∧
  (p_id p ≠ pid → refresh pid b timestamp p = p) ∧
  (p_id p = pid →
   current_body_embedding (refresh pid b timestamp p) = Some b ∧
   body_update_time (refresh pid b timestamp p) = Some timestamp ∧
   last_seen (refresh pid b timestamp p) = Some timestamp).
Proof. unfold refresh. case_decide; repeat split; done. Qed.

Lemma identify_by_body_effect (faults : Faults) (body_vec : option Vec)
    (timestamp : Z) (db : Database) :
  person_faces (snd (identify_by_body cosine_distance self faults body_vec timestamp db))
    = person_faces db ∧
  persons (snd (identify_by_body cosine_distance self faults body_vec timestamp db))
    = expected_persons
        (fst (identify_by_body cosine_distance self faults body_vec timestamp db))
        body_vec timestamp db.
Proof.
  unfold identify_by_body. destruct body_vec as [b|]; [|done].
  destruct (match_by_body_cases cosine_distance self (body_fault faults) b timestamp db)
    as [->|([[[pid name] role] sim] & ->)]; [|done].
  destruct (soft_match_by_body_cases cosine_distance self (soft_fault faults) b
              timestamp db) as [->|([[[pid name] role] sim] & ->)]; done.
Qed.

(** C1, as the code has it.  A call to [identify] leaves [person_faces] as
    it is, and writes [persons] in one case only: the result is a face hit
    or a body hit and a body vector came with the call; then the cache
    fields (current_body_embedding, body_update_time, last_seen) of the
    resolved person, and nothing else, are overwritten.  A face hit without
    body vector, a soft-body hit and a miss write nothing. *)
Theorem identify_cache_effect (faults : Faults) (face_vec body_vec : option Vec)
    (timestamp : Z) (db : Database) :
  person_faces (snd (identify cosine_distance self faults face_vec body_vec timestamp db))
    = person_faces db ∧
  persons (snd (identify cosine_distance self faults face_vec body_vec timestamp db))
    = expected_persons
        (fst (identify cosine_distance self faults face_vec body_vec timestamp db))
        body_vec timestamp db ∧
  (∀ pid b p,
     p_id (refresh pid b timestamp p) = p_id p ∧
     p_name (refresh pid b timestamp p) = p_name p ∧
     p_role (refresh pid b timestamp p) = p_role p ∧
     first_seen (refresh pid b timestamp p) = first_seen p ∧
     notes (refresh pid b timestamp p) = notes p ∧
     (p_id p ≠ pid → refresh pid b timestamp p = p) ∧
     (p_id p = pid →
      current_body_embedding (refresh pid b timestamp p) = Some b ∧
      body_update_time (refresh pid b timestamp p) = Some timestamp ∧
      last_seen (refresh pid b timestamp p) = Some timestamp)).
Proof.
  assert (person_faces (snd (identify cosine_distance self faults face_vec body_vec
                               timestamp db)) = person_faces db ∧
          persons (snd (identify cosine_distance self faults face_vec body_vec
                          timestamp db))
            = expected_persons
                (fst (identify cosine_distance self faults face_vec body_vec
                        timestamp db)) body_vec timestamp db) as [Hfaces Hpersons].
  { unfold identify. destruct face_vec as [f|]; [|apply identify_by_body_effect].
    destruct (match_by_face_cases cosine_distance self (face_fault faults) f body_vec
                timestamp db) as [->|([[[pid name] role] sim] & _ & ->)].
    - apply identify_by_body_effect.
    - by destruct body_vec. }
  split; [exact Hfaces|]. split; [exact Hpersons|].
  intros pid b p. apply refresh_fields.
Qed.

Lemma identify_by_body_role (faults : Faults) (body_vec : option Vec)
    (timestamp : Z) (db : Database) :
  id_role (fst (identify_by_body cosine_distance self faults body_vec timestamp db))
    ∈ ["family"; "suspected_family"; "stranger"].
Proof.
  unfold identify_by_body. destruct body_vec as [b|]; [|set_solver].
  destruct (match_by_body_cases cosine_distance self (body_fault faults) b timestamp db)
    as [->|([[[pid name] role] sim] & ->)]; [|set_solver].
  destruct (soft_match_by_body_cases cosine_distance self (soft_fault faults) b
              timestamp db) as [->|([[[pid name] role] sim] & ->)]; set_solver.
Qed.

(** C9, what the code computes.  [identify] always returns a result.  Its
    role is family, suspected_family or stranger, except on a face hit
    against a person whose stored role is not owner: [_match_by_face] then
    returns the stored role, which the docstring of [identify] does not
    allow for.  A path whose [try] body raises yields None and writes
    nothing, and the next path is tried.  When every path that is attempted
    raises or misses, the result is the stranger result (person_id None,
    method new, confidence 0, the body vector echoed when present) and the
    database is as before. *)
Theorem identify_never_raises (faults : Faults) (face_vec body_vec : option Vec)
    (timestamp : Z) (db : Database) :
  (id_role (fst (identify cosine_distance self faults face_vec body_vec timestamp db))
     ∈ ["family"; "suspected_family"; "stranger"]
   ∨ (id_method (fst (identify cosine_distance self faults face_vec body_vec timestamp db))
        = "face" ∧
      ∃ p, p ∈ persons db ∧
           id_person_id (fst (identify cosine_distance self faults face_vec body_vec
                                timestamp db)) = Some (p_id p) ∧
           id_role (fst (identify cosine_distance self faults face_vec body_vec
                           timestamp db)) = p_role p ∧
           p_role p ≠ "owner")) ∧
  (∀ f e, try_match_by_face cosine_distance self (face_fault faults) f body_vec
            timestamp db = Raised e →
          _match_by_face cosine_distance self (face_fault faults) f body_vec
            timestamp db = (None, db)) ∧
  (∀ b e, try_match_by_body cosine_distance self (body_fault faults) b timestamp db
            = Raised e →
          _match_by_body cosine_distance self (body_fault faults) b timestamp db
            = (None, db)) ∧
  (∀ b e, try_soft_match_by_body cosine_distance self (soft_fault faults) b timestamp db
            = Raised e →
          _soft_match_by_body cosine_distance self (soft_fault faults) b timestamp db
            = (None, db)) ∧
  ((∀ f, face_vec = Some f →
         fst (_match_by_face cosine_distance self (face_fault faults) f body_vec
                timestamp db) = None) →
   (∀ b, body_vec = Some b →
         fst (_match_by_body cosine_distance self (body_fault faults) b timestamp db)
           = None ∧
         fst (_soft_match_by_body cosine_distance self (soft_fault faults) b
                timestamp db) = None) →
   identify cosine_distance self faults face_vec body_vec timestamp db
     = (stranger_result body_vec, db)).
Proof.
  split; [|split; [|split; [|split]]].
  - unfold identify. destruct face_vec as [f|]; [|left; apply identify_by_body_role].
    destruct (match_by_face_cases cosine_distance self (face_fault faults) f body_vec
                timestamp db) as [->|([[[pid name] role] sim] & Hc & ->)].
    + left. apply identify_by_body_role.
    + cbn. destruct (String.eqb_spec role "owner") as [->|Hrole]; [left; set_solver|].
      right. split; [done|].
      apply closest_elem_of, face_rows_person in Hc as (p & Hp & Hid & Hr).
      cbn in Hid, Hr. subst. by exists p.
  - intros f e He. by apply caught_raised with e.
  - intros b e He. by apply caught_raised with e.
  - intros b e He. by apply caught_raised with e.
  - intros Hface Hbody. unfold identify, identify_by_body.
    assert (Hb : match body_vec with
                 | Some body =>
                   match _match_by_body cosine_distance self (body_fault faults) body
                           timestamp db with
                   | (Some result, db0) => (result, db0)
                   | (None, db0) =>
                     match _soft_match_by_body cosine_distance self (soft_fault faults)
                             body timestamp db0 with
                     | (Some soft_result, db1) => (soft_result, db1)
                     | (None, db1) => (stranger_result body_vec, db1)
                     end
                   end
                 | None => (stranger_result body_vec, db)
                 end = (stranger_result body_vec, db)).
    { destruct body_vec as [b|]; [|done].
      destruct (Hbody b eq_refl) as [H1 H2].
      destruct (match_by_body_cases cosine_distance self (body_fault faults) b
                  timestamp db) as [Hm|(row & Hm)]; rewrite Hm in H1 |- *; [|done].
      destruct (soft_match_by_body_cases cosine_distance self (soft_fault faults) b
                  timestamp db) as [Hs|(row & Hs)]; rewrite Hs in H2 |- *; done. }
    destruct face_vec as [f|]; [|exact Hb].
    specialize (Hface f eq_refl).
    destruct (match_by_face_cases cosine_distance self (face_fault faults) f body_vec
                timestamp db) as [Hm|(row & _ & Hm)]; rewrite Hm in Hface |- *;
      [exact Hb|done].
Qed.

End Matching.

(** With the store down during all three paths, the call returns the
    stranger result with the body vector echoed, and writes nothing. *)
Lemma identify_never_raises_witness :
  identify Samples.dot_distance default_arbiter Samples.store_down
    (Some Samples.east) (Some Samples.north) 100 Samples.db_owner_cached
  = (stranger_result (Some Samples.north), Samples.db_owner_cached).
Proof.
  apply (identify_never_raises Samples.dot_distance default_arbiter Samples.store_down
           (Some Samples.east) (Some Samples.north) 100 Samples.db_owner_cached).
  - intros f [= <-]. reflexivity.
  - intros b [= <-]. split; reflexivity.
Defined.

(** C1, counterexample.  A face hit that comes without body vector writes
    nothing: person 1 is recognised by face at time 100 and last_seen stays
    at 0. *)
Lemma face_hit_without_body_vector :
  id_method (fst (identify Samples.dot_distance default_arbiter Samples.no_faults
                    (Some Samples.east) None 100 Samples.db_owner)) = "face" ∧
  id_person_id (fst (identify Samples.dot_distance default_arbiter Samples.no_faults
                       (Some Samples.east) None 100 Samples.db_owner)) = Some 1 ∧
  snd (identify Samples.dot_distance default_arbiter Samples.no_faults
         (Some Samples.east) None 100 Samples.db_owner) = Samples.db_owner ∧
  last_seen <$> head (persons (snd (identify Samples.dot_distance default_arbiter
                         Samples.no_faults (Some Samples.east) None 100
                         Samples.db_owner))) = Some (Some 0).
Proof. repeat split; vm_compute; reflexivity. Qed.

(** C9, the inputs on which the claim fails.  A face hit against an enrolled
    person whose stored role is visitor returns the role visitor, which is
    none of the three roles that the docstring of [identify] lists.  And
    when only the face path raises, the body path still resolves the
    detection to family by body instead of the stranger result: a failing
    path is skipped, it does not end the call. *)
Lemma identify_other_outcomes :
  id_role (fst (identify Samples.dot_distance default_arbiter Samples.no_faults
                  (Some Samples.east) None 100 Samples.db_visitor)) = "visitor" ∧
  try_match_by_face Samples.dot_distance default_arbiter ConnectFails Samples.east
    (Some Samples.north) 100 Samples.db_owner_cached = Raised "psycopg2.Error" ∧
  id_role (fst (identify Samples.dot_distance default_arbiter Samples.face_query_down
                  (Some Samples.east) (Some Samples.north) 100
                  Samples.db_owner_cached)) = "family" ∧
  id_method (fst (identify Samples.dot_distance default_arbiter Samples.face_query_down
                    (Some Samples.east) (Some Samples.north) 100
                    Samples.db_owner_cached)) = "body".
Proof. repeat split; vm_compute; reflexivity. Qed.

End ArbiterProperties.

(** ** stream_sorter.py: what the sort keeps *)

Module SortingLaws.
Import StreamSorter Vocabulary Grouping.

Lemma insert_by_time_perm (c : Clip) (l : list Clip) : insert_by_time c l ≡ₚ c :: l.
Proof.
  induction l as [|x xs IH]; simpl; [done|].
  case_match; [done|]. rewrite IH. apply Permutation_swap.
Qed.

Lemma sorted_by_time_perm (l : list Clip) : sorted_by_time l ≡ₚ l.
Proof.
  induction l as [|c l IH]; [done|].
  unfold sorted_by_time in *. simpl. rewrite insert_by_time_perm. by f_equiv.
Qed.

Lemma checked_valid (r : RawClip) : is_Some (checked r) ↔ _is_valid_clip r = true.
Proof.
  unfold checked, _is_valid_clip.
  destruct (raw_time r), (raw_cam r), (raw_people_detected r); simpl;
    split; (try done); intros []; done.
Qed.

Lemma omap_checked_filter (raw : list RawClip) :
  omap checked (filter (λ c, _is_valid_clip c = true) raw) = valid_clips raw.
Proof.
  unfold valid_clips.
  induction raw as [|r raw IH]; [done|].
  destruct (_is_valid_clip r) eqn:E.
  - rewrite filter_cons_True by done. csimpl. by rewrite IH.
  - rewrite filter_cons_False by (by rewrite E). csimpl.
    destruct (checked r) eqn:Hc; [|done].
    assert (is_Some (checked r)) as Hs%checked_valid by done. congruence.
Qed.

Lemma sort_and_validate_eq (raw : list RawClip) :
  sort_and_validate raw = sorted_by_time (valid_clips raw).
Proof. destruct raw; [done|]. unfold sort_and_validate. by rewrite omap_checked_filter. Qed.

Lemma valid_clips_length (raw : list RawClip) :
  length (valid_clips raw) = length (filter (λ c, _is_valid_clip c = true) raw).
Proof.
  unfold valid_clips.
  induction raw as [|r raw IH]; [done|].
  destruct (_is_valid_clip r) eqn:E.
  - rewrite filter_cons_True by done.
    assert (is_Some (checked r)) as [c Hc] by (by apply checked_valid).
    csimpl. rewrite Hc. simpl. by rewrite IH.
  - rewrite filter_cons_False by (by rewrite E). csimpl.
    destruct (checked r) eqn:Hc; [|done].
    assert (is_Some (checked r)) as Hs%checked_valid by done. congruence.
Qed.

Lemma filter_insert_by_time (t : Z) (c : Clip) (l : list Clip) :
  filter (λ x, time x = t) (insert_by_time c l) = filter (λ x, time x = t) (c :: l).
Proof.
  induction l as [|x xs IH]; simpl; [done|].
  destruct (Z.leb_spec (time c) (time x)) as [Hle|Hlt]; [done|].
  destruct (decide (time x = t)) as [Hx|Hx].
  - rewrite (filter_cons_True _ x) by done. rewrite IH.
    rewrite (filter_cons_False _ c) by lia.
    rewrite (filter_cons_False _ c) by lia.
    by rewrite (filter_cons_True _ x).
  - rewrite (filter_cons_False _ x) by done. rewrite IH.
    destruct (decide (time c = t)).
    + rewrite !(filter_cons_True _ c) by done. by rewrite (filter_cons_False _ x).
    + rewrite !(filter_cons_False _ c) by done. by rewrite (filter_cons_False _ x).
Qed.

(** X1.  [sort_and_validate] returns the valid clips of its input, each
    exactly once, in ascending order of time; the clips that fail
    [_is_valid_clip] are the only ones dropped. *)
Theorem sort_and_validate_keeps_valid_clips (clip_objs : list RawClip) :
  StronglySorted time_le (sort_and_validate clip_objs) ∧
  sort_and_validate clip_objs ≡ₚ valid_clips clip_objs ∧
  length (sort_and_validate clip_objs)
    = length (filter (λ c, _is_valid_clip c = true) clip_objs).
Proof.
  rewrite sort_and_validate_eq. split_and!.
  - apply FusionFacts.sorted_by_time_sorted.
  - apply sorted_by_time_perm.
  - rewrite sorted_by_time_perm. apply valid_clips_length.
Qed.

(** X2.  The sort is stable: the clips that carry one and the same
    timestamp come out in the order in which the input listed them. *)
Theorem sort_and_validate_stable (clip_objs : list RawClip) (t : Z) :
  filter (λ c, time c = t) (sort_and_validate clip_objs)
  = filter (λ c, time c = t) (valid_clips clip_objs).
Proof.
  rewrite sort_and_validate_eq.
  induction (valid_clips clip_objs) as [|c l IH]; [done|].
  unfold sorted_by_time in *. simpl. rewrite filter_insert_by_time.
  destruct (decide (time c = t)).
  - rewrite !(filter_cons_True _ c) by done. by rewrite IH.
  - rewrite !(filter_cons_False _ c) by done. by rewrite IH.
Qed.

End SortingLaws.

(** ** session_manager.py and the grouping loop of event_fusion_pipeline.py *)

Module GroupingFacts.
Import StreamSorter SessionManager Event_Fusion_Pipeline FusionPolicy Vocabulary Grouping
       Packing.

Lemma consecutive_snoc {A : Type} (l : list A) (c a b : A) :
  consecutive (l ++ [c]) a b → consecutive l a b ∨ (last l = Some a ∧ b = c).
Proof.
  intros (i & Hi & HSi).
  assert (S i < length (l ++ [c]))%nat as Hlt by (by eapply lookup_lt_Some).
  rewrite length_app in Hlt. simpl in Hlt.
  destruct (decide (S i < length l)%nat).
  - left. exists i. rewrite lookup_app_l in Hi by lia.
    by rewrite lookup_app_l in HSi by lia.
  - right. assert (S i = length l) as Hlen by lia.
    rewrite lookup_app_l in Hi by lia.
    rewrite lookup_app_r in HSi by lia.
    replace (S i - length l)%nat with 0%nat in HSi by lia. simpl in HSi.
    split; [|congruence]. rewrite last_lookup.
    by replace (pred (length l)) with i by lia.
Qed.

Lemma consecutive_singleton {A : Type} (c a b : A) : ¬ consecutive [c] a b.
Proof. intros (i & _ & HSi). by destruct i. Qed.

Lemma consecutive_nil {A : Type} (a b : A) : ¬ consecutive [] a b.
Proof. by intros (i & Hi & _). Qed.

Lemma group_step_grouped (T : Z) (st : list (list Clip) * list Clip) (c : Clip) :
  grouped T st → grouped T (group_step T st c).
Proof.
  destruct st as [evs buf]. intros (Hnil & Hevs & Hbuf & Hmid & Hlast). simpl in *.
  unfold group_step, process_clip.
  destruct (last buf) as [last_clip|] eqn:Hl.
  - destruct (is_connected T last_clip c) eqn:Hc; simpl.
    + rewrite app_nil_r. split_and!; simpl; try done.
      * by intros []%app_eq_nil.
      * intros a b [H|[Ha ->]]%consecutive_snoc; [by apply Hbuf|]. congruence.
      * intros g1 Hg1 a b Ha Hb. apply (Hlast g1 Hg1 a b Ha).
        destruct buf; [done|]. done.
    + split_and!; simpl; try done.
      * rewrite Forall_app. split; [done|]. by apply Forall_singleton.
      * intros a b []%consecutive_singleton.
      * intros g1 g2 [H|[Hg1 ->]]%consecutive_snoc; [by apply Hmid|]. by apply Hlast.
      * intros g1. rewrite last_snoc. intros [= <-] a b Ha [= <-]. congruence.
  - apply last_None in Hl as ->. rewrite (Hnil eq_refl) in *. simpl.
    split_and!; simpl; try done;
      first [ by intros a b []%consecutive_singleton
            | by intros g1 g2 []%consecutive_nil ].
Qed.

Lemma fold_group_step_grouped (T : Z) (l : list Clip) (st : list (list Clip) * list Clip) :
  grouped T st → grouped T (fold_left (group_step T) l st).
Proof.
  revert st. induction l as [|c l IH]; intros st Hst; [done|].
  simpl. apply IH. by apply group_step_grouped.
Qed.

Lemma group_clips_grouped (T : Z) (sorted_clips : list Clip) :
  Forall (chained T) (group_clips T sorted_clips) ∧
  ∀ g1 g2, consecutive (group_clips T sorted_clips) g1 g2 → split_between T g1 g2.
Proof.
  unfold group_clips.
  pose proof (fold_group_step_grouped T sorted_clips ([], [])) as H.
  destruct (fold_left (group_step T) sorted_clips ([], [])) as [evs buf].
  destruct H as (Hnil & Hevs & Hbuf & Hmid & Hlast); simpl in *.
  { split_and!; simpl; try done.
    - intros a b []%consecutive_nil.
    - intros g1 g2 []%consecutive_nil. }
  unfold finalize. destruct buf as [|c buf].
  - rewrite app_nil_r. done.
  - split.
    + rewrite Forall_app. split; [done|]. by apply Forall_singleton.
    + intros g1 g2 [H|[Hg1 ->]]%consecutive_snoc; [by apply Hmid|]. by apply Hlast.
Qed.

Lemma is_connected_gap (T : Z) (a b : Clip) :
  is_connected T a b = true → time a ≤ time b ∧ time b < time a + T.
Proof.
  unfold is_connected, _check_time_rule.
  intros [Ht _]%andb_true_iff.
  destruct (Z.ltb_spec (time b - time a) 0); [done|].
  apply Z.ltb_lt in Ht. lia.
Qed.

Lemma pack_clips (g : list Clip) :
  g ≠ [] → ∃ E, pack g = Some E ∧ clips E = g ∧ clip_count E = length g.
Proof.
  intros Hg. unfold pack. destruct g as [|c g]; [done|].
  destruct (last (c :: g)) eqn:Hl; [by eexists|].
  by apply last_None in Hl.
Qed.

Lemma refine_event_clip_count (E : GlobalEvent) :
  clip_count (refine_event_identities E) = clip_count E ∧
  length (clips (refine_event_identities E)) = length (clips E).
Proof.
  unfold refine_event_identities. destruct (clips E) eqn:H; [by rewrite H|].
  simpl. by rewrite length_map.
Qed.

Lemma events_of_groups (gs : list (list Clip)) :
  Forall (λ g, g ≠ []) gs →
  length (omap (λ g, refine_event_identities <$> pack g) gs) = length gs ∧
  Forall (λ E, clip_count E = length (clips E) ∧ (1 ≤ clip_count E)%nat)
         (omap (λ g, refine_event_identities <$> pack g) gs) ∧
  sum_list_with clip_count (omap (λ g, refine_event_identities <$> pack g) gs)
    = length (concat gs).
Proof.
  induction 1 as [|g gs Hg Hgs IH]; [done|]. csimpl.
  destruct (pack_clips g Hg) as (E & -> & Hclips & Hcount). csimpl.
  destruct IH as (IH1 & IH2 & IH3).
  destruct (refine_event_clip_count E) as [Hc Hl].
  split_and!.
  - by rewrite IH1.
  - constructor; [|done]. rewrite Hc, Hl, Hclips, Hcount. split; [done|].
    destruct g; [done|]. simpl. lia.
  - rewrite length_app, IH3, Hc, Hcount. done.
Qed.

End GroupingFacts.

Module GroupingLaws.
Import StreamSorter SessionManager Event_Fusion_Pipeline FusionPolicy Vocabulary Grouping
       Packing.

(** X3.  The grouping loop cuts the clip sequence into consecutive,
    non-empty groups: put end to end, the groups are the input. *)
Theorem group_clips_partition (T : Z) (sorted_clips : list Clip) :
  concat (group_clips T sorted_clips) = sorted_clips ∧
  Forall (λ g, g ≠ []) (group_clips T sorted_clips) ∧
  (sorted_clips = [] ↔ group_clips T sorted_clips = []).
Proof.
  destruct (FusionFacts.group_clips_spec T sorted_clips) as [Hne Hcat].
  split_and!; [done..|]. split.
  - intros ->. done.
  - intros Hnil. by rewrite <- Hcat, Hnil.
Qed.

(** X4.  Inside a group every clip is connected to the clip before it; so
    it is not earlier than that clip, and less than the time threshold
    after it. *)
Theorem group_clips_connected (T : Z) (sorted_clips g : list Clip) (k i : nat)
    (a b : Clip) :
  group_clips T sorted_clips !! k = Some g →
  g !! i = Some a → g !! S i = Some b →
  is_connected T a b = true ∧ time a ≤ time b ∧ time b < time a + T.
Proof.
  intros Hg Ha Hb.
  destruct (GroupingFacts.group_clips_grouped T sorted_clips) as [Hall _].
  rewrite Forall_lookup in Hall.
  assert (is_connected T a b = true) as Hc.
  { apply (Hall k g Hg). by exists i. }
  split; [done|]. by apply GroupingFacts.is_connected_gap.
Qed.

Lemma group_clips_connected_witness :
  is_connected 60 (mkClip 0 "doorbell" [[Samples.family1]] None)
                  (mkClip 30 "doorbell" [[Samples.family1]] None) = true ∧
  0 ≤ 30 ∧ 30 < 0 + 60.
Proof.
  apply (group_clips_connected 60
           (sort_and_validate Samples.three_clips)
           [mkClip 0 "doorbell" [[Samples.family1]] None;
            mkClip 30 "doorbell" [[Samples.family1]] None] 0 0); reflexivity.
Defined.

(** X5.  Groups are maximal: the first clip of a group is not connected to
    the last clip of the group before it. *)
Theorem group_clips_maximal (T : Z) (sorted_clips g1 g2 : list Clip) (k : nat)
    (a b : Clip) :
  group_clips T sorted_clips !! k = Some g1 →
  group_clips T sorted_clips !! S k = Some g2 →
  last g1 = Some a → head g2 = Some b →
  is_connected T a b = false.
Proof.
  intros Hg1 Hg2 Ha Hb.
  destruct (GroupingFacts.group_clips_grouped T sorted_clips) as [_ Hsplit].
  apply (Hsplit g1 g2); [|done..]. by exists k.
Qed.

Lemma group_clips_maximal_witness :
  is_connected 60 (mkClip 30 "doorbell" [[Samples.family1]] None)
                  (mkClip 120 "doorbell" [[Samples.family1]] None) = false.
Proof.
  apply (group_clips_maximal 60
           (sort_and_validate Samples.three_clips)
           [mkClip 0 "doorbell" [[Samples.family1]] None;
            mkClip 30 "doorbell" [[Samples.family1]] None]
           [mkClip 120 "doorbell" [[Samples.family1]] None] 0); reflexivity.
Defined.

(** X6.  [run] builds one event per group and accounts for every valid
    clip: no event is empty, [clip_count] is the number of clips of the
    event, and the counts add up to the number of valid input clips. *)
Theorem run_accounts_for_every_clip (T : Z) (raw_clips : list RawClip) :
  length (run T raw_clips) = length (group_clips T (sort_and_validate raw_clips)) ∧
  Forall (λ E, clip_count E = length (clips E) ∧ (1 ≤ clip_count E)%nat)
         (run T raw_clips) ∧
  sum_list_with clip_count (run T raw_clips)
    = length (filter (λ c, _is_valid_clip c = true) raw_clips).
Proof.
  unfold run.
  destruct (FusionFacts.group_clips_spec T (sort_and_validate raw_clips)) as [Hne Hcat].
  destruct (GroupingFacts.events_of_groups _ Hne) as (H1 & H2 & H3).
  split_and!; [done..|].
  rewrite H3, Hcat, SortingLaws.sort_and_validate_eq, SortingLaws.sorted_by_time_perm.
  apply SortingLaws.valid_clips_length.
Qed.

End GroupingLaws.

(** ** event_aggregator.py: what [pack] puts into an event *)

Module PackingFacts.
Import EventAggregator Packing Vocabulary Selection Events.

Lemma people_ids_fold (l : list Detection) (ids : gset Z) :
  fold_left (λ ids person,
    match person_id person with
    | Some z => if truthy_id (Some z) then {[z]} ∪ ids else ids
    | None => ids
    end) l ids = nonzero_ids l ∪ ids.
Proof.
  revert ids. induction l as [|d l IH]; intros ids.
  - unfold nonzero_ids. simpl. apply leibniz_equiv. set_solver.
  - simpl. rewrite IH. unfold nonzero_ids. apply leibniz_equiv.
    destruct (person_id d) as [z|] eqn:Hd; csimpl; rewrite ?Hd; csimpl.
    + destruct (Z.eqb_spec z 0) as [->|Hz]; simpl.
      * rewrite filter_cons_False by (intros H; by apply H). set_solver.
      * rewrite filter_cons_True by done. set_solver.
    + set_solver.
Qed.

Lemma people_ids_of_eq (clips : list Clip) :
  people_ids_of clips = nonzero_ids (event_detections clips).
Proof.
  unfold people_ids_of, event_detections.
  assert (∀ ids, fold_left (λ ids clip,
    fold_left (λ ids frame_people,
      fold_left (λ ids person,
        match person_id person with
        | Some z => if truthy_id (Some z) then {[z]} ∪ ids else ids
        | None => ids
        end) frame_people ids)
      (people_detected clip) ids) clips ids
    = nonzero_ids (concat (map clip_detections clips)) ∪ ids) as H.
  { induction clips as [|c clips IH]; intros ids.
    - unfold nonzero_ids. simpl. apply leibniz_equiv. set_solver.
    - simpl. rewrite IH, fold_left_frames, people_ids_fold.
      unfold nonzero_ids, clip_detections. rewrite omap_app, filter_app, list_to_set_app_L.
      apply leibniz_equiv. set_solver. }
  rewrite H. apply leibniz_equiv. set_solver.
Qed.

Lemma elem_of_event_detections (clips : list Clip) (d : Detection) :
  d ∈ event_detections clips ↔ ∃ c, c ∈ clips ∧ d ∈ clip_detections c.
Proof.
  unfold event_detections. rewrite list_elem_of_In, in_concat. split.
  - intros (l & (c & <- & Hc)%in_map_iff & Hd). exists c.
    by rewrite !list_elem_of_In.
  - intros (c & Hc & Hd). exists (clip_detections c). split.
    + apply in_map. by apply list_elem_of_In.
    + by apply list_elem_of_In.
Qed.

Lemma people_ids_of_spec (clips : list Clip) (z : Z) :
  z ∈ people_ids_of clips ↔
  z ≠ 0 ∧ ∃ c d, c ∈ clips ∧ d ∈ clip_detections c ∧ person_id d = Some z.
Proof.
  rewrite people_ids_of_eq. unfold nonzero_ids.
  rewrite elem_of_list_to_set, list_elem_of_filter, list_elem_of_omap. split.
  - intros (Hz & d & Hd & Hp). split; [done|].
    apply elem_of_event_detections in Hd as (c & Hc & Hd). eauto.
  - intros (Hz & c & d & Hc & Hd & Hp). split; [done|]. exists d. split; [|done].
    apply elem_of_event_detections. eauto.
Qed.

Lemma elem_of_clip_entries (clip : Clip) (e : Clip * nat * Detection) :
  e ∈ clip_entries clip ↔
  ∃ f frame_people d, people_detected clip !! f = Some frame_people ∧
                      d ∈ frame_people ∧ e = (clip, f, d).
Proof.
  unfold clip_entries. rewrite list_elem_of_In, in_concat. split.
  - intros (l & Hl & He). apply list_elem_of_In, list_elem_of_lookup in Hl as (f & Hf).
    rewrite list_lookup_imap in Hf.
    destruct (people_detected clip !! f) as [frame_people|] eqn:Hfr; [|done].
    simpl in Hf. injection Hf as <-.
    apply in_map_iff in He as (d & <- & Hd). exists f, frame_people, d.
    by rewrite list_elem_of_In.
  - intros (f & frame_people & d & Hf & Hd & ->).
    exists (map (λ person, (clip, f, person)) frame_people). split.
    + apply list_elem_of_In, list_elem_of_lookup. exists f.
      by rewrite list_lookup_imap, Hf.
    + apply in_map_iff. exists d. by rewrite <- list_elem_of_In.
Qed.

Lemma elem_of_clip_detections (clip : Clip) (d : Detection) :
  d ∈ clip_detections clip ↔
  ∃ f frame_people, people_detected clip !! f = Some frame_people ∧ d ∈ frame_people.
Proof.
  unfold clip_detections. rewrite list_elem_of_In, in_concat. split.
  - intros (l & Hl & Hd). apply list_elem_of_In, list_elem_of_lookup in Hl as (f & Hf).
    exists f, l. by rewrite list_elem_of_In.
  - intros (f & l & Hf & Hd). exists l. rewrite <- !list_elem_of_In. split; [|done].
    apply list_elem_of_lookup. by exists f.
Qed.

Lemma elem_of_event_entries (clips : list Clip) (e : Clip * nat * Detection) :
  e ∈ event_entries clips ↔ e.1.1 ∈ clips ∧ e ∈ clip_entries e.1.1.
Proof.
  unfold event_entries. rewrite list_elem_of_In, in_concat. split.
  - intros (l & (c & <- & Hc)%in_map_iff & He).
    apply list_elem_of_In in He. pose proof He as He'.
    apply elem_of_clip_entries in He' as (f & fr & d & _ & _ & ->). simpl.
    by rewrite list_elem_of_In.
  - intros [Hc He]. exists (clip_entries e.1.1). split.
    + apply in_map. by apply list_elem_of_In.
    + by apply list_elem_of_In.
Qed.

Lemma Qplus_nonneg (a b : Q) : (0 <= a)%Q → (0 <= b)%Q → (0 <= a + b)%Q.
Proof. intros Ha Hb. exact (Qplus_le_compat 0 a 0 b Ha Hb). Qed.

Lemma plausible_score (d : Detection) :
  plausible d → (-1 < _calculate_detection_score d)%Q.
Proof.
  intros [Hc Hb]. unfold _calculate_detection_score.
  set (m := if String.eqb (method_or_unknown d) "face" then Float64.fadd 0 100
            else if String.eqb (method_or_unknown d) "body" then Float64.fadd 0 50
            else 0%Q).
  assert (0 <= m)%Q as Hm.
  { unfold m. repeat case_match; by vm_compute. }
  assert (0 <= Float64.fadd m (Float64.fmul (default 0 (confidence d)) 10))%Q as Hs.
  { apply Float64Facts.fadd_nonneg; [done|]. by apply Float64Facts.fmul_nonneg. }
  apply Qlt_le_trans with 0%Q; [done|].
  destruct (bbox d) as [[[[x1 y1] x2] y2]|]; [|done].
  cbv zeta. apply Float64Facts.fadd_nonneg; [done|].
  apply Float64Facts.fmul_nonneg; [|by vm_compute].
  apply Float64Facts.float_of_int_nonneg. unfold bbox_area. nia.
Qed.

Lemma max_duration_spec (first : Q) (others : list Q) :
  (max_duration first others ∈ first :: others) ∧
  ∀ d, d ∈ first :: others → (d <= max_duration first others)%Q.
Proof.
  unfold max_duration. revert first. induction others as [|x xs IH]; intros first; simpl.
  - split; [left|]. intros d ->%list_elem_of_singleton. apply Qle_refl.
  - destruct (Qltb first x) eqn:Hlt.
    + destruct (IH x) as [Hin Hmax]. split.
      * by right.
      * intros d [->|Hd]%elem_of_cons; [|by apply Hmax].
        apply Qle_trans with x; [apply Qlt_le_weak; by apply Qltb_lt|].
        apply Hmax. left.
    + destruct (IH first) as [Hin Hmax]. split.
      * apply elem_of_cons in Hin as [->|Hin]; [left|right; by right].
      * intros d [->|[->|Hd]%elem_of_cons]%elem_of_cons.
        -- apply Hmax. left.
        -- apply Qle_trans with first; [by apply Qltb_ge|]. apply Hmax. left.
        -- apply Hmax. by right.
Qed.

Lemma elem_of_video_durations (clips : list Clip) (d : Q) :
  d ∈ video_durations clips ↔
  ∃ c, c ∈ clips ∧ video_duration c = Some d ∧ Qeq_bool d 0 = false.
Proof.
  unfold video_durations. rewrite list_elem_of_omap. split.
  - intros (c & Hc & H). exists c. split; [done|].
    destruct (video_duration c) as [d'|]; [|done].
    destruct (Qeq_bool d' 0) eqn:E; [done|]. by injection H as ->.
  - intros (c & Hc & Hd & Hz). exists c. split; [done|]. by rewrite Hd, Hz.
Qed.

Lemma elem_of_cameras (clips : list Clip) (s : string) :
  s ∈ (list_to_set (map cam clips) : gset string) ↔ ∃ c, c ∈ clips ∧ cam c = s.
Proof.
  rewrite elem_of_list_to_set, list_elem_of_In, in_map_iff.
  split; intros (c & H1 & H2); exists c; by rewrite ?list_elem_of_In in *.
Qed.

Lemma pack_Some (g : list Clip) (E : GlobalEvent) :
  pack g = Some E →
  ∃ first_clip last_clip,
    head g = Some first_clip ∧ last g = Some last_clip ∧
    E = {| start_time := time first_clip;
           end_time := time last_clip;
           duration := match video_durations g with
                       | d :: ds => max_duration d ds
                       | [] => inject_Z (time last_clip - time first_clip)
                       end;
           cameras := list_to_set (map cam g);
           people := people_ids_of g;
           clips := g;
           keyframes := _select_keyframes g (people_ids_of g);
           clip_count := length g |}.
Proof.
  unfold pack. destruct g as [|c0 cs]; [done|].
  destruct (last (c0 :: cs)) as [cl|] eqn:Hl; [|done]. intros [= <-].
  by exists c0, cl.
Qed.

End PackingFacts.

Module PackingLaws.
Import EventAggregator Packing Vocabulary Selection Events.

(** X7.  The people of a packed event are the person ids, other than 0,
    that some detection of its clips carries; its cameras are the cameras of
    its clips. *)
Theorem pack_people_and_cameras (event_clips : list Clip) (E : GlobalEvent) :
  pack event_clips = Some E →
  (∀ z, z ∈ people E ↔
        z ≠ 0 ∧ ∃ c d, c ∈ event_clips ∧ d ∈ clip_detections c ∧ person_id d = Some z) ∧
  (∀ s, s ∈ cameras E ↔ ∃ c, c ∈ event_clips ∧ cam c = s) ∧
  clips E = event_clips.
Proof.
  intros (c0 & cl & _ & _ & ->)%PackingFacts.pack_Some. cbn [people cameras clips].
  split_and!; [|..|done].
  - intros z. apply PackingFacts.people_ids_of_spec.
  - intros s. apply (PackingFacts.elem_of_cameras event_clips).
Qed.

Lemma pack_people_and_cameras_witness :
  ∃ E, pack [Samples.clip_known_stranger] = Some E ∧
       (3 ∈ people E ↔
          3 ≠ 0 ∧ ∃ c d, c ∈ [Samples.clip_known_stranger] ∧ d ∈ clip_detections c ∧
                         person_id d = Some 3) ∧
       clips E = [Samples.clip_known_stranger].
Proof.
  eexists. split; [reflexivity|].
  split; eapply (pack_people_and_cameras [Samples.clip_known_stranger]); reflexivity.
Defined.

(** X8.  A keyframe is kept only for a person of the event and is taken
    from one of that person's own detections; and when every detection has
    a non-negative confidence and a box with ordered corners, every person
    of the event gets a keyframe. *)
Theorem pack_keyframes (event_clips : list Clip) (E : GlobalEvent) :
  pack event_clips = Some E →
  (∀ pid kf, keyframes E !! pid = Some kf →
     pid ∈ people E ∧
     ∃ e, e ∈ event_entries event_clips ∧ person_id e.2 = Some pid ∧ kf = keyframe_of e) ∧
  ((∀ c d, c ∈ event_clips → d ∈ clip_detections c → plausible d) →
   ∀ pid, pid ∈ people E → is_Some (keyframes E !! pid)).
Proof.
  intros (c0 & cl & _ & _ & ->)%PackingFacts.pack_Some. cbn [people keyframes]. split.
  - intros pid kf. rewrite SelectionFacts.select_keyframes_lookup.
    case_decide as Hin; [|done]. intros Hkf. split; [done|].
    pose proof (SelectionFacts.select_keyframe_spec event_clips pid) as Hspec.
    rewrite Hkf in Hspec. destruct Hspec as (j & e & (He & Hsel & _) & -> & _).
    exists e. split_and!; [|by apply bool_decide_eq_true in Hsel|done].
    apply list_elem_of_lookup. by exists j.
  - intros Hpl pid Hin. rewrite SelectionFacts.select_keyframes_lookup.
    rewrite decide_True by done.
    pose proof (SelectionFacts.select_keyframe_spec event_clips pid) as Hspec.
    destruct (select_keyframe event_clips pid); [done|]. exfalso.
    apply PackingFacts.people_ids_of_spec in Hin as (_ & c & d & Hc & Hd & Hp).
    apply PackingFacts.elem_of_clip_detections in Hd as (f & fr & Hf & Hd).
    assert ((c, f, d) ∈ event_entries event_clips) as He.
    { apply PackingFacts.elem_of_event_entries. split; [done|]. simpl.
      apply PackingFacts.elem_of_clip_entries. by exists f, fr, d. }
    specialize (Hspec (c, f, d) He).
    assert (plausible d) as Hd'%PackingFacts.plausible_score.
    { apply (Hpl c); [done|]. apply PackingFacts.elem_of_clip_detections. eauto. }
    unfold of_person, entry_score in Hspec. simpl in Hspec.
    rewrite bool_decide_eq_true in Hspec. specialize (Hspec Hp).
    by apply Qle_not_lt in Hspec.
Qed.

Lemma pack_keyframes_witness :
  ∃ E, pack [Samples.clip_two_boxes] = Some E ∧
       1 ∈ people E ∧ is_Some (keyframes E !! 1).
Proof.
  eexists. split; [reflexivity|].
  assert (1 ∈ EventAggregator.people_ids_of [Samples.clip_two_boxes]) as H1.
  { by vm_compute. }
  split; [exact H1|].
  refine (proj2 (pack_keyframes [Samples.clip_two_boxes] _ eq_refl) _ 1 H1).
  intros c d ->%list_elem_of_singleton Hd.
  apply list_elem_of_In in Hd. simpl in Hd.
  destruct Hd as [<-|[<-|[]]]; vm_compute; intuition discriminate.
Defined.

(** X9.  The duration of a packed event is the longest of the non-zero
    video durations of its clips; when no clip has one it is the time from
    the first clip to the last. *)
Theorem pack_duration (event_clips : list Clip) (E : GlobalEvent) :
  pack event_clips = Some E →
  (∀ c d, c ∈ event_clips → video_duration c = Some d → Qeq_bool d 0 = false →
          (d <= duration E)%Q ∧
          ∃ c', c' ∈ event_clips ∧ video_duration c' = Some (duration E)) ∧
  ((∀ c d, c ∈ event_clips → video_duration c = Some d → Qeq_bool d 0 = true) →
   duration E = inject_Z (end_time E - start_time E)).
Proof.
  intros (c0 & cl & _ & _ & ->)%PackingFacts.pack_Some.
  cbn [duration start_time end_time].
  destruct (video_durations event_clips) as [|d0 ds] eqn:Hvd.
  - split.
    + intros c d Hc Hd Hz.
      assert (d ∈ video_durations event_clips) as Hin.
      { apply PackingFacts.elem_of_video_durations. eauto. }
      rewrite Hvd in Hin. by apply elem_of_nil in Hin.
    + done.
  - destruct (PackingFacts.max_duration_spec d0 ds) as [Hin Hmax]. split.
    + intros c d Hc Hd Hz. split.
      * apply Hmax. rewrite <- Hvd. apply PackingFacts.elem_of_video_durations. eauto.
      * rewrite <- Hvd in Hin.
        apply PackingFacts.elem_of_video_durations in Hin as (c' & Hc' & Hd' & _). eauto.
    + intros Hall. exfalso.
      assert (d0 ∈ video_durations event_clips) as Hd0 by (rewrite Hvd; left).
      apply PackingFacts.elem_of_video_durations in Hd0 as (c & Hc & Hd & Hz).
      rewrite (Hall c d0 Hc Hd) in Hz. done.
Qed.

Lemma pack_duration_witness :
  ∃ E, pack [Samples.clip_12s; Samples.clip_8s] = Some E ∧
       (8 <= duration E)%Q ∧
       ∃ c', c' ∈ [Samples.clip_12s; Samples.clip_8s] ∧
             video_duration c' = Some (duration E).
Proof.
  eexists. split; [reflexivity|].
  apply (proj1 (pack_duration [Samples.clip_12s; Samples.clip_8s] _ eq_refl)
               Samples.clip_8s 8%Q); [|reflexivity..].
  apply list_elem_of_lookup. by exists 1%nat.
Defined.

End PackingLaws.
(** ** identity_refiner.py: what the refinement changes and what it keeps *)

Module RefinerLawsFacts.
Import IdentityRefiner Refinement Events Vocabulary EventAggregator Packing.

Lemma outcome_values (person_stats : gmap (option Z) Stats)
    (frame_people : list Detection) (d : Detection) (r m : string) :
  outcome person_stats frame_people d = Some (r, m) →
  (r, m) ∈ refined_identities ∧ borderline d ∧
  (r = "family" → truthy_id (person_id d) = true) ∧
  (r = "suspected_family" →
   person_id d = None ∧ role_or_stranger d = "stranger" ∧
   event_has_family person_stats = true ∧ 3 ≤ stranger_total_count person_stats).
Proof.
  unfold outcome, rule1_fires, borderline, refined_identities.
  destruct (String.eqb_spec (role_or_stranger d) "suspected_family") as [Hs|Hs];
  destruct (String.eqb_spec (role_or_stranger d) "stranger") as [Ht|Ht];
    try (rewrite Hs in Ht; discriminate);
  destruct (truthy_id (person_id d)) eqn:Hid;
  destruct (person_stats !! person_id d) as [stats|];
  try destruct (3 <=? appearances stats);
  destruct (has_family_in frame_people);
  destruct (event_has_family person_stats);
  destruct (Z.leb_spec 3 (stranger_total_count person_stats));
  case_bool_decide; simpl; intros [= <- <-];
  (split; [set_solver|]); (split; [by eauto|]); split; (try done); intros _; done.
Qed.

Lemma refine_clip_detection_at (clip : Clip) (person_stats : gmap (option Z) Stats)
    (f i : nat) :
  detection_at (_refine_clip_identities clip person_stats) f i
  = people_detected clip !! f ≫= (λ frame_people,
      apply_outcome person_stats (frame_before person_stats frame_people i)
        <$> frame_people !! i).
Proof.
  unfold detection_at, _refine_clip_identities. cbn [people_detected].
  change (map (refine_frame person_stats) (people_detected clip))
    with (refine_frame person_stats <$> people_detected clip).
  rewrite list_lookup_fmap. destruct (people_detected clip !! f) as [fr|]; [|done].
  simpl. apply RefinerFacts.refine_frame_lookup.
Qed.

(** The refined detection at a position, from the detection that was there. *)
Lemma refined_detection (clip : Clip) (person_stats : gmap (option Z) Stats)
    (f i : nat) (d d' : Detection) :
  detection_at clip f i = Some d →
  detection_at (_refine_clip_identities clip person_stats) f i = Some d' →
  ∃ frame_people, d' = apply_outcome person_stats frame_people d.
Proof.
  rewrite refine_clip_detection_at. unfold detection_at.
  destruct (people_detected clip !! f) as [fr|]; [|done]. simpl.
  intros ->. simpl. intros [= <-]. eauto.
Qed.

Lemma map_person_id_refine_frame (person_stats : gmap (option Z) Stats)
    (frame_people : list Detection) :
  person_id <$> refine_frame person_stats frame_people = person_id <$> frame_people.
Proof.
  apply list_eq. intros i. rewrite !list_lookup_fmap, RefinerFacts.refine_frame_lookup.
  destruct (frame_people !! i) as [d|]; [|done]. simpl. f_equal.
  unfold apply_outcome. by repeat case_match.
Qed.

Lemma omap_of_fmap {A B : Type} (f : A → option B) (l1 l2 : list A) :
  f <$> l1 = f <$> l2 → omap f l1 = omap f l2.
Proof.
  revert l2. induction l1 as [|a l1 IH]; intros [|b l2]; try done.
  intros [= H1 H2]. csimpl. rewrite H1. by rewrite (IH l2 H2).
Qed.

Lemma fmap_person_id_refine_clip (person_stats : gmap (option Z) Stats) (c : Clip) :
  person_id <$> clip_detections (_refine_clip_identities c person_stats)
  = person_id <$> clip_detections c.
Proof.
  unfold clip_detections, _refine_clip_identities. cbn [people_detected].
  induction (people_detected c) as [|fr frs IH]; [done|].
  simpl. by rewrite !fmap_app, IH, map_person_id_refine_frame.
Qed.

Lemma fmap_person_id_refined (person_stats : gmap (option Z) Stats) (clips : list Clip) :
  person_id <$> event_detections
                  (map (λ clip, _refine_clip_identities clip person_stats) clips)
  = person_id <$> event_detections clips.
Proof.
  unfold event_detections. induction clips as [|c clips IH]; [done|].
  simpl. by rewrite !fmap_app, IH, fmap_person_id_refine_clip.
Qed.

Lemma fold_clips_detections {A : Type} (f : A → Detection → A) (clips : list Clip)
    (a : A) :
  fold_left (λ acc clip,
    fold_left (λ acc frame_people, fold_left f frame_people acc)
              (people_detected clip) acc) clips a
  = fold_left f (event_detections clips) a.
Proof.
  unfold event_detections. revert a.
  induction clips as [|c clips IH]; intros a; [done|].
  simpl. by rewrite IH, fold_left_frames, fold_left_app.
Qed.

Lemma count_person_fold (l : list Detection) (acc : gmap (option Z) Stats)
    (key : option Z) :
  fold_left count_person l acc !! key =
  match filter (λ d, person_id d = key) l with
  | [] => acc !! key
  | hits =>
    Some {| appearances :=
              appearances (default {| appearances := 0; roles := ∅ |} (acc !! key))
              + Z.of_nat (length hits);
            roles :=
              list_to_set (role_or_stranger <$> hits)
              ∪ roles (default {| appearances := 0; roles := ∅ |} (acc !! key)) |}
  end.
Proof.
  revert acc. induction l as [|d l IH]; intros acc; [done|].
  simpl. rewrite IH. unfold count_person.
  destruct (decide (person_id d = key)) as [<-|Hne].
  - rewrite filter_cons_True by done. rewrite lookup_insert_eq.
    destruct (filter _ l) as [|h hs]; cbn [default appearances roles].
    + f_equal. apply (f_equal2 mkStats); simpl; [lia|]. apply leibniz_equiv. set_solver.
    + f_equal. apply (f_equal2 mkStats); simpl; [lia|]. apply leibniz_equiv. set_solver.
  - rewrite filter_cons_False by done. by rewrite lookup_insert_ne.
Qed.

Lemma analyze_lookup (clips : list Clip) (key : option Z) :
  _analyze_person_appearances clips !! key =
  match counted_under key clips with
  | [] => None
  | hits => Some {| appearances := Z.of_nat (length hits);
                    roles := list_to_set (role_or_stranger <$> hits) |}
  end.
Proof.
  unfold _analyze_person_appearances, counted_under.
  rewrite fold_clips_detections, count_person_fold, lookup_empty.
  destruct (filter _ (event_detections clips)) as [|h hs]; [done|].
  f_equal. apply (f_equal2 mkStats); simpl; [lia|].
  apply leibniz_equiv. set_solver.
Qed.

End RefinerLawsFacts.

Module RefinerLaws.
Import IdentityRefiner Refinement Events Vocabulary EventAggregator Packing.

(** X10.  The refinement keeps every detection at its place and touches
    nothing but its role and method: the person id, confidence, box and
    body vector stay, and only a detection whose role is stranger or
    suspected family can be rewritten, to one of the three refined
    identities. *)
Theorem refinement_keeps_detection_data (person_stats : gmap (option Z) Stats)
    (clip : Clip) (f i : nat) :
  time (_refine_clip_identities clip person_stats) = time clip ∧
  cam (_refine_clip_identities clip person_stats) = cam clip ∧
  video_duration (_refine_clip_identities clip person_stats) = video_duration clip ∧
  match detection_at clip f i,
        detection_at (_refine_clip_identities clip person_stats) f i with
  | Some d, Some d' =>
      person_id d' = person_id d ∧ confidence d' = confidence d ∧
      bbox d' = bbox d ∧ body_embedding d' = body_embedding d ∧
      (d' = d ∨
       borderline d ∧ ∃ r m, (r, m) ∈ refined_identities ∧ d' = set_identity r m d)
  | None, None => True
  | _, _ => False
  end.
Proof.
  split_and!; [done..|].
  rewrite RefinerLawsFacts.refine_clip_detection_at. unfold detection_at.
  destruct (people_detected clip !! f) as [fr|]; [|done]. simpl.
  destruct (fr !! i) as [d|]; [|done]. simpl.
  unfold apply_outcome.
  destruct (outcome person_stats _ d) as [[r m]|] eqn:Ho.
  - apply RefinerLawsFacts.outcome_values in Ho as (Hin & Hb & _).
    split_and!; [done..|]. right. eauto.
  - split_and!; [done..|]. by left.
Qed.

(** X11.  Whatever the refiner rewrites is stored by the persister with the
    match method body_reid_refined, and its new role is family or
    suspected family. *)
Theorem refined_detection_is_stored_as_refined (person_stats : gmap (option Z) Stats)
    (clip : Clip) (f i : nat) (d d' : Detection) :
  detection_at clip f i = Some d →
  detection_at (_refine_clip_identities clip person_stats) f i = Some d' →
  d' ≠ d →
  Persistence_Pipeline.standard_match_method (method_or_unknown d') = "body_reid_refined" ∧
  (Detection_role d' = Some "family" ∨ Detection_role d' = Some "suspected_family").
Proof.
  intros Hd Hd' Hne.
  destruct (RefinerLawsFacts.refined_detection _ _ _ _ _ _ Hd Hd') as (fr & ->).
  unfold apply_outcome in *.
  destruct (outcome person_stats fr d) as [[r m]|] eqn:Ho; [|done].
  apply RefinerLawsFacts.outcome_values in Ho as (Hin & _).
  unfold refined_identities in Hin.
  apply list_elem_of_In in Hin. simpl in Hin.
  destruct Hin as [[= <- <-]|[[= <- <-]|[[= <- <-]|[]]]]; split; by eauto.
Qed.

Lemma refined_detection_is_stored_as_refined_witness :
  Persistence_Pipeline.standard_match_method
    (method_or_unknown (set_identity "family" "refined_from_context"
                          Samples.known_stranger3)) = "body_reid_refined" ∧
  (Detection_role (set_identity "family" "refined_from_context" Samples.known_stranger3)
     = Some "family" ∨
   Detection_role (set_identity "family" "refined_from_context" Samples.known_stranger3)
     = Some "suspected_family").
Proof.
  apply (refined_detection_is_stored_as_refined
           (_analyze_person_appearances [Samples.clip_known_stranger])
           Samples.clip_known_stranger 0 1 Samples.known_stranger3);
    [reflexivity | reflexivity | discriminate].
Defined.

(** X12.  Refining an event leaves its set of people as [pack] computed it,
    although the set is computed anew from the refined clips; the keyframes
    are not recomputed. *)
Theorem refine_event_keeps_people (event_clips : list Clip) (E : GlobalEvent) :
  pack event_clips = Some E →
  people (refine_event_identities E) = people E ∧
  keyframes (refine_event_identities E) = keyframes E ∧
  length (clips (refine_event_identities E)) = length event_clips.
Proof.
  intros (c0 & cl & _ & _ & ->)%PackingFacts.pack_Some.
  unfold refine_event_identities. cbn [clips people keyframes start_time end_time
    duration cameras clip_count].
  destruct event_clips as [|c cs] eqn:Hcs; [done|]. rewrite <- Hcs.
  cbn [clips people keyframes]. split_and!; [|done|by rewrite length_map].
  rewrite !PackingFacts.people_ids_of_eq. unfold nonzero_ids.
  by rewrite (RefinerLawsFacts.omap_of_fmap _ _ _
                (RefinerLawsFacts.fmap_person_id_refined _ event_clips)).
Qed.

Lemma refine_event_keeps_people_witness :
  ∃ E, pack [Samples.clip_known_stranger] = Some E ∧
       people (refine_event_identities E) = people E.
Proof.
  eexists. split; [reflexivity|].
  eapply (refine_event_keeps_people [Samples.clip_known_stranger]). reflexivity.
Defined.

(** X13.  [person_stats] counts, for every person id, the detections of
    the event that carry it, and collects their roles; the detections
    without an id share one entry, whose count is the [stranger_total_count]
    of rule 2; an id that no detection carries has no entry. *)
Theorem analyze_person_appearances_counts (clips : list Clip) (key : option Z) :
  _analyze_person_appearances clips !! key =
  match counted_under key clips with
  | [] => None
  | hits => Some {| appearances := Z.of_nat (length hits);
                    roles := list_to_set (role_or_stranger <$> hits) |}
  end ∧
  stranger_total_count (_analyze_person_appearances clips)
  = Z.of_nat (length (counted_under None clips)) ∧
  (_analyze_person_appearances clips !! key = None ↔
   ∀ d, d ∈ event_detections clips → person_id d ≠ key).
Proof.
  split_and!.
  - apply RefinerLawsFacts.analyze_lookup.
  - unfold stranger_total_count. rewrite RefinerLawsFacts.analyze_lookup.
    by destruct (counted_under None clips).
  - rewrite RefinerLawsFacts.analyze_lookup. unfold counted_under.
    destruct (filter (λ d, person_id d = key) (event_detections clips)) as [|h hs] eqn:Hf.
    + split; [|done]. intros _ d Hd Hk.
      assert (d ∈ filter (λ d, person_id d = key) (event_detections clips)) as Hin
        by (by apply list_elem_of_filter).
      rewrite Hf in Hin. by apply elem_of_nil in Hin.
    + split; [done|]. intros Hall. exfalso.
      assert (h ∈ filter (λ d, person_id d = key) (event_detections clips)) as Hin
        by (rewrite Hf; left).
      apply list_elem_of_filter in Hin as [Hk Hin]. by apply (Hall h).
Qed.

(** X14.  A detection without a usable person id is rewritten in one case
    only: it is a stranger without any id, the event counts at least three
    detections without an id, and some detection of the event that has an
    id is family or suspected family.  It then becomes suspected family,
    never family. *)
Theorem unidentified_detection_refinement (clips : list Clip) (c : Clip) (f i : nat)
    (d d' : Detection) :
  detection_at c f i = Some d →
  detection_at (_refine_clip_identities c (_analyze_person_appearances clips)) f i
    = Some d' →
  truthy_id (person_id d) = false →
  d' ≠ d →
  d' = set_identity "suspected_family" "refined_from_stranger" d ∧
  person_id d = None ∧ role_or_stranger d = "stranger" ∧
  (3 ≤ length (counted_under None clips))%nat ∧
  ∃ x, x ∈ event_detections clips ∧ person_id x ≠ None ∧
       (role_or_stranger x = "family" ∨ role_or_stranger x = "suspected_family").
Proof.
  intros Hd Hd' Hid Hne.
  destruct (RefinerLawsFacts.refined_detection _ _ _ _ _ _ Hd Hd') as (fr & ->).
  unfold apply_outcome in *.
  destruct (outcome _ fr d) as [[r m]|] eqn:Ho; [|done].
  apply RefinerLawsFacts.outcome_values in Ho as (Hin & _ & Hfam & Hsus).
  assert (r = "suspected_family" ∧ m = "refined_from_stranger") as [-> ->].
  { apply list_elem_of_In in Hin. simpl in Hin.
    destruct Hin as [[= <- <-]|[[= <- <-]|[[= <- <-]|[]]]]; try done;
      rewrite Hfam in Hid; done. }
  destruct (Hsus eq_refl) as (Hnone & Hrole & Hfamily & Hcount).
  split_and!; [done..| |].
  - unfold stranger_total_count in Hcount.
    rewrite RefinerLawsFacts.analyze_lookup in Hcount.
    destruct (counted_under None clips) as [|h hs]; [lia|].
    cbn [appearances] in Hcount. lia.
  - unfold event_has_family in Hfamily. apply bool_decide_eq_true in Hfamily.
    destruct Hfamily as (key & stats & Hlk & Hkey & Hroles).
    rewrite RefinerLawsFacts.analyze_lookup in Hlk.
    destruct (counted_under key clips) as [|h hs] eqn:Hhits; [done|].
    apply (inj Some) in Hlk. rewrite <- Hlk in Hroles. cbn [roles] in Hroles.
    assert (∃ x, x ∈ counted_under key clips ∧
                 (role_or_stranger x = "family" ∨ role_or_stranger x = "suspected_family"))
      as (x & Hx & Hr).
    { rewrite Hhits.
      destruct Hroles as [Hr|Hr];
        apply elem_of_list_to_set, list_elem_of_fmap in Hr as (x & Hr & Hx);
        exists x; eauto. }
    unfold counted_under in Hx. apply list_elem_of_filter in Hx as [Hk Hx].
    exists x. split_and!; [done| |done]. congruence.
Qed.

Lemma unidentified_detection_refinement_witness :
  set_identity "suspected_family" "refined_from_stranger" Samples.stranger0
    = set_identity "suspected_family" "refined_from_stranger" Samples.stranger0 ∧
  person_id Samples.stranger0 = None ∧ role_or_stranger Samples.stranger0 = "stranger" ∧
  (3 ≤ length (counted_under None [Samples.clip_stranger_thrice]))%nat ∧
  ∃ x, x ∈ event_detections [Samples.clip_stranger_thrice] ∧ person_id x ≠ None ∧
       (role_or_stranger x = "family" ∨ role_or_stranger x = "suspected_family").
Proof.
  apply (unidentified_detection_refinement [Samples.clip_stranger_thrice]
           Samples.clip_stranger_thrice 0 1 Samples.stranger0);
    [reflexivity | by vm_compute | reflexivity | discriminate].
Defined.

(** X15.  A suspected family member with a person id that the event counts
    at least three times is promoted to family, with the method
    refined_from_suspected. *)
Theorem suspected_seen_thrice_becomes_family (clips : list Clip) (c : Clip) (f i : nat)
    (d : Detection) :
  detection_at c f i = Some d →
  role_or_stranger d = "suspected_family" →
  truthy_id (person_id d) = true →
  (3 ≤ length (counted_under (person_id d) clips))%nat →
  detection_at (_refine_clip_identities c (_analyze_person_appearances clips)) f i
    = Some (set_identity "family" "refined_from_suspected" d).
Proof.
  intros Hd Hrole Hid Hcount.
  rewrite RefinerLawsFacts.refine_clip_detection_at. unfold detection_at in Hd.
  destruct (people_detected c !! f) as [fr|]; [|done]. simpl in *.
  rewrite Hd. simpl. f_equal. unfold apply_outcome, outcome, rule1_fires.
  rewrite Hrole, Hid, RefinerLawsFacts.analyze_lookup.
  destruct (counted_under (person_id d) clips) as [|h hs]; [simpl in Hcount; lia|].
  cbn [appearances]. simpl String.eqb. cbn [andb].
  destruct (Z.leb_spec 3 (Z.of_nat (length (h :: hs)))); [done|lia].
Qed.

Lemma suspected_seen_thrice_becomes_family_witness :
  detection_at (_refine_clip_identities Samples.clip_suspected_thrice
                  (_analyze_person_appearances [Samples.clip_suspected_thrice])) 1 0
  = Some (set_identity "family" "refined_from_suspected" Samples.suspected2).
Proof.
  apply (suspected_seen_thrice_becomes_family [Samples.clip_suspected_thrice]
           Samples.clip_suspected_thrice 1 0 Samples.suspected2);
    [reflexivity | reflexivity | reflexivity | vm_compute; lia].
Defined.

End RefinerLaws.

(** ** quality_selector.py: grouping the detections of an event by person *)

Module GroupByPersonFacts.
Import GroupByPerson Events.

Lemma append_to_keys (key : PersonKey) (p : Detection)
    (g : list (PersonKey * list Detection)) :
  (append_to key p g).*1 = if decide (key ∈ g.*1) then g.*1 else g.*1 ++ [key].
Proof.
  induction g as [|[k l] g IH]; [reflexivity|].
  cbn [append_to]. destruct (decide (k = key)) as [->|Hne]; rewrite !fmap_cons; cbn [fst].
  - destruct (decide (key ∈ key :: g.*1)) as [H|H]; [done|]. exfalso. apply H. left.
  - rewrite IH.
    destruct (decide (key ∈ g.*1)) as [Hin|Hin];
      destruct (decide (key ∈ k :: g.*1)) as [H|H]; try done.
    + exfalso. apply H. by right.
    + exfalso. apply elem_of_cons in H as [?|?]; congruence.
Qed.

Lemma append_to_NoDup (key : PersonKey) (p : Detection)
    (g : list (PersonKey * list Detection)) :
  NoDup g.*1 → NoDup (append_to key p g).*1.
Proof.
  intros Hnd. rewrite append_to_keys. case_decide; [done|].
  apply NoDup_app. split_and!; [done| |apply NoDup_singleton].
  intros x Hx ->%list_elem_of_singleton. done.
Qed.

Lemma append_to_keys_incl (key : PersonKey) (p : Detection)
    (g : list (PersonKey * list Detection)) (k : PersonKey) :
  k ∈ g.*1 ∨ k = key → k ∈ (append_to key p g).*1.
Proof.
  rewrite append_to_keys. case_decide; intros [?| ->]; try done.
  - apply elem_of_app. by left.
  - apply elem_of_app. right. left.
Qed.

(** Where an entry of the extended dict comes from. *)
Lemma elem_of_append_to (key : PersonKey) (p : Detection)
    (g : list (PersonKey * list Detection)) (k : PersonKey) (l : list Detection) :
  NoDup g.*1 →
  (k, l) ∈ append_to key p g →
  (k ≠ key ∧ (k, l) ∈ g) ∨
  (k = key ∧ ((∃ l0, (k, l0) ∈ g ∧ l = l0 ++ [p]) ∨ ((key ∉ g.*1) ∧ l = [p]))).
Proof.
  induction g as [|[k0 l0] g IH]; simpl; intros Hnd.
  - intros [= -> ->]%list_elem_of_singleton. right. split; [done|]. right.
    split; [apply not_elem_of_nil|done].
  - apply NoDup_cons in Hnd as [Hk0 Hnd].
    destruct (decide (k0 = key)) as [->|Hne].
    + intros [[= -> ->]|Hin]%elem_of_cons.
      * right. split; [done|]. left. exists l0. split; [left|done].
      * left. split; [|by right]. intros ->. apply Hk0.
        apply list_elem_of_fmap. by exists (key, l).
    + intros [[= -> ->]|Hin]%elem_of_cons.
      * left. split; [done|]. left.
      * destruct (IH Hnd Hin) as [[Hk Hg]|[-> [(l1 & Hg & ->)|[Hg ->]]]].
        -- left. split; [done|]. by right.
        -- right. split; [done|]. left. exists l1. split; [by right|done].
        -- right. split; [done|]. right. split; [|done].
           intros [?|?]%elem_of_cons; [congruence|done].
Qed.

(** An old entry is still there, possibly extended; the key of the new
    detection has an entry that holds it. *)
Lemma append_to_keeps (key : PersonKey) (p : Detection)
    (g : list (PersonKey * list Detection)) (k : PersonKey) (l : list Detection) :
  (k, l) ∈ g → ∃ l', (k, l') ∈ append_to key p g ∧ l ⊆ l'.
Proof.
  induction g as [|[k0 l0] g IH]; simpl; [by intros ?%elem_of_nil|].
  destruct (decide (k0 = key)) as [->|Hne].
  - intros [[= -> ->]|Hin]%elem_of_cons.
    + exists (l0 ++ [p]). split; [left|]. set_solver.
    + exists l. split; [by right|done].
  - intros [[= -> ->]|Hin]%elem_of_cons.
    + exists l0. split; [left|done].
    + destruct (IH Hin) as (l' & Hl' & Hsub). exists l'. split; [by right|done].
Qed.

Lemma append_to_holds (key : PersonKey) (p : Detection)
    (g : list (PersonKey * list Detection)) :
  ∃ l, (key, l) ∈ append_to key p g ∧ p ∈ l.
Proof.
  induction g as [|[k0 l0] g IH]; simpl.
  - exists [p]. split; left.
  - destruct (decide (k0 = key)) as [->|Hne].
    + exists (l0 ++ [p]). split; [left|]. set_solver.
    + destruct IH as (l & Hl & Hp). exists l. split; [by right|done].
Qed.

Lemma filter_snoc_person (z : Z) (seen : list Detection) (d : Detection) :
  filter (λ x, person_id x = Some z) (seen ++ [d])
  = filter (λ x, person_id x = Some z) seen
    ++ (if decide (person_id d = Some z) then [d] else []).
Proof.
  by rewrite filter_app.
Qed.

Section Hashing.
Variable md5_prefix : Vec → string.

Lemma stranger_key_not_known (d : Detection) (index : nat) (z : Z) :
  _generate_stranger_key md5_prefix d index ≠ Known z.
Proof. unfold _generate_stranger_key. by destruct (body_embedding d). Qed.

Lemma belongs_stranger_key (d : Detection) (index : nat) :
  person_id d = None → role_or_stranger d = "stranger" →
  belongs (_generate_stranger_key md5_prefix d index) d.
Proof. unfold _generate_stranger_key. by destruct (body_embedding d). Qed.

(** Adding a detection [d] under the key [key] it belongs to. *)
Lemma grouping_of_append (seen : list Detection)
    (g : list (PersonKey * list Detection)) (key : PersonKey) (d : Detection) :
  grouping_of seen g → belongs key d →
  (∀ z, person_id d = Some z → key = Known z) →
  grouping_of (seen ++ [d]) (append_to key d g).
Proof.
  intros (Hnd & Hgroups & Hcover & Hknown) Hbel Hkey. split_and!.
  - by apply append_to_NoDup.
  - intros k l Hin0.
    destruct (elem_of_append_to key d g k l Hnd Hin0)
      as [[Hk Hin]|[-> [(l0 & Hin & ->)|[Hnew ->]]]].
    + destruct (Hgroups k l Hin) as (Hne & Hall & Hsub & Hfil).
      split_and!; [done|done|set_solver|].
      intros z ->. rewrite filter_snoc_person, <- (Hfil z eq_refl).
      rewrite decide_False; [by rewrite app_nil_r|].
      intros Hz. apply Hk. symmetry. by apply Hkey.
    + destruct (Hgroups key l0 Hin) as (Hne & Hall & Hsub & Hfil).
      split_and!.
      * by destruct l0.
      * apply Forall_app. split; [done|]. by apply Forall_singleton.
      * set_solver.
      * intros z ->. rewrite filter_snoc_person, <- (Hfil z eq_refl).
        by rewrite decide_True.
    + split_and!; [done|by apply Forall_singleton|set_solver|].
      intros z ->. rewrite filter_snoc_person.
      rewrite decide_True by done.
      destruct (filter (λ x, person_id x = Some z) seen) as [|x xs] eqn:Hf; [done|].
      exfalso. apply Hnew.
      assert (x ∈ filter (λ x, person_id x = Some z) seen) as Hx by (rewrite Hf; left).
      apply list_elem_of_filter in Hx as [Hx1 Hx2]. by apply (Hknown x z).
  - intros d0 [Hd0| ->%list_elem_of_singleton]%elem_of_app Hg.
    + destruct (Hcover d0 Hd0 Hg) as (k & l & Hin & Hd).
      destruct (append_to_keeps key d g k l Hin) as (l' & Hl' & Hsub).
      exists k, l'. split; [done|]. by apply Hsub.
    + destruct (append_to_holds key d g) as (l & Hl & Hd). by exists key, l.
  - intros d0 z [Hd0| ->%list_elem_of_singleton]%elem_of_app Hz.
    + apply append_to_keys_incl. left. by apply (Hknown d0).
    + apply append_to_keys_incl. right. symmetry. by apply Hkey.
Qed.

(** Passing over a detection that is not kept. *)
Lemma grouping_of_skip (seen : list Detection)
    (g : list (PersonKey * list Detection)) (d : Detection) :
  grouping_of seen g → person_id d = None → role_or_stranger d ≠ "stranger" →
  grouping_of (seen ++ [d]) g.
Proof.
  intros (Hnd & Hgroups & Hcover & Hknown) Hid Hrole. split_and!; [done|..].
  - intros k l Hin. destruct (Hgroups k l Hin) as (Hne & Hall & Hsub & Hfil).
    split_and!; [done|done|set_solver|].
    intros z ->. rewrite filter_snoc_person, <- (Hfil z eq_refl).
    rewrite decide_False by congruence. by rewrite app_nil_r.
  - intros d0 [Hd0| ->%list_elem_of_singleton]%elem_of_app Hg.
    + by apply Hcover.
    + destruct Hg as [[z Hz]|Hr]; congruence.
  - intros d0 z [Hd0| ->%list_elem_of_singleton]%elem_of_app Hz.
    + by apply (Hknown d0).
    + congruence.
Qed.

Lemma visit_grouping (seen : list Detection)
    (st : list (PersonKey * list Detection) * nat) (d : Detection) :
  grouping_of seen st.1 → grouping_of (seen ++ [d]) (visit md5_prefix st d).1.
Proof.
  destruct st as [g idx]. simpl. intros Hinv.
  destruct (person_id d) as [z|] eqn:Hid.
  - simpl. apply grouping_of_append; [done|done|]. intros z' Hz. congruence.
  - destruct (String.eqb_spec (role_or_stranger d) "stranger") as [Hr|Hr]; simpl.
    + apply grouping_of_append; [done| |congruence].
      by apply belongs_stranger_key.
    + by apply grouping_of_skip.
Qed.

Lemma fold_visit_grouping (l seen : list Detection)
    (st : list (PersonKey * list Detection) * nat) :
  grouping_of seen st.1 → grouping_of (seen ++ l) (fold_left (visit md5_prefix) l st).1.
Proof.
  revert seen st. induction l as [|d l IH]; intros seen st Hinv.
  - by rewrite app_nil_r.
  - simpl. rewrite cons_middle, (assoc_L (++)). apply IH. by apply visit_grouping.
Qed.

Lemma group_by_person_grouping (E : GlobalEvent) :
  grouping_of (event_detections (clips E)) (group_by_person md5_prefix E).
Proof.
  unfold group_by_person. rewrite RefinerLawsFacts.fold_clips_detections.
  apply (fold_visit_grouping _ [] ([], 0%nat)).
  split_and!; simpl.
  - apply NoDup_nil_2.
  - by intros k l ?%elem_of_nil.
  - by intros d ?%elem_of_nil.
  - by intros d z ?%elem_of_nil.
Qed.

End Hashing.

End GroupByPersonFacts.

Module GroupByPersonLaws.
Import GroupByPerson Events.

(** X16.  [group_by_person] has one entry per key and no empty entry.  The
    entry of a person id holds exactly the detections of the event that
    carry the id, in order; the other entries hold strangers without an id;
    and a detection of the event is in some entry exactly when it has an id
    or is a stranger. *)
Theorem group_by_person_groups (md5_prefix : Vec → string) (E : GlobalEvent) :
  NoDup (group_by_person md5_prefix E).*1 ∧
  (∀ key l, (key, l) ∈ group_by_person md5_prefix E →
     l ≠ [] ∧ Forall (belongs key) l ∧
     ∀ z, key = Known z →
          l = filter (λ d, person_id d = Some z) (event_detections (clips E))) ∧
  (∀ d, d ∈ event_detections (clips E) →
        (groupable d ↔ ∃ key l, (key, l) ∈ group_by_person md5_prefix E ∧ d ∈ l)).
Proof.
  destruct (GroupByPersonFacts.group_by_person_grouping md5_prefix E)
    as (Hnd & Hgroups & Hcover & _).
  split_and!; [done|..].
  - intros key l Hin. destruct (Hgroups key l Hin) as (? & ? & _ & ?). done.
  - intros d Hd. split; [by apply Hcover|].
    intros (key & l & Hin & Hdl).
    destruct (Hgroups key l Hin) as (_ & Hall & _).
    rewrite Forall_forall in Hall. specialize (Hall d Hdl).
    unfold groupable. destruct key; simpl in Hall.
    + left. by rewrite Hall.
    + right. tauto.
    + right. tauto.
Qed.

End GroupByPersonLaws.
(** ** persistence_pipeline.py: the rows of step D and the role mapping *)

Module PersistenceLaws.
Import GroupByPerson Events Persistence_Pipeline RoleMapping.

Lemma standard_match_method_values (m : string) :
  standard_match_method m ∈ ["face"; "body_reid"; "new"; "body_reid_refined"; "unknown"].
Proof.
  unfold standard_match_method. repeat case_match; set_solver.
Qed.

Lemma to_pgvector_body_Some (v w : Vec) :
  VectorAdapter.to_pgvector_body v = Some w ↔ w = v ∧ length v = VectorAdapter.BODY_DIM.
Proof.
  unfold VectorAdapter.to_pgvector_body, VectorAdapter.to_pgvector.
  case_bool_decide; naive_solver.
Qed.

Lemma select_best_elem_of (float_pow : Q → Q → Q) (l : list Detection) :
  l ≠ [] → ∃ best, QualitySelector.select_best float_pow l = Some best ∧ best ∈ l.
Proof.
  intros Hl. pose proof (SelectionFacts.select_best_spec float_pow l) as H.
  destruct (QualitySelector.select_best float_pow l) as [best|]; [|done].
  destruct H as (j & Hj & _). exists best. split; [done|].
  apply list_elem_of_lookup. by exists j.
Qed.

(** X17.  Step D always finds a best detection for a person of
    [group_by_person], and it is one of that person's detections; the person
    is left without a row exactly when that detection has no body vector or
    one that is not 2048 long. *)
Theorem appearance_of_group (float_pow : Q → Q → Q) (md5_prefix : Vec → string)
    (E : GlobalEvent) (event_id : string) (z : Z) (l : list Detection) :
  (Known z, l) ∈ group_by_person md5_prefix E →
  ∃ best, QualitySelector.select_best float_pow l = Some best ∧
          best ∈ event_detections (clips E) ∧ person_id best = Some z ∧
          (appearance_of float_pow event_id z l = None ↔
           ∀ v, body_embedding best = Some v → length v ≠ VectorAdapter.BODY_DIM).
Proof.
  intros Hin.
  destruct (GroupByPersonFacts.group_by_person_grouping md5_prefix E)
    as (_ & Hgroups & _).
  destruct (Hgroups _ _ Hin) as (Hne & Hall & Hsub & _).
  destruct (select_best_elem_of float_pow l Hne) as (best & Hbest & Hbl).
  exists best. split_and!; [done|by apply Hsub| |].
  - rewrite Forall_forall in Hall. by apply (Hall best).
  - unfold appearance_of. rewrite Hbest.
    destruct (body_embedding best) as [v|]; [|done].
    destruct (VectorAdapter.to_pgvector_body v) as [w|] eqn:Hv.
    + apply to_pgvector_body_Some in Hv as [-> Hlen]. split; [done|].
      intros H. by destruct (H v).
    + split; [|done]. intros _ v' [= <-] Hlen.
      assert (VectorAdapter.to_pgvector_body v = Some v) as Hv'.
      { by apply to_pgvector_body_Some. }
      congruence.
Qed.

Lemma appearance_of_group_witness :
  ∃ best, QualitySelector.select_best Samples.pow_stub
            [Samples.body_matched1; Samples.face_matched1] = Some best ∧
          person_id best = Some 1.
Proof.
  destruct (appearance_of_group Samples.pow_stub Samples.md5_stub
              (mkGlobalEvent 0 0 0 ∅ {[1]} [Samples.clip_face_then_body] ∅ 1)
              "event-1" 1 [Samples.body_matched1; Samples.face_matched1])
    as (best & Hbest & _ & Hid & _).
  - vm_compute. left.
  - exists best. split; [exact Hbest|exact Hid].
Defined.

(** X18.  Every row that step D inserts carries the event id, a body vector
    of 2048 numbers and one of the five match methods of the schema; it is
    the row of one of the groups, and its vector and method are those of a
    detection of that group. *)
Theorem appearances_rows (float_pow : Q → Q → Q) (event_id : string)
    (grouped_detections : list (Z * list Detection)) (row : Appearance) :
  row ∈ appearances float_pow event_id grouped_detections →
  app_event_id row = event_id ∧
  length (body_embedding_pgvector row) = 2048%nat ∧
  match_method row ∈ ["face"; "body_reid"; "new"; "body_reid_refined"; "unknown"] ∧
  ∃ l best, (app_person_id row, l) ∈ grouped_detections ∧ best ∈ l ∧
            body_embedding best = Some (body_embedding_pgvector row) ∧
            match_method row = standard_match_method (method_or_unknown best).
Proof.
  unfold appearances. intros ([pid l] & Hg & Hrow)%list_elem_of_omap.
  unfold appearance_of in Hrow.
  destruct (QualitySelector.select_best float_pow l) as [best|] eqn:Hbest; [|done].
  destruct (body_embedding best) as [v|] eqn:Hv; [|done].
  destruct (VectorAdapter.to_pgvector_body v) as [w|] eqn:Hw; [|done].
  apply to_pgvector_body_Some in Hw as [-> Hlen]. injection Hrow as <-.
  cbn [app_event_id app_person_id match_method body_embedding_pgvector].
  split_and!; [done|done|apply standard_match_method_values|].
  exists l, best. split_and!; [done| |done|done].
  pose proof (SelectionFacts.select_best_spec float_pow l) as H.
  rewrite Hbest in H. destruct H as (j & Hj & _).
  apply list_elem_of_lookup. by exists j.
Qed.

Lemma appearances_rows_witness :
  length Samples.body_vector = 2048%nat ∧
  "face" ∈ ["face"; "body_reid"; "new"; "body_reid_refined"; "unknown"].
Proof.
  destruct (appearances_rows Samples.pow_stub "event-1"
              [(1, [Samples.body_matched1; Samples.face_matched1])]
              (mkAppearance "event-1" 1 "face" Samples.body_vector))
    as (_ & Hlen & Hm & _).
  - vm_compute. left.
  - split; [exact Hlen|exact Hm].
Defined.

(** X19.  [_map_role_to_db] always yields one of the three roles of the
    persons table, and leaves those three as they are; applied to the role
    that a face match reports it gives back the role stored for the person:
    an owner is reported as family, and family is stored as owner. *)
Theorem map_role_to_db_roles (inferred_role : string) :
  _map_role_to_db inferred_role ∈ ["owner"; "visitor"; "unknown"] ∧
  _map_role_to_db (_map_role_to_db inferred_role) = _map_role_to_db inferred_role ∧
  (∀ pid name stored_role sim body_vec,
     stored_role ∈ ["owner"; "visitor"; "unknown"] →
     _map_role_to_db
       (IdentityArbiter.id_role
          (Arbitration.face_identity (pid, name, stored_role, sim) body_vec))
     = stored_role).
Proof.
  assert (_map_role_to_db inferred_role ∈ ["owner"; "visitor"; "unknown"]) as Hrange.
  { unfold _map_role_to_db.
    destruct (role_mapping !! inferred_role) as [r|] eqn:Hr; [|set_solver].
    apply elem_of_list_to_map_2 in Hr. simpl. set_solver. }
  split_and!; [done| |].
  - apply list_elem_of_In in Hrange. simpl in Hrange.
    destruct Hrange as [<-|[<-|[<-|[]]]]; reflexivity.
  - intros pid name stored_role sim body_vec Hin.
    apply list_elem_of_In in Hin. simpl in Hin.
    destruct Hin as [<-|[<-|[<-|[]]]]; reflexivity.
Qed.

End PersistenceLaws.

(** ** frame_sampler.py: errors, fallbacks and the number of frames *)

Module FrameSamplerLawsFacts.
Import FrameSampler.

Lemma sample_loop_zero {Frame : Type} (c : Z) (reads : list Frame) :
  sample_loop 0 c reads
  = match reads with [] => Returned [] | _ => Raised "ZeroDivisionError" end.
Proof. by destruct reads. Qed.



(** The double quotient of two doubles [0 < video_fps < fps] is a double
    below 1, which [int] takes to 0. *)
Lemma ratio_below_one (video_fps fps : Q) :
  Float64.is_double video_fps = true → Float64.is_double fps = true →
  (0 < video_fps)%Q → (video_fps < fps)%Q →
  Qfloor (Float64.fdiv video_fps fps) = 0.
Proof.
  intros Hdv Hdf Hv Hlt.
  destruct (Float64Facts.fdiv_lt_1 video_fps fps Hdv Hdf Hv Hlt) as [H0 H1].
  assert (Qfloor (Float64.fdiv video_fps fps) < 1) as Hhi.
  { rewrite Zlt_Qlt. eapply Qle_lt_trans; [apply Qfloor_le|done]. }
  assert (0 < Qfloor (Float64.fdiv video_fps fps) + 1) as Hlo.
  { rewrite Zlt_Qlt. eapply Qle_lt_trans; [exact H0|apply Qlt_floor]. }
  lia.
Qed.

End FrameSamplerLawsFacts.

Module FrameSamplerLaws.
Import FrameSampler.

(** X20.  When more frames per second are asked for than the video has,
    the two rates being floats, the stride is 0 and reading the first frame
    raises ZeroDivisionError; only a video without any frame gets through. *)
Theorem get_frames_target_above_source {Frame : Type} (video : Video Frame) (fps : Q) :
  isOpened video = true →
  Float64.is_double (CAP_PROP_FPS video) = true → Float64.is_double fps = true →
  (0 < CAP_PROP_FPS video)%Q → (CAP_PROP_FPS video < fps)%Q →
  skip_step (CAP_PROP_FPS video) fps = 0 ∧
  get_frames video fps
  = match reads video with
    | [] => Returned ([], Float64.fdiv
                            (Float64.float_of_int
                               (int_of_float (CAP_PROP_FRAME_COUNT video)))
                            (CAP_PROP_FPS video))
    | _ => Raised "ZeroDivisionError"
    end.
Proof.
  intros Hopen Hdv Hdf Hv Hlt.
  assert (0 < fps)%Q as Hf by (by apply Qlt_trans with (CAP_PROP_FPS video)).
  assert (skip_step (CAP_PROP_FPS video) fps = 0) as Hs.
  { rewrite FrameSamplerFacts.skip_step_positive by done.
    by apply FrameSamplerLawsFacts.ratio_below_one. }
  split; [done|].
  unfold get_frames. rewrite Hopen, Hs, FrameSamplerLawsFacts.sample_loop_zero.
  cbn [negb]. cbv zeta.
  apply Qltb_lt in Hv. rewrite Hv. by destruct (reads video).
Qed.

Lemma get_frames_target_above_source_witness :
  skip_step 1 2 = 0 ∧ get_frames Samples.slow_video 2 = Raised "ZeroDivisionError".
Proof.
  apply (get_frames_target_above_source Samples.slow_video 2); reflexivity.
Defined.



(** Of 53 frames at 29.97 fps, a target of 1.11 fps keeps three: the stride
    is 26, the double quotient being below 27. *)
Lemma get_frames_count_at_1_11 :
  get_frames Samples.ntsc_video_53 (Float64.literal (111 # 100))
  = Returned ([0; 26; 52]%nat,
              Float64.fdiv 53 (Float64.literal (2997 # 100))).
Proof. vm_compute. reflexivity. Qed.

(** X22.  The fallbacks: a video that cannot be opened gives no frame and
    the duration 0; a source or target rate that is not positive gives
    every 30th frame, and the duration 0 when it is the source rate that is
    not positive. *)
Theorem get_frames_fallbacks {Frame : Type} (video : Video Frame) (fps : Q) :
  (isOpened video = false → get_frames video fps = Returned ([], 0%Q)) ∧
  (isOpened video = true →
   (CAP_PROP_FPS video <= 0)%Q ∨ (fps <= 0)%Q →
   ∃ frames,
     get_frames video fps
     = Returned (frames,
                 if Qltb 0 (CAP_PROP_FPS video)
                 then Float64.fdiv
                        (Float64.float_of_int
                           (int_of_float (CAP_PROP_FRAME_COUNT video)))
                        (CAP_PROP_FPS video)
                 else 0%Q) ∧
     ∀ k, frames !! k = reads video !! (k * 30)%nat).
Proof.
  split.
  - intros Hopen. unfold get_frames. by rewrite Hopen.
  - intros Hopen Hbad.
    pose proof (FrameSamplerFacts.skip_step_default _ _ Hbad) as Hs.
    destruct (FrameSamplerFacts.sample_loop_lookup 30 0 (reads video))
      as (frames & Hloop & Hk); [lia|].
    unfold get_frames. rewrite Hopen, Hs. simpl. rewrite Hloop.
    exists frames. split; [done|]. intros k. by rewrite Hk.
Qed.

Lemma get_frames_fallbacks_witness :
  ∃ frames,
    get_frames Samples.rateless_video 1 = Returned (frames, 0%Q) ∧
    ∀ k, frames !! k = reads Samples.rateless_video !! (k * 30)%nat.
Proof.
  apply (proj2 (get_frames_fallbacks Samples.rateless_video 1));
    [reflexivity | left; by vm_compute].
Defined.

End FrameSamplerLaws.

(** ** Phase 5: what a run for a date, and a batch of runs, do to the store *)

Module DailyLawsFacts.
Import DailySummaries DailyBatch.

Lemma earlier_trans : Transitive earlier.
Proof. unfold earlier. intros a b c. lia. Qed.

Lemma earlier_total : Total earlier.
Proof. unfold earlier. intros a b. lia. Qed.

Lemma Zle_total : Total Z.le.
Proof. intros a b. lia. Qed.

Lemma head_filter_is_Some (d : Z) (rows : list DailySummary) :
  is_Some (head (filter (for_date d) rows)) ↔ d ∈ map summary_date rows.
Proof.
  rewrite list_elem_of_In, in_map_iff. split.
  - intros [r Hr]. apply head_Some_elem_of, list_elem_of_filter in Hr as [Hd Hr].
    exists r. by rewrite <- list_elem_of_In.
  - intros (r & Hd & Hr%list_elem_of_In).
    assert (r ∈ filter (for_date d) rows) as Hin by (by apply list_elem_of_filter).
    destruct (filter (for_date d) rows); [by apply elem_of_nil in Hin|by eexists].
Qed.

Lemma get_summary_is_Some (d : Z) (store : Store) :
  is_Some (get_summary d store) ↔ d ∈ map summary_date (daily_summaries store).
Proof. apply head_filter_is_Some. Qed.

(** Rewriting rows without touching their dates commutes with the lookup
    of a date. *)
Lemma filter_for_date_map (d : Z) (g : DailySummary → DailySummary)
    (rows : list DailySummary) :
  (∀ row, summary_date (g row) = summary_date row) →
  filter (for_date d) (map g rows) = map g (filter (for_date d) rows).
Proof.
  intros Hg. induction rows as [|r rows IH]; [done|]. simpl.
  destruct (decide (for_date d r)) as [Hr|Hr].
  - rewrite (filter_cons_True _ r) by done.
    rewrite filter_cons_True by (unfold for_date in *; by rewrite Hg).
    simpl. by rewrite IH.
  - rewrite (filter_cons_False _ r) by done.
    rewrite filter_cons_False by (unfold for_date in *; by rewrite Hg).
    done.
Qed.

Lemma overwrite_if_date (d : Z) (text : string) (total now : Z) (row : DailySummary) :
  summary_date (if decide (for_date d row) then overwrite text total now row else row)
  = summary_date row ∧
  ds_id (if decide (for_date d row) then overwrite text total now row else row)
  = ds_id row.
Proof. by case_decide. Qed.

(** [save] keeps the id of the summary of every date that has one. *)
Lemma save_keeps_ids (d0 d : Z) (text : string) (total now : Z) (store : Store)
    (id : Z) :
  ds_id <$> get_summary d0 store = Some id →
  ds_id <$> get_summary d0 (snd (save d text total now store)) = Some id.
Proof.
  unfold save, get_summary.
  destruct (head (filter (for_date d) (daily_summaries store))) as [existing|];
    cbn [snd daily_summaries].
  - rewrite filter_for_date_map by (intros row; apply overwrite_if_date).
    destruct (filter (for_date d0) (daily_summaries store)) as [|r rs]; [done|].
    simpl. intros [= <-]. f_equal. apply overwrite_if_date.
  - rewrite filter_app.
    destruct (filter (for_date d0) (daily_summaries store)) as [|r rs]; [done|]. done.
Qed.

(** [save] followed by [get_summary]. *)
Lemma save_get_summary (d : Z) (text : string) (total now : Z) (store : Store) :
  ∃ row, get_summary d (snd (save d text total now store)) = Some row ∧
         ds_id row = fst (save d text total now store) ∧
         summary_date row = d ∧ summary_text row = text ∧ total_events row = total ∧
         updated_at row = now ∧
         created_at row = match get_summary d store with
                          | Some old => created_at old
                          | None => now
                          end.
Proof.
  unfold save. destruct (get_summary d store) as [existing|] eqn:Hg;
    unfold get_summary in *; cbn [fst snd daily_summaries].
  - rewrite DailySummaryFacts.filter_overwrite_for_date.
    destruct (filter (for_date d) (daily_summaries store)) as [|r rs] eqn:Hf; [done|].
    injection Hg as ->. simpl. eexists. split; [done|]. simpl.
    assert (existing ∈ filter (for_date d) (daily_summaries store)) as Hin
      by (rewrite Hf; left).
    apply list_elem_of_filter in Hin as [Hd _]. done.
  - rewrite filter_app.
    destruct (filter (for_date d) (daily_summaries store)) as [|r rs]; [|done].
    rewrite filter_cons_True by done. simpl. by eexists.
Qed.

Section Pipeline.
Variable format_timeline : list EventLog → string.
Variable analyze : string → Z → string.

Local Abbreviation run_for_date := (DailySummaries.run_for_date format_timeline analyze).

Lemma fetch_events_nil (d : Z) (store : Store) :
  fetch_events d store = [] ↔ event_count d store = 0.
Proof.
  rewrite <- DailySummaryFacts.fetch_events_count.
  destruct (fetch_events d store); simpl; split; (try done); lia.
Qed.

(** The three ways a run for a date ends. *)
Lemma run_for_date_cases (d : Z) (force : bool) (now : Z) (store : Store) :
  (∃ existing, force = false ∧ get_summary d store = Some existing ∧
               run_for_date d force now store = (Some (ds_id existing), store)) ∨
  ((force = true ∨ get_summary d store = None) ∧ event_count d store = 0 ∧
   run_for_date d force now store = (None, store)) ∨
  ((force = true ∨ get_summary d store = None) ∧ 0 < event_count d store ∧
   run_for_date d force now store
   = (Some (fst (save d (analyze (format_timeline (fetch_events d store)) d)
                      (event_count d store) now store)),
      snd (save d (analyze (format_timeline (fetch_events d store)) d)
                (event_count d store) now store))).
Proof.
  unfold DailySummaries.run_for_date.
  assert (force = false ∧ is_Some (get_summary d store)
          ∨ (force = true ∨ get_summary d store = None)) as [[-> [ex Hex]]|Hgo].
  { destruct force; [right; by left|]. destruct (get_summary d store); eauto. }
  - left. exists ex. by rewrite Hex.
  - right.
    assert ((if force then None else get_summary d store) = None) as ->.
    { by destruct Hgo as [-> | ->]; [|destruct force]. }
    pose proof (DailySummaryFacts.fetch_events_count d store) as Hcount.
    destruct (fetch_events d store) as [|e es] eqn:Hev.
    + left. split_and!; [done| |done]. by rewrite <- Hcount.
    + right. rewrite <- Hcount.
      split_and!; [done|simpl; lia|].
      by destruct (save d _ _ now store).
Qed.

Lemma save_event_logs (d : Z) (text : string) (total now : Z) (store : Store) :
  event_logs (snd (save d text total now store)) = event_logs store.
Proof. unfold save. by destruct (get_summary d store). Qed.

Lemma run_for_date_event_logs (d : Z) (force : bool) (now : Z) (store : Store) :
  event_logs (snd (run_for_date d force now store)) = event_logs store.
Proof.
  destruct (run_for_date_cases d force now store)
    as [(ex & _ & _ & ->)|[(_ & _ & ->)|(_ & _ & ->)]]; [done..|].
  apply save_event_logs.
Qed.

Lemma run_for_date_keeps_ids (d0 d : Z) (force : bool) (now : Z) (store : Store)
    (id : Z) :
  ds_id <$> get_summary d0 store = Some id →
  ds_id <$> get_summary d0 (snd (run_for_date d force now store)) = Some id.
Proof.
  destruct (run_for_date_cases d force now store)
    as [(ex & _ & _ & ->)|[(_ & _ & ->)|(_ & _ & ->)]]; [done..|].
  apply save_keeps_ids.
Qed.

(** The id returned by a run is the id of the summary of the date. *)
Lemma run_for_date_returns_id (d : Z) (force : bool) (now : Z) (store : Store) (id : Z) :
  fst (run_for_date d force now store) = Some id →
  ds_id <$> get_summary d (snd (run_for_date d force now store)) = Some id.
Proof.
  destruct (run_for_date_cases d force now store)
    as [(ex & _ & Hex & ->)|[(_ & _ & ->)|(_ & _ & ->)]]; simpl.
  - intros [= <-]. by rewrite Hex.
  - done.
  - intros [= <-].
    destruct (save_get_summary d (analyze (format_timeline (fetch_events d store)) d)
                (event_count d store) now store) as (row & -> & <- & _).
    done.
Qed.

Lemma is_Some_fmap_ds_id (d : Z) (store : Store) :
  is_Some (get_summary d store) ↔ is_Some (ds_id <$> get_summary d store).
Proof. by rewrite fmap_is_Some. Qed.

Lemma run_for_date_keeps_summaries (d0 d : Z) (force : bool) (now : Z) (store : Store) :
  is_Some (get_summary d0 store) →
  is_Some (get_summary d0 (snd (run_for_date d force now store))).
Proof.
  rewrite !is_Some_fmap_ds_id. intros [id Hid]. exists id.
  by apply run_for_date_keeps_ids.
Qed.

Lemma run_for_date_summarises (d : Z) (force : bool) (now : Z) (store : Store) :
  0 < event_count d store →
  is_Some (get_summary d (snd (run_for_date d force now store))).
Proof.
  intros Hev.
  destruct (run_for_date_cases d force now store)
    as [(ex & _ & Hex & ->)|[(_ & H0 & _)|(_ & _ & ->)]]; simpl.
  - by rewrite Hex.
  - lia.
  - destruct (save_get_summary d (analyze (format_timeline (fetch_events d store)) d)
                (event_count d store) now store) as (row & -> & _). done.
Qed.

Lemma batch_step_kept (force : bool) (now : nat → Z) (st : gmap Z Z * Store)
    (entry : nat * Z) :
  batch_kept st (batch_step format_timeline analyze force now st entry) ∧
  (0 < event_count entry.2 st.2 →
   is_Some (get_summary entry.2
              (batch_step format_timeline analyze force now st entry).2)).
Proof.
  destruct st as [results store], entry as [idx d]. unfold batch_step, batch_kept.
  pose proof (run_for_date_event_logs d force (now idx) store) as Hlogs.
  pose proof (λ d0, run_for_date_keeps_summaries d0 d force (now idx) store) as Hkeep.
  pose proof (λ d0 id, run_for_date_keeps_ids d0 d force (now idx) store id) as Hids.
  pose proof (run_for_date_summarises d force (now idx) store) as Hsum.
  pose proof (run_for_date_returns_id d force (now idx) store) as Hret.
  fold run_for_date.
  destruct (run_for_date d force (now idx) store) as [record_id store'].
  simpl in *.
  assert (∀ results',
            (results' = results ∨
             ∃ id, record_id = Some id ∧ results' = <[d := id]> results) →
            (event_logs store' = event_logs store ∧
             (∀ d0, is_Some (get_summary d0 store) → is_Some (get_summary d0 store')) ∧
             ((∀ d0 id, results !! d0 = Some id →
                        ds_id <$> get_summary d0 store = Some id) →
              ∀ d0 id, results' !! d0 = Some id →
                       ds_id <$> get_summary d0 store' = Some id))) as Hgen.
  { intros results' Hres. split_and!; [done|done|].
    intros Hold d0 id Hlk. destruct Hres as [->|(id' & -> & ->)].
    - apply Hids. by apply Hold.
    - destruct (decide (d0 = d)) as [->|Hne].
      + rewrite lookup_insert_eq in Hlk. injection Hlk as ->. by apply Hret.
      + rewrite lookup_insert_ne in Hlk by done. apply Hids. by apply Hold. }
  destruct record_id as [id|]; [destruct (id =? 0)|]; simpl;
    (split; [apply Hgen; eauto|done]).
Qed.

Lemma fold_batch_step_kept (force : bool) (now : nat → Z) (entries : list (nat * Z))
    (st : gmap Z Z * Store) :
  batch_kept st (fold_left (batch_step format_timeline analyze force now) entries st) ∧
  ∀ d, d ∈ entries.*2 → 0 < event_count d st.2 →
       is_Some (get_summary d
                  (fold_left (batch_step format_timeline analyze force now) entries st).2).
Proof.
  revert st. induction entries as [|entry entries IH]; intros st.
  - split; [by split_and!|]. by intros d ?%elem_of_nil.
  - simpl. destruct (IH (batch_step format_timeline analyze force now st entry))
      as [(Hlogs & Hkeep & Hids) Hcover].
    destruct (batch_step_kept force now st entry) as [(Hlogs1 & Hkeep1 & Hids1) Hnew].
    split.
    + split_and!.
      * by rewrite Hlogs.
      * intros d Hd. by apply Hkeep, Hkeep1.
      * intros Hold. by apply Hids, Hids1.
    + intros d [->|Hd]%elem_of_cons Hev.
      * by apply Hkeep, Hnew.
      * apply Hcover; [done|]. unfold event_count in *. by rewrite Hlogs1.
Qed.

End Pipeline.

Lemma imap_pair_snd {A : Type} (l : list A) : (imap pair l).*2 = l.
Proof.
  apply list_eq. intros i. rewrite list_lookup_fmap, list_lookup_imap.
  by destruct (l !! i).
Qed.

Lemma elem_of_get_distinct_dates (d : Z) (store : Store) :
  d ∈ get_distinct_dates store ↔ 0 < event_count d store.
Proof.
  unfold get_distinct_dates, event_count.
  rewrite merge_sort_Permutation, elem_of_remove_dups, list_elem_of_In, in_map_iff.
  split.
  - intros (e & Hd & He%list_elem_of_In).
    assert (e ∈ filter (on_date d) (event_logs store)) as Hin
      by (by apply list_elem_of_filter).
    destruct (filter (on_date d) (event_logs store)); [by apply elem_of_nil in Hin|].
    simpl. lia.
  - intros Hlen.
    destruct (filter (on_date d) (event_logs store)) as [|e es] eqn:Hf; [simpl in Hlen; lia|].
    assert (e ∈ filter (on_date d) (event_logs store)) as Hin by (rewrite Hf; left).
    apply list_elem_of_filter in Hin as [Hd He].
    exists e. by rewrite <- list_elem_of_In.
Qed.

End DailyLawsFacts.

Module DailyLaws.
Import DailySummaries DailyBatch.

(** X23.  [fetch_events] returns the events of the store that start on the
    date, each once, in ascending order of start time. *)
Theorem fetch_events_sorted (target_date : Z) (store : Store) :
  StronglySorted earlier (fetch_events target_date store) ∧
  fetch_events target_date store ≡ₚ filter (on_date target_date) (event_logs store) ∧
  (∀ event, event ∈ fetch_events target_date store ↔
            event ∈ event_logs store ∧ DATE (el_start_time event) = target_date).
Proof.
  unfold fetch_events. split_and!.
  - apply (StronglySorted_merge_sort earlier (Transitive0 := DailyLawsFacts.earlier_trans)
             (Total0 := DailyLawsFacts.earlier_total)).
  - apply merge_sort_Permutation.
  - intros event. rewrite merge_sort_Permutation, list_elem_of_filter.
    unfold on_date. tauto.
Qed.

(** X24.  [save] followed by [get_summary]: the summary of the date is the
    row whose id [save] returned; it holds the text and the event count
    just saved and was updated at the time of the save; it keeps its time
    of creation when the date had a summary before.  The summaries of the
    other dates are as they were. *)
Theorem save_then_get_summary (summary_date0 : Z) (text : string) (total now : Z)
    (store : Store) :
  (∃ row, get_summary summary_date0 (snd (save summary_date0 text total now store))
            = Some row ∧
          ds_id row = fst (save summary_date0 text total now store) ∧
          summary_date row = summary_date0 ∧ summary_text row = text ∧
          total_events row = total ∧ updated_at row = now ∧
          created_at row = match get_summary summary_date0 store with
                           | Some old => created_at old
                           | None => now
                           end) ∧
  (∀ other_date, other_date ≠ summary_date0 →
     get_summary other_date (snd (save summary_date0 text total now store))
     = get_summary other_date store).
Proof.
  split; [apply DailyLawsFacts.save_get_summary|].
  intros other_date Hne. unfold save, get_summary.
  destruct (head (filter (for_date summary_date0) (daily_summaries store)));
    cbn [snd daily_summaries].
  - f_equal. induction (daily_summaries store) as [|r rows IH]; [done|]. simpl.
    destruct (decide (for_date other_date r)) as [Hr|Hr].
    + rewrite (filter_cons_True _ r) by done.
      rewrite decide_False by (unfold for_date in *; congruence).
      rewrite filter_cons_True by done. by rewrite IH.
    + rewrite (filter_cons_False _ r) by done.
      rewrite filter_cons_False; [done|].
      by destruct (DailyLawsFacts.overwrite_if_date summary_date0 text total now r)
        as [Hd _]; unfold for_date in *; rewrite Hd.
  - rewrite filter_app, filter_cons_False; [by rewrite app_nil_r|].
    unfold for_date. simpl. congruence.
Qed.

Section Pipeline.
Variable format_timeline : list EventLog → string.
Variable analyze : string → Z → string.

Local Abbreviation run_for_date := (DailySummaries.run_for_date format_timeline analyze).
Local Abbreviation run_batch := (DailyBatch.run_batch format_timeline analyze).

(** X25.  A run for a date returns no id exactly when the date has no event
    and the run was forced or the date has no summary yet.  Whatever it
    returns, it leaves the events and the summaries of the other dates as
    they were, and when it returns no id it leaves the whole store. *)
Theorem run_for_date_none_iff (target_date : Z) (force_update : bool) (now : Z)
    (store : Store) :
  (fst (run_for_date target_date force_update now store) = None ↔
   event_count target_date store = 0 ∧
   (force_update = true ∨ get_summary target_date store = None)) ∧
  (fst (run_for_date target_date force_update now store) = None →
   snd (run_for_date target_date force_update now store) = store) ∧
  event_logs (snd (run_for_date target_date force_update now store)) = event_logs store ∧
  filter (λ row, ¬ for_date target_date row)
         (daily_summaries (snd (run_for_date target_date force_update now store)))
  = filter (λ row, ¬ for_date target_date row) (daily_summaries store).
Proof.
  pose proof (DailyLawsFacts.run_for_date_event_logs format_timeline analyze
                target_date force_update now store) as Hlogs.
  destruct (DailyLawsFacts.run_for_date_cases format_timeline analyze
              target_date force_update now store)
    as [(ex & -> & Hex & Hrun)|[(Hgo & H0 & Hrun)|(Hgo & Hpos & Hrun)]];
    rewrite Hrun in *; simpl.
  - split_and!; [|done..]. split; [done|]. intros (_ & [?|?]); congruence.
  - split_and!; [|done..]. by split.
  - split_and!; [|done|done|].
    + split; [done|]. lia.
    + unfold save. destruct (get_summary target_date store); cbn [snd daily_summaries].
      * apply DailySummaryFacts.filter_overwrite_others.
      * rewrite filter_app. rewrite filter_cons_False; [by rewrite app_nil_r|].
        intros H. by apply H.
Qed.

(** X26.  The first run for a date that has events and no summary adds one
    row, with the next id of the sequence, the text of the LLM and the
    number of the date's events; an unforced run after it returns the same
    id and changes nothing. *)
Theorem run_for_date_first_run (target_date : Z) (force_update : bool) (now later : Z)
    (store : Store) :
  get_summary target_date store = None →
  0 < event_count target_date store →
  ∃ store',
    run_for_date target_date force_update now store
      = (Some (next_summary_id store), store') ∧
    daily_summaries store'
      = daily_summaries store ++
        [{| ds_id := next_summary_id store;
            summary_date := target_date;
            summary_text := analyze (format_timeline (fetch_events target_date store))
                                    target_date;
            total_events := event_count target_date store;
            created_at := now;
            updated_at := now |}] ∧
    event_logs store' = event_logs store ∧
    run_for_date target_date false later store' = (Some (next_summary_id store), store').
Proof.
  intros Hnone Hpos.
  destruct (DailyLawsFacts.run_for_date_cases format_timeline analyze
              target_date force_update now store)
    as [(ex & _ & Hex & _)|[(_ & H0 & _)|(_ & _ & Hrun)]]; [congruence|lia|].
  rewrite Hrun. unfold save. rewrite Hnone. cbn [fst snd].
  eexists. split; [done|]. cbn [daily_summaries event_logs]. split_and!; [done..|].
  unfold DailySummaries.run_for_date.
  assert (get_summary target_date
            {| event_logs := event_logs store;
               daily_summaries :=
                 daily_summaries store ++
                 [{| ds_id := next_summary_id store;
                     summary_date := target_date;
                     summary_text :=
                       analyze (format_timeline (fetch_events target_date store))
                               target_date;
                     total_events := event_count target_date store;
                     created_at := now;
                     updated_at := now |}];
               next_summary_id := next_summary_id store + 1 |}
          = Some {| ds_id := next_summary_id store;
                    summary_date := target_date;
                    summary_text :=
                      analyze (format_timeline (fetch_events target_date store))
                              target_date;
                    total_events := event_count target_date store;
                    created_at := now;
                    updated_at := now |}) as ->.
  { unfold get_summary in *. cbn [daily_summaries]. rewrite filter_app.
    destruct (filter (for_date target_date) (daily_summaries store)); [|done].
    by rewrite filter_cons_True. }
  done.
Qed.

(** X27.  A batch keeps the events and every summary there was.  Run
    without a date list it leaves every date that has events with a summary;
    run with a list it does so for the dates of the list.  The id it
    reports for a date is the id of the summary of that date. *)
Theorem run_batch_summarises (date_list : option (list Z)) (force_update : bool)
    (now : nat → Z) (store : Store) :
  event_logs (snd (run_batch date_list force_update now store)) = event_logs store ∧
  (∀ d, match date_list with Some l => d ∈ l | None => True end →
        0 < event_count d store →
        is_Some (get_summary d (snd (run_batch date_list force_update now store)))) ∧
  (∀ d, is_Some (get_summary d store) →
        is_Some (get_summary d (snd (run_batch date_list force_update now store)))) ∧
  (∀ d id, fst (run_batch date_list force_update now store) !! d = Some id →
           ds_id <$> get_summary d (snd (run_batch date_list force_update now store))
           = Some id).
Proof.
  unfold DailyBatch.run_batch.
  set (dates := match date_list with Some l => l | None => get_distinct_dates store end).
  destruct (DailyLawsFacts.fold_batch_step_kept format_timeline analyze force_update now
              (imap pair dates) (∅, store)) as [(Hlogs & Hkeep & Hids) Hcover].
  simpl in *. split_and!; [done| |done|].
  - intros d Hd Hev. apply Hcover; [|done].
    rewrite DailyLawsFacts.imap_pair_snd. unfold dates.
    destruct date_list; [done|]. by apply DailyLawsFacts.elem_of_get_distinct_dates.
  - apply Hids. intros d id. by rewrite lookup_empty.
Qed.

End Pipeline.

Lemma run_for_date_first_run_witness :
  ∃ store',
    DailySummaries.run_for_date Samples.timeline_stub Samples.analyze_stub 20332 false 500
      Samples.store_unsummarised = (Some 1, store') ∧
    daily_summaries store'
      = [mkDailySummary 1 20332 "new summary" 2 500 500] ∧
    event_logs store' = event_logs Samples.store_unsummarised ∧
    DailySummaries.run_for_date Samples.timeline_stub Samples.analyze_stub 20332 false 900
      store' = (Some 1, store').
Proof.
  apply (run_for_date_first_run Samples.timeline_stub Samples.analyze_stub 20332 false
           500 900 Samples.store_unsummarised); [reflexivity|by vm_compute].
Defined.

End DailyLaws.

(** ** user_retrieval_pipeline.py and rag_synthesis_engine.py: the answer
       when records were found *)

Module RetrievalLaws.
Import Retrieval.

Lemma elem_of_collect_images (retrieved_evidence : list Evidence) (url : string) :
  url ∈ collect_images retrieved_evidence →
  ∃ evidence a, evidence ∈ retrieved_evidence ∧ ev_type evidence = "detail" ∧
                a ∈ appearances evidence ∧ snapshot_url a = Some url.
Proof.
  unfold collect_images. rewrite list_elem_of_In, in_concat.
  intros (l & (evidence & <- & Hev)%in_map_iff & Hurl).
  destruct (String.eqb_spec (ev_type evidence) "detail") as [Ht|Ht]; [|done].
  apply list_elem_of_In, list_elem_of_omap in Hurl as (a & Ha & Hu).
  exists evidence, a. rewrite list_elem_of_In. split_and!; [done..|].
  unfold truthy_snapshot_url in Hu.
  destruct (snapshot_url a) as [u|]; [|done]. by destruct (String.eqb u "").
Qed.

Section Pipeline.
Variable parse : string → QueryObj.
Variable _retrieve_summary : QueryObj → list Evidence.
Variable _retrieve_detail : QueryObj → list Evidence.
Variable materialize : list Evidence → list Evidence.
Variable _build_system_prompt : QueryObj → string.
Variable _build_user_prompt : string → list Evidence → QueryObj → string.
Variable generate : string → string → option string.
Variable strip : string → string.
Variable fallback_text : list Evidence → string.

(** X28.  When the store finds records, [answer] returns the parsed query
    and the materialized records, counts the latter as evidence, and says
    that it has images exactly when it lists some, each the snapshot of an
    appearance of a detail record.  It calls the LLM once, with the prompts
    built from the query and the materialized records, unless
    materialization left no record; and when that call fails it still
    answers, with the fallback text and without images. *)
Theorem answer_with_records (user_query : string) :
  let query := parse user_query in
  let records := materialize (retrieve _retrieve_summary _retrieve_detail query) in
  let system_prompt := _build_system_prompt query in
  let user_prompt := _build_user_prompt user_query records query in
  let a := answer parse _retrieve_summary _retrieve_detail materialize
                  _build_system_prompt _build_user_prompt generate strip fallback_text
                  user_query in
  retrieve _retrieve_summary _retrieve_detail query ≠ [] →
  query_obj (fst a) = query ∧
  retrieved_records (fst a) = records ∧
  evidence_count (result (fst a)) = length records ∧
  (has_images (result (fst a)) = true ↔ images (result (fst a)) ≠ []) ∧
  (∀ url, url ∈ images (result (fst a)) →
     ∃ evidence ap, evidence ∈ records ∧ ev_type evidence = "detail" ∧
                    ap ∈ appearances evidence ∧ snapshot_url ap = Some url) ∧
  llm_calls a = match records with
                | [] => []
                | _ => [(system_prompt, user_prompt)]
                end ∧
  (records ≠ [] → generate system_prompt user_prompt = None →
   result (fst a) = {| answer_text := fallback_text records;
                       evidence_count := length records;
                       has_images := false;
                       images := [] |}) ∧
  (∀ reply, records ≠ [] → generate system_prompt user_prompt = Some reply →
   answer_text (result (fst a)) = strip reply).
Proof.
  intros query records system_prompt user_prompt a Hfound.
  unfold a, answer. fold query.
  destruct (retrieve _retrieve_summary _retrieve_detail query) as [|r0 rs] eqn:Hr; [done|].
  fold records. unfold synthesize, bind, llm_generate, ret, llm_calls.
  destruct records as [|e es] eqn:Hrec.
  - simpl. split_and!; try done. by intros url ?%elem_of_nil.
  - fold system_prompt.
    change (_build_user_prompt user_query (e :: es) query) with user_prompt.
    destruct (generate system_prompt user_prompt) as [reply|] eqn:Hgen.
    + cbn [fst snd result query_obj retrieved_records evidence_count has_images images
           answer_text app].
      split_and!; try done.
      * rewrite negb_true_iff, bool_decide_eq_false. done.
      * apply elem_of_collect_images.
      * by intros reply' _ [= <-].
    + cbn [fst snd result query_obj retrieved_records app].
      unfold _generate_fallback_answer.
      cbn [evidence_count has_images images answer_text].
      split_and!; try done. by intros url ?%elem_of_nil.
Qed.

End Pipeline.

Lemma answer_with_records_witness :
  llm_calls (answer Samples.parse_default Samples.one_event_store Samples.one_event_store
               Samples.keep_records Samples.system_prompt_stub Samples.user_prompt_stub
               Samples.llm_down Samples.strip_id Samples.fallback_stub "谁来过？")
    = [("system", "谁来过？")] ∧
  result (fst (answer Samples.parse_default Samples.one_event_store
                 Samples.one_event_store Samples.keep_records Samples.system_prompt_stub
                 Samples.user_prompt_stub Samples.llm_down Samples.strip_id
                 Samples.fallback_stub "谁来过？"))
    = {| answer_text := "fallback"; evidence_count := 1; has_images := false;
         images := [] |}.
Proof.
  destruct (answer_with_records Samples.parse_default Samples.one_event_store
              Samples.one_event_store Samples.keep_records Samples.system_prompt_stub
              Samples.user_prompt_stub Samples.llm_down Samples.strip_id
              Samples.fallback_stub "谁来过？")
    as (_ & _ & _ & _ & _ & Hcalls & Hfallback & _); [discriminate|].
  split; [exact Hcalls|]. apply Hfallback; [discriminate|reflexivity].
Defined.

End RetrievalLaws.

(** ** identity_arbiter.py: what stands behind a match *)

Module ArbiterLawsFacts.
Import IdentityArbiter Arbitration.

Lemma closest_fold (rows : list Row) (b0 r : Row) :
  fold_left (λ best row,
               match best with
               | None => Some row
               | Some b => if Qltb (similarity b) (similarity row) then Some row else Some b
               end) rows (Some b0) = Some r →
  (r = b0 ∨ r ∈ rows) ∧ (similarity b0 <= similarity r)%Q ∧
  ∀ x, x ∈ rows → (similarity x <= similarity r)%Q.
Proof.
  revert b0. induction rows as [|x rows IH]; intros b0; simpl.
  - intros [= <-]. split_and!; [by left|apply Qle_refl|]. by intros x ?%elem_of_nil.
  - destruct (Qltb (similarity b0) (similarity x)) eqn:Hlt; intros Hf.
    + destruct (IH x Hf) as (Hin & Hle & Hall). split_and!.
      * right. destruct Hin as [->|Hin]; [left|by right].
      * apply Qle_trans with (similarity x); [|done].
        apply Qlt_le_weak. by apply Qltb_lt.
      * intros y [->|Hy]%elem_of_cons; [done|by apply Hall].
    + destruct (IH b0 Hf) as (Hin & Hle & Hall). split_and!.
      * destruct Hin as [->|Hin]; [by left|right; by right].
      * done.
      * intros y [->|Hy]%elem_of_cons; [|by apply Hall].
        apply Qle_trans with (similarity b0); [|done]. by apply Qltb_ge.
Qed.

(** [closest] returns a row of largest similarity, and some row when there
    is one. *)
Lemma closest_max (rows : list Row) (r : Row) :
  closest rows = Some r →
  r ∈ rows ∧ ∀ x, x ∈ rows → (similarity x <= similarity r)%Q.
Proof.
  unfold closest. destruct rows as [|b0 rows]; [done|]. simpl.
  intros (Hin & Hle & Hall)%closest_fold. split.
  - destruct Hin as [->|Hin]; [left|by right].
  - intros x [->|Hx]%elem_of_cons; [done|by apply Hall].
Qed.

Lemma closest_is_Some (rows : list Row) : rows ≠ [] → is_Some (closest rows).
Proof.
  unfold closest. destruct rows as [|b0 rows]; [done|]. intros _. simpl.
  generalize b0. induction rows as [|x rows IH]; intros b; simpl; [by eexists|].
  destruct (Qltb (similarity b) (similarity x)); apply IH.
Qed.

Section Matching.
Variable cosine_distance : Vec → Vec → Q.
Variable self : Arbiter.

Lemma elem_of_face_rows (face_vec : Vec) (db : Database) (row : Row) :
  row ∈ face_rows cosine_distance self face_vec db ↔
  (face_threshold self < similarity row)%Q ∧
  ∃ pf p, pf ∈ person_faces db ∧ p ∈ persons db ∧ pf_person_id pf = p_id p ∧
          row = (p_id p, p_name p, p_role p,
                 Float64.fsub 1 (cosine_distance (embedding pf) face_vec)).
Proof.
  unfold face_rows. rewrite list_elem_of_filter, Qltb_lt.
  rewrite list_elem_of_In, in_concat. split.
  - intros [Hlt (rows & (pf & <- & Hpf)%in_map_iff & Hrow)]. split; [done|].
    apply list_elem_of_In, list_elem_of_omap in Hrow as (p & Hp & Hrow).
    case_decide; [|done]. injection Hrow as <-.
    exists pf, p. by rewrite list_elem_of_In.
  - intros [Hlt (pf & p & Hpf & Hp & Hid & ->)]. split; [done|].
    eexists. split.
    + apply in_map_iff. exists pf. split; [done|]. by apply list_elem_of_In.
    + apply list_elem_of_In, list_elem_of_omap. exists p. split; [done|].
      by rewrite decide_True.
Qed.

Lemma elem_of_cached_owner_rows (body_vec : Vec) (time_limit : Z) (db : Database)
    (row : Row) :
  row ∈ cached_owner_rows cosine_distance body_vec time_limit db →
  ∃ p cached updated,
    p ∈ persons db ∧ p_role p = "owner" ∧
    current_body_embedding p = Some cached ∧ body_update_time p = Some updated ∧
    time_limit ≤ updated ∧
    row = (p_id p, p_name p, p_role p,
           Float64.fsub 1 (cosine_distance cached body_vec)).
Proof.
  unfold cached_owner_rows. intros (p & Hp & Hrow)%list_elem_of_omap.
  destruct (current_body_embedding p) as [cached|] eqn:Hc; [|done].
  destruct (body_update_time p) as [updated|] eqn:Hu; [|done].
  destruct (String.eqb_spec (p_role p) "owner") as [Hr|Hr]; [|done].
  destruct (Z.leb_spec time_limit updated); [|done].
  injection Hrow as <-. by exists p, cached, updated.
Qed.

Lemma match_by_body_closest (fault : Fault) (body_vec : Vec) (timestamp : Z)
    (db : Database) :
  _match_by_body cosine_distance self fault body_vec timestamp db = (None, db)
  ∨ ∃ row,
      closest (body_rows cosine_distance self body_vec (timestamp - 48 * 3600) db)
      = Some row ∧
      _match_by_body cosine_distance self fault body_vec timestamp db
      = (Some (body_identity row body_vec),
         cache_written (row_id row) body_vec timestamp db).
Proof.
  unfold _match_by_body, try_match_by_body, _update_body_cache.
  destruct (closest (body_rows cosine_distance self body_vec (timestamp - 48 * 3600) db))
    as [[[[pid name] role] sim]|] eqn:Hc.
  - destruct fault; cbn; first [by left | right; by exists (pid, name, role, sim)].
  - left. by destruct fault.
Qed.

Lemma soft_match_by_body_closest (fault : Fault) (body_vec : Vec) (timestamp : Z)
    (db : Database) :
  _soft_match_by_body cosine_distance self fault body_vec timestamp db = (None, db)
  ∨ ∃ row,
      closest (soft_rows cosine_distance self body_vec (timestamp - 48 * 3600) db)
      = Some row ∧
      _soft_match_by_body cosine_distance self fault body_vec timestamp db
      = (Some (soft_identity row body_vec), db).
Proof.
  unfold _soft_match_by_body, try_soft_match_by_body.
  destruct (closest (soft_rows cosine_distance self body_vec (timestamp - 48 * 3600) db))
    as [[[[pid name] role] sim]|] eqn:Hc.
  - destruct fault; cbn; first [by left | right; by exists (pid, name, role, sim)].
  - left. by destruct fault.
Qed.

(** The four ways [identify] ends. *)
Lemma identify_cases (faults : Faults) (face_vec body_vec : option Vec) (timestamp : Z)
    (db : Database) :
  (∃ face row, face_vec = Some face ∧
     closest (face_rows cosine_distance self face db) = Some row ∧
     fst (identify cosine_distance self faults face_vec body_vec timestamp db)
     = face_identity row body_vec) ∨
  (∃ b row, body_vec = Some b ∧
     closest (body_rows cosine_distance self b (timestamp - 48 * 3600) db) = Some row ∧
     fst (identify cosine_distance self faults face_vec body_vec timestamp db)
     = body_identity row b) ∨
  (∃ b row, body_vec = Some b ∧
     closest (soft_rows cosine_distance self b (timestamp - 48 * 3600) db) = Some row ∧
     identify cosine_distance self faults face_vec body_vec timestamp db
     = (soft_identity row b, db)) ∨
  identify cosine_distance self faults face_vec body_vec timestamp db
  = (stranger_result body_vec, db).
Proof.
  assert ((∃ b row, body_vec = Some b ∧
             closest (body_rows cosine_distance self b (timestamp - 48 * 3600) db)
             = Some row ∧
             fst (identify_by_body cosine_distance self faults body_vec timestamp db)
             = body_identity row b) ∨
          (∃ b row, body_vec = Some b ∧
             closest (soft_rows cosine_distance self b (timestamp - 48 * 3600) db)
             = Some row ∧
             identify_by_body cosine_distance self faults body_vec timestamp db
             = (soft_identity row b, db)) ∨
          identify_by_body cosine_distance self faults body_vec timestamp db
          = (stranger_result body_vec, db)) as Hbody.
  { unfold identify_by_body. destruct body_vec as [b|]; [|by right; right].
    destruct (match_by_body_closest (body_fault faults) b timestamp db)
      as [->|(row & Hrow & ->)].
    - destruct (soft_match_by_body_closest (soft_fault faults) b timestamp db)
        as [->|(row & Hrow & ->)].
      + by right; right.
      + right; left. by exists b, row.
    - left. by exists b, row. }
  unfold identify. destruct face_vec as [face|]; [|by right].
  destruct (ArbiterFacts.match_by_face_cases cosine_distance self (face_fault faults)
              face body_vec timestamp db) as [->|(row & Hrow & ->)].
  - by right.
  - left. by exists face, row.
Qed.

Lemma face_identity_method (row : Row) (body_vec : option Vec) :
  id_method (face_identity row body_vec) = "face".
Proof. by destruct row as [[[pid name] role] sim]. Qed.

Lemma body_identity_method (row : Row) (b : Vec) :
  id_method (body_identity row b) = "body".
Proof. by destruct row as [[[pid name] role] sim]. Qed.

Lemma soft_identity_method (row : Row) (b : Vec) :
  id_method (soft_identity row b) = "soft_match".
Proof. by destruct row as [[[pid name] role] sim]. Qed.

End Matching.

End ArbiterLawsFacts.

Module ArbiterLaws.
Import IdentityArbiter Arbitration.

Section Matching.
Variable cosine_distance : Vec → Vec → Q.
Variable self : Arbiter.

(** X29.  Behind a body match or a soft match there is a person of the
    store with the role owner whose cached body vector was written at most
    48 hours before the timestamp; the confidence is the similarity to that
    vector.  For a body match it is above the body threshold and the role
    is family; for a soft match it is above the soft threshold, not above
    the body threshold, the role is suspected family, and the store is left
    as it was. *)
Theorem identify_body_match_sound (faults : Faults) (face_vec body_vec : option Vec)
    (timestamp : Z) (db : Database) :
  let res := fst (identify cosine_distance self faults face_vec body_vec timestamp db) in
  id_method res = "body" ∨ id_method res = "soft_match" →
  ∃ b p cached updated,
    body_vec = Some b ∧ p ∈ persons db ∧ id_person_id res = Some (p_id p) ∧
    p_role p = "owner" ∧ current_body_embedding p = Some cached ∧
    body_update_time p = Some updated ∧ timestamp - 48 * 3600 ≤ updated ∧
    id_confidence res = Float64.fsub 1 (cosine_distance cached b) ∧
    id_body_embedding res = Some b ∧
    if String.eqb (id_method res) "body"
    then id_role res = "family" ∧ (body_threshold self < id_confidence res)%Q
    else id_role res = "suspected_family" ∧
         (soft_match_threshold self < id_confidence res)%Q ∧
         (id_confidence res <= body_threshold self)%Q ∧
         snd (identify cosine_distance self faults face_vec body_vec timestamp db) = db.
Proof.
  intros res Hm. unfold res in *.
  destruct (ArbiterLawsFacts.identify_cases cosine_distance self faults face_vec
              body_vec timestamp db)
    as [(face & row & _ & _ & Hres)|[(b & row & -> & Hrow & Hres)
       |[(b & row & -> & Hrow & Hres)|Hres]]]; rewrite Hres in *.
  - rewrite ArbiterLawsFacts.face_identity_method in Hm. by destruct Hm.
  - apply ArbiterLawsFacts.closest_max in Hrow as [Hin _].
    unfold body_rows in Hin. apply list_elem_of_filter in Hin as [Hlt Hin].
    apply Qltb_lt in Hlt.
    apply ArbiterLawsFacts.elem_of_cached_owner_rows in Hin
      as (p & cached & updated & Hp & Hr & Hc & Hu & Hlim & ->).
    exists b, p, cached, updated. simpl in *. by split_and!.
  - apply ArbiterLawsFacts.closest_max in Hrow as [Hin _].
    unfold soft_rows in Hin. apply list_elem_of_filter in Hin as [[Hlt Hle] Hin].
    apply Qltb_lt in Hlt. apply Qle_bool_iff in Hle.
    apply ArbiterLawsFacts.elem_of_cached_owner_rows in Hin
      as (p & cached & updated & Hp & Hr & Hc & Hu & Hlim & ->).
    exists b, p, cached, updated. simpl in *. by split_and!.
  - simpl in Hm. by destruct Hm.
Qed.

(** X30.  Behind a face match there is an enrolled face of a person of the
    store; the confidence is the similarity to that face, it is above the
    face threshold, and no enrolled face is more similar; the role is family
    for an owner and the stored role otherwise.  And the face comes first:
    when the face path meets no fault and some enrolled face is above the
    threshold, the result is a face match, whatever the body vector. *)
Theorem identify_face_match_sound (faults : Faults) (face_vec body_vec : option Vec)
    (timestamp : Z) (db : Database) :
  let res := fst (identify cosine_distance self faults face_vec body_vec timestamp db) in
  (id_method res = "face" →
   ∃ face pf p,
     face_vec = Some face ∧ pf ∈ person_faces db ∧ p ∈ persons db ∧
     pf_person_id pf = p_id p ∧ id_person_id res = Some (p_id p) ∧
     id_role res = (if String.eqb (p_role p) "owner" then "family" else p_role p) ∧
     id_confidence res = Float64.fsub 1 (cosine_distance (embedding pf) face) ∧
     (face_threshold self < id_confidence res)%Q ∧
     id_body_embedding res = body_vec ∧
     ∀ pf' p', pf' ∈ person_faces db → p' ∈ persons db → pf_person_id pf' = p_id p' →
               (Float64.fsub 1 (cosine_distance (embedding pf') face)
                <= id_confidence res)%Q) ∧
  (∀ face, face_vec = Some face → face_fault faults = NoFault →
           face_rows cosine_distance self face db ≠ [] → id_method res = "face").
Proof.
  intros res. unfold res. split.
  - intros Hm.
    destruct (ArbiterLawsFacts.identify_cases cosine_distance self faults face_vec
                body_vec timestamp db)
      as [(face & row & -> & Hrow & Hres)|[(b & row & _ & _ & Hres)
         |[(b & row & _ & _ & Hres)|Hres]]]; rewrite Hres in *.
    + apply ArbiterLawsFacts.closest_max in Hrow as [Hin Hmax].
      apply ArbiterLawsFacts.elem_of_face_rows in Hin as [Hlt (pf & p & Hpf & Hp & Hid & ->)].
      exists face, pf, p. simpl in *. split_and!; try done.
      intros pf' p' Hpf' Hp' Hid'.
      destruct (Qlt_le_dec (face_threshold self)
                  (Float64.fsub 1 (cosine_distance (embedding pf') face))) as [Habove|Hbelow].
      * apply (Hmax (p_id p', p_name p', p_role p',
                     (Float64.fsub 1 (cosine_distance (embedding pf') face)))).
        apply ArbiterLawsFacts.elem_of_face_rows. split; [done|]. by exists pf', p'.
      * apply Qle_trans with (face_threshold self); [done|]. by apply Qlt_le_weak.
    + by rewrite ArbiterLawsFacts.body_identity_method in Hm.
    + cbn [fst] in Hm. by rewrite ArbiterLawsFacts.soft_identity_method in Hm.
    + by cbn in Hm.
  - intros face -> Hfault Hrows.
    destruct (ArbiterLawsFacts.closest_is_Some _ Hrows) as [[[[pid name] role] sim] Hc].
    unfold identify, _match_by_face, try_match_by_face, _update_body_cache.
    rewrite Hfault, Hc. by destruct body_vec.
Qed.

End Matching.

Lemma identify_body_match_sound_witness :
  ∃ b p cached updated,
    Some Samples.north = Some b ∧ p ∈ persons Samples.db_owner_cached ∧
    p_role p = "owner" ∧ current_body_embedding p = Some cached ∧
    body_update_time p = Some updated ∧ 100 - 48 * 3600 ≤ updated.
Proof.
  destruct (identify_body_match_sound Samples.dot_distance default_arbiter
              Samples.no_faults None (Some Samples.north) 100 Samples.db_owner_cached)
    as (b & p & cached & updated & Hb & Hp & _ & Hr & Hc & Hu & Hlim & _).
  - left. reflexivity.
  - by exists b, p, cached, updated.
Defined.

Lemma identify_face_match_sound_witness :
  id_method (fst (identify Samples.dot_distance default_arbiter Samples.no_faults
                    (Some Samples.east) (Some Samples.north) 100 Samples.db_owner_cached))
  = "face".
Proof.
  apply (proj2 (identify_face_match_sound Samples.dot_distance default_arbiter
                  Samples.no_faults (Some Samples.east) (Some Samples.north) 100
                  Samples.db_owner_cached) Samples.east);
    [reflexivity | reflexivity | by vm_compute].
Defined.

End ArbiterLaws.
